(** * Cyber-Threat-Dashboard: the risk-scoring and severity pipeline

    A shallow embedding of the core of the repository:

    - [models/data_processing.py]  (cleaning, severity factor, min-max
      normalisation, risk score, cluster-to-tier labelling),
    - [models/model_training.py]   (quantile severity labels, label encoders),
    - [models/prediction_utils.py] (input encoding, single and batch
      prediction).

    Conventions of the embedding.

    - A pandas table is a list of rows; a missing cell (NaN) is [None].
    - Python floats are modelled by exact rationals [Q]; the rounding of
      binary64 arithmetic is not modelled.
    - The calls into scikit-learn and pandas ([MinMaxScaler], [KMeans],
      [LabelEncoder], [Series.median], [Series.quantile], [pd.cut],
      [RandomForestClassifier.predict]) are modelled by their documented
      behaviour; the fitted classifier and the k-means result, which the
      repository does not determine, are parameters. *)

From Stdlib Require Import QArith Qminmax Qround Qabs Lqa Lia ZArith.
From Stdlib Require Import String Ascii List Permutation Sorted.
From stdpp Require Import base option list gmap strings.

Open Scope Q_scope.
Open Scope string_scope.

(** * Rationals: the small toolbox the pipeline needs *)

Module Num.

(** NaN-aware equality of two numeric cells, as [DataFrame.duplicated]
    sees them: two missing cells are the same cell. *)
Definition cell_eqb (a b : option Q) : bool :=
  match a, b with
  | Some x, Some y => Qeq_bool x y
  | None, None => true
  | _, _ => false
  end.

Definition str_cell_eqb (a b : option string) : bool :=
  match a, b with
  | Some x, Some y => String.eqb x y
  | None, None => true
  | _, _ => false
  end.

(** Insertion of a value into an ascending list, and the sort built on it
    ([Series.sort_values] on a column without missing cells). *)
Fixpoint insert_sorted (x : Q) (l : list Q) : list Q :=
  match l with
  | [] => [x]
  | y :: l' => if Qle_bool x y then x :: y :: l' else y :: insert_sorted x l'
  end.

Definition sort_values (l : list Q) : list Q :=
  fold_right insert_sorted [] l.

(** [Series.dropna]: the cells that are present. *)
Definition dropna (l : list (option Q)) : list Q := omap id l.

(** [Series.median] (skipna): the middle value of the sorted present cells,
    the mean of the two middle ones when their number is even, NaN when
    there is none. *)
Definition median_sorted (s : list Q) : option Q :=
  let n := length s in
  match n with
  | O => None
  | _ =>
      if Nat.even n
      then match s !! (n / 2 - 1)%nat, s !! (n / 2)%nat with
           | Some a, Some b => Some ((a + b) / 2)
           | _, _ => None
           end
      else s !! (n / 2)%nat
  end.

Definition median (col : list (option Q)) : option Q :=
  median_sorted (sort_values (dropna col)).

End Num.

(** * The Cleaner ([preprocess_data], step 2) *)

Module Cleaner.
Import Num.

(** The ten raw columns of the data set, split by the kind of their cells. *)
Inductive NumCol := Year | Financial_Loss | Affected_Users | Resolution_Hours.
Inductive CatCol :=
  Country | Attack_Type | Target_Industry | Attack_Source
| Vulnerability_Type | Defense_Mechanism.

#[global] Instance NumCol_eq_dec : EqDecision NumCol.
Proof. solve_decision. Defined.
#[global] Instance CatCol_eq_dec : EqDecision CatCol.
Proof. solve_decision. Defined.

(** One row of the raw table; [None] is a missing cell. *)
Record Incident := mkIncident {
  country : option string;
  year : option Q;
  attack_type : option string;
  target_industry : option string;
  financial_loss : option Q;
  affected_users : option Q;
  attack_source : option string;
  vulnerability_type : option string;
  defense_mechanism : option string;
  resolution_hours : option Q
}.

Definition get_num (c : NumCol) (r : Incident) : option Q :=
  match c with
  | Year => year r
  | Financial_Loss => financial_loss r
  | Affected_Users => affected_users r
  | Resolution_Hours => resolution_hours r
  end.

Definition get_cat (c : CatCol) (r : Incident) : option string :=
  match c with
  | Country => country r
  | Attack_Type => attack_type r
  | Target_Industry => target_industry r
  | Attack_Source => attack_source r
  | Vulnerability_Type => vulnerability_type r
  | Defense_Mechanism => defense_mechanism r
  end.

Definition set_num (c : NumCol) (v : option Q) (r : Incident) : Incident :=
  match c with
  | Year =>
      mkIncident (country r) v (attack_type r) (target_industry r)
        (financial_loss r) (affected_users r) (attack_source r)
        (vulnerability_type r) (defense_mechanism r) (resolution_hours r)
  | Financial_Loss =>
      mkIncident (country r) (year r) (attack_type r) (target_industry r)
        v (affected_users r) (attack_source r)
        (vulnerability_type r) (defense_mechanism r) (resolution_hours r)
  | Affected_Users =>
      mkIncident (country r) (year r) (attack_type r) (target_industry r)
        (financial_loss r) v (attack_source r)
        (vulnerability_type r) (defense_mechanism r) (resolution_hours r)
  | Resolution_Hours =>
      mkIncident (country r) (year r) (attack_type r) (target_industry r)
        (financial_loss r) (affected_users r) (attack_source r)
        (vulnerability_type r) (defense_mechanism r) v
  end.

Definition set_cat (c : CatCol) (v : option string) (r : Incident) : Incident :=
  match c with
  | Country =>
      mkIncident v (year r) (attack_type r) (target_industry r)
        (financial_loss r) (affected_users r) (attack_source r)
        (vulnerability_type r) (defense_mechanism r) (resolution_hours r)
  | Attack_Type =>
      mkIncident (country r) (year r) v (target_industry r)
        (financial_loss r) (affected_users r) (attack_source r)
        (vulnerability_type r) (defense_mechanism r) (resolution_hours r)
  | Target_Industry =>
      mkIncident (country r) (year r) (attack_type r) v
        (financial_loss r) (affected_users r) (attack_source r)
        (vulnerability_type r) (defense_mechanism r) (resolution_hours r)
  | Attack_Source =>
      mkIncident (country r) (year r) (attack_type r) (target_industry r)
        (financial_loss r) (affected_users r) v
        (vulnerability_type r) (defense_mechanism r) (resolution_hours r)
  | Vulnerability_Type =>
      mkIncident (country r) (year r) (attack_type r) (target_industry r)
        (financial_loss r) (affected_users r) (attack_source r)
        v (defense_mechanism r) (resolution_hours r)
  | Defense_Mechanism =>
      mkIncident (country r) (year r) (attack_type r) (target_industry r)
        (financial_loss r) (affected_users r) (attack_source r)
        (vulnerability_type r) v (resolution_hours r)
  end.

Definition all_num_cols : list NumCol :=
  [Year; Financial_Loss; Affected_Users; Resolution_Hours].
Definition all_cat_cols : list CatCol :=
  [Country; Attack_Type; Target_Industry; Attack_Source;
   Vulnerability_Type; Defense_Mechanism].

(** Full-row equality, as [drop_duplicates] tests it (all columns). *)
Definition row_eqb (a b : Incident) : bool :=
  forallb (fun c => cell_eqb (get_num c a) (get_num c b)) all_num_cols
  && forallb (fun c => str_cell_eqb (get_cat c a) (get_cat c b)) all_cat_cols.

(** [df.drop_duplicates(inplace=True)]: keep the first occurrence of every
    row, in the order of the table. [seen] holds the rows kept so far. *)
Fixpoint drop_duplicates_from (seen : list Incident) (df : list Incident)
  : list Incident :=
  match df with
  | [] => []
  | r :: rest =>
      if existsb (row_eqb r) seen
      then drop_duplicates_from seen rest
      else r :: drop_duplicates_from (r :: seen) rest
  end.

Definition drop_duplicates (df : list Incident) : list Incident :=
  drop_duplicates_from [] df.

Definition column_num (c : NumCol) (df : list Incident) : list (option Q) :=
  map (get_num c) df.

(** [df[c].fillna(v, inplace=True)] on a numeric column, writing through
    to the table as it does in the pandas versions the code was written
    for; filling with NaN ([None]) leaves the column as it is. *)
Definition fill_num_cell (c : NumCol) (v : option Q) (r : Incident) : Incident :=
  match get_num c r with
  | Some _ => r
  | None => set_num c v r
  end.

Definition fillna_num (c : NumCol) (v : option Q) (df : list Incident)
  : list Incident :=
  map (fill_num_cell c v) df.

Definition fill_cat_cell (c : CatCol) (v : string) (r : Incident) : Incident :=
  match get_cat c r with
  | Some _ => r
  | None => set_cat c (Some v) r
  end.

Definition fillna_cat (c : CatCol) (v : string) (df : list Incident)
  : list Incident :=
  map (fill_cat_cell c v) df.

(** The three columns whose missing cells the code fills with the median
    (lines 22-24), and the six it fills with the literal (lines 27-29), in
    the order of the source. *)
Definition median_filled_cols : list NumCol :=
  [Financial_Loss; Affected_Users; Resolution_Hours].
Definition unknown_filled_cols : list CatCol :=
  [Attack_Type; Target_Industry; Attack_Source;
   Vulnerability_Type; Defense_Mechanism; Country].

Definition fill_median (df : list Incident) (c : NumCol) : list Incident :=
  fillna_num c (median (column_num c df)) df.

Definition fill_unknown (df : list Incident) (c : CatCol) : list Incident :=
  fillna_cat c "Unknown" df.

(** The imputation of lines 22-29: one statement per column, each reading
    the table the previous one left. *)
Definition impute (df : list Incident) : list Incident :=
  fold_left fill_unknown unknown_filled_cols
    (fold_left fill_median median_filled_cols df).

(** Step 2 of [preprocess_data]. *)
Definition cleaner (raw : list Incident) : list Incident :=
  impute (drop_duplicates raw).

End Cleaner.

(** * The Scorer ([preprocess_data], steps 3-5) *)

Module Scorer.
Import Num Cleaner.

(** [needle in hay] on Python strings: [needle] occurs at some position. *)
Fixpoint str_in (needle hay : string) : bool :=
  if String.prefix needle hay then true
  else match hay with
       | EmptyString => false
       | String _ hay' => str_in needle hay'
       end.

(** The hand-written table of line 35. *)
Definition severity_map : gmap string Q :=
  list_to_map
    [ ("Ransomware", 1); ("Zero-day", 1); ("Malware", 6 # 10);
      ("DDoS", 6 # 10); ("Phishing", 4 # 10);
      ("Social Engineering", 4 # 10); ("Brute Force", 5 # 10);
      ("Data Breach", 8 # 10); ("SQL Injection", 7 # 10);
      ("Man-in-the-middle", 7 # 10) ].

(** [get_severity_factor], on the two cells of the row it reads. *)
Definition get_severity_factor (attack vuln : string) : Q :=
  let base := default (3 # 10) (severity_map !! attack) in
  let vboost :=
    if str_in "Zero" vuln || str_in "Misconfig" vuln then 2 # 10 else 0 in
  base + vboost.

(** [MinMaxScaler] with the default feature range (0, 1), one column at a
    time: [scale_ = (1 - 0) / range], [min_ = 0 - data_min * scale_],
    [transform x = x * scale_ + min_]. [handle_zeros_in_scale] replaces a
    zero range by 1. *)
Record MinMaxScaler := mkScaler {
  data_min_ : Q;
  data_max_ : Q;
  scale_ : Q;
  min_ : Q
}.

Definition handle_zeros_in_scale (range : Q) : Q :=
  if Qeq_bool range 0 then 1 else range.

Definition fit (col : list Q) : option MinMaxScaler :=
  match col with
  | [] => None
  | x :: xs =>
      let data_min := fold_left Qmin xs x in
      let data_max := fold_left Qmax xs x in
      let data_range := data_max - data_min in
      let scale := (1 - 0) / handle_zeros_in_scale data_range in
      Some (mkScaler data_min data_max scale (0 - data_min * scale))
  end.

Definition transform (s : MinMaxScaler) (x : Q) : Q :=
  x * scale_ s + min_ s.

(** A row of the table after step 5: the raw row and the derived columns. *)
Record Scored := mkScored {
  incident : Incident;
  attack_severity_factor : Q;
  financial_loss_norm : Q;
  affected_users_norm : Q;
  resolution_hours_norm : Q;
  risk_score : Q
}.

Definition risk (fl_norm au_norm rh_norm factor : Q) : Q :=
  (4 # 10) * fl_norm + (3 # 10) * au_norm + (2 # 10) * rh_norm
  + (1 # 10) * factor.

(** The cells of a numeric column, when none is missing. *)
Definition numeric_column (c : NumCol) (df : list Incident) : option (list Q) :=
  mapM (get_num c) df.

(** One row of steps 3-5, given the three fitted scalers. A missing cell
    among those the steps read makes the run fail ([in] on a NaN raises, a
    NaN feature is rejected by [KMeans]). *)
Definition score_row (sf su sr : MinMaxScaler) (r : Incident) : option Scored :=
  attack ← attack_type r;
  vuln ← vulnerability_type r;
  fl ← financial_loss r;
  au ← affected_users r;
  rh ← resolution_hours r;
  let factor := get_severity_factor attack vuln in
  let fl_norm := transform sf fl in
  let au_norm := transform su au in
  let rh_norm := transform sr rh in
  Some (mkScored r factor fl_norm au_norm rh_norm
          (risk fl_norm au_norm rh_norm factor)).

(** Steps 3-5 on the cleaned table. *)
Definition score (df : list Incident) : option (list Scored) :=
  fls ← numeric_column Financial_Loss df;
  aus ← numeric_column Affected_Users df;
  rhs ← numeric_column Resolution_Hours df;
  sf ← fit fls;
  su ← fit aus;
  sr ← fit rhs;
  mapM (score_row sf su sr) df.

End Scorer.

(** * The Clusterer ([preprocess_data], steps 6-7) *)

Module Clusterer.
Import Num Cleaner Scorer.

(** The four features handed to [KMeans], in the order of line 84. *)
Definition kmeans_features (s : Scored) : list Q :=
  [risk_score s; financial_loss_norm s; affected_users_norm s;
   resolution_hours_norm s].

Definition sum_Q (l : list Q) : Q := fold_right Qplus 0 l.

(** [ndarray.mean] of a vector. *)
Definition mean (l : list Q) : Q := sum_Q l / inject_Z (Z.of_nat (length l)).

(** The result of [KMeans(n_clusters=4, random_state=42).fit_predict]: the
    centre of every cluster and the cluster of every row. The algorithm
    itself belongs to scikit-learn and is a parameter of this model. *)
Record KMeansResult := mkKMeans {
  cluster_centers_ : list (list Q);
  labels_ : list nat
}.

(** [np.argsort] of a short vector: the indices in ascending order of their
    values, equal values keeping their index order. *)
Fixpoint insert_index (v : nat -> Q) (i : nat) (l : list nat) : list nat :=
  match l with
  | [] => [i]
  | j :: l' =>
      if Qle_bool (v j) (v i) then j :: insert_index v i l' else i :: j :: l'
  end.

Definition argsort (xs : list Q) : list nat :=
  let v := fun i => default 0 (xs !! i) in
  fold_left (fun acc i => insert_index v i acc) (seq 0 (length xs)) [].

(** Line 98: [kmeans.cluster_centers_.mean(axis=1)]. *)
Definition centers (km : KMeansResult) : list Q :=
  map mean (cluster_centers_ km).

Definition cluster_order (km : KMeansResult) : list nat := argsort (centers km).

Definition tier_names : list string := ["Low"; "Medium"; "High"; "Critical"].

(** Lines 101-106: the dictionary from cluster id to tier name. Reading
    [cluster_order[i]] fails when there are fewer than four clusters. *)
Definition severity_labels (km : KMeansResult) : option (gmap nat string) :=
  c0 ← cluster_order km !! 0%nat;
  c1 ← cluster_order km !! 1%nat;
  c2 ← cluster_order km !! 2%nat;
  c3 ← cluster_order km !! 3%nat;
  Some (<[c3 := "Critical"]> (<[c2 := "High"]> (<[c1 := "Medium"]>
          (<[c0 := "Low"]> ∅)))).

(** A row of the processed table: the scored row, its cluster and its tier
    ([Series.map] leaves a cell missing when the key is not in the
    dictionary). *)
Record Clustered := mkClustered {
  scored : Scored;
  severity_cluster : nat;
  Severity : option string
}.

(** Lines 92 and 108. The cluster column must have one cell per row. *)
Definition label_clusters (km : KMeansResult) (df : list Scored)
  : option (list Clustered) :=
  dict ← severity_labels km;
  if Nat.eqb (length (labels_ km)) (length df)
  then Some (zip_with (fun s c => mkClustered s c (dict !! c)) df (labels_ km))
  else None.

(** [preprocess_data], from the table read from the CSV file to the
    table written back. [KMeans] stands for the fitted clustering of the
    feature rows. *)
Definition preprocess_data (KMeans : list (list Q) -> KMeansResult)
    (raw : list Incident) : option (list Clustered) :=
  let df := cleaner raw in
  df ← score df;
  label_clusters (KMeans (map kmeans_features df)) df.





End Clusterer.

(** * Errors raised by the Python code *)

Module Py.

Inductive error := KeyError | IndexError | ValueError | TypeError.

Inductive result (A : Type) : Type :=
| Ok (a : A)
| Raise (e : error).
Arguments Ok {A} a.
Arguments Raise {A} e.

Definition bind {A B} (m : result A) (k : A -> result B) : result B :=
  match m with
  | Ok a => k a
  | Raise e => Raise e
  end.

Definition of_option {A} (e : error) (o : option A) : result A :=
  match o with
  | Some a => Ok a
  | None => Raise e
  end.

(** A loop that builds a list and stops at the first exception. *)
Fixpoint for_each {A B} (f : A -> result B) (l : list A) : result (list B) :=
  match l with
  | [] => Ok []
  | x :: l' =>
      bind (f x) (fun y => bind (for_each f l') (fun ys => Ok (y :: ys)))
  end.

(** [l[i]] on a Python list: a negative index counts from the end. *)
Definition getitem {A} (l : list A) (i : Z) : result A :=
  let n := Z.of_nat (length l) in
  if (0 <=? i)%Z then of_option IndexError (l !! Z.to_nat i)
  else if (- n <=? i)%Z then of_option IndexError (l !! Z.to_nat (n + i))
  else Raise IndexError.

End Py.

Notation "'do' x <- m ; k" := (Py.bind m (fun x => k))
  (at level 10, x name, m at level 100, k at level 200).

(** * The persisted artifacts *)

Module Persisted.

(** A cell of an input record: a string, a number or NaN. *)
Inductive value := VStr (s : string) | VNum (q : Q) | VNaN.

(** [severity_model.pkl] and [model_features.json]: the classifier, as the
    function it computes on one feature vector (a class index, or an
    exception on a vector it cannot read), the vocabularies
    ([label_encoders]) and the feature order ([model_features]). *)
Record Artifacts := mkArtifacts {
  model : list value -> Py.result Z;
  encoders : gmap string (list string);
  features : list string
}.

End Persisted.

(** * The Trainer ([model_training.py]) *)

Module Trainer.
Import Num Cleaner Py Persisted.

(** [Series.quantile(q)] with linear interpolation between the two order
    statistics around position [(n - 1) * q]; NaN on an empty column. *)
Definition quantile_sorted (s : list Q) (q : Q) : option Q :=
  let pos := inject_Z (Z.of_nat (length s - 1)) * q in
  let lo := Z.to_nat (Qfloor pos) in
  let frac := pos - inject_Z (Qfloor pos) in
  a ← s !! lo;
  match s !! S lo with
  | Some b => Some (a + (b - a) * frac)
  | None => Some a
  end.

Definition quantile (col : list (option Q)) (q : Q) : option Q :=
  quantile_sorted (sort_values (dropna col)) q.

(** A bin edge of [pd.cut]: a number or [float("inf")]. *)
Inductive edge := Fin (q : Q) | Inf.

Definition edge_leb (a b : edge) : bool :=
  match a, b with
  | Fin x, Fin y => Qle_bool x y
  | _, Inf => true
  | Inf, Fin _ => false
  end.

Definition edge_eqb (a b : edge) : bool :=
  match a, b with
  | Fin x, Fin y => Qeq_bool x y
  | Inf, Inf => true
  | _, _ => false
  end.

(** [e < x] for a cell [x]. *)
Definition edge_below (x : Q) (e : edge) : bool :=
  match e with
  | Fin y => negb (Qle_bool x y)
  | Inf => false
  end.

Fixpoint is_monotonic_increasing (bins : list edge) : bool :=
  match bins with
  | a :: (b :: _) as rest => edge_leb a b && is_monotonic_increasing rest
  | _ => true
  end.

Fixpoint has_duplicates (bins : list edge) : bool :=
  match bins with
  | [] => false
  | a :: rest => existsb (edge_eqb a) rest || has_duplicates rest
  end.

(** [bins.searchsorted(x, side="left")] on ascending edges: the number of
    edges strictly below [x]. *)
Definition searchsorted_left (bins : list edge) (x : Q) : nat :=
  length (filter (fun e => edge_below x e = true) bins).

(** [pd.cut(col, bins, labels)] with the defaults [right=True],
    [include_lowest=False], [duplicates="raise"]: the code of the interval
    [(bins[i], bins[i+1]]] that holds the cell, missing for a missing cell
    and for a cell outside all intervals. *)
Definition cut_code (bins : list edge) (x : option Q) : option nat :=
  x ← x;
  let ids := searchsorted_left bins x in
  if Nat.eqb ids 0 || Nat.eqb ids (length bins) then None
  else Some (ids - 1)%nat.

Definition cut (col : list (option Q)) (bins : list edge)
  : result (list (option nat)) :=
  if negb (is_monotonic_increasing bins) then Raise ValueError
  else if has_duplicates bins then Raise ValueError
  else Ok (map (cut_code bins) col).

Definition labels : list string := ["Low"; "Medium"; "High"].

(** A row of the training table: the raw row and its [Severity] cell, held
    as the category code of [pd.cut] (0 = Low, 1 = Medium, 2 = High). *)
Record Labelled := mkLabelled {
  row : Incident;
  severity_code : option nat
}.

Definition severity_name (r : Labelled) : option string :=
  c ← severity_code r; labels !! c.

Definition q33 (df : list Incident) : option Q :=
  quantile (column_num Affected_Users df) (33 # 100).
Definition q66 (df : list Incident) : option Q :=
  quantile (column_num Affected_Users df) (66 # 100).

(** [add_severity_label]. A NaN quantile (empty column) makes the edges
    fail the monotonicity test of [pd.cut]. *)
Definition add_severity_label (df : list Incident) : result (list Labelled) :=
  match q33 df, q66 df with
  | Some q1, Some q2 =>
      do codes <- cut (column_num Affected_Users df)
                    [Fin (-1); Fin q1; Fin q2; Inf];
      Ok (zip_with mkLabelled df codes)
  | _, _ => Raise ValueError
  end.

(** [LabelEncoder.fit] on a column of strings: the distinct values in
    ascending order. *)
Fixpoint insert_class (x : string) (l : list string) : list string :=
  match l with
  | [] => [x]
  | y :: l' =>
      match String.compare x y with
      | Lt => x :: y :: l'
      | Eq => y :: l'
      | Gt => y :: insert_class x l'
      end
  end.

Definition fit_classes (col : list string) : list string :=
  fold_right insert_class [] col.

(** The [Severity] entry of the dictionary built by [encode_categoricals],
    for a table every row of which has a label. *)
Definition severity_classes (df : list Labelled) : list string :=
  fit_classes (omap severity_name df).

(** The header of a categorical column. *)
Definition header (c : CatCol) : string :=
  match c with
  | Country => "Country"
  | Attack_Type => "Attack Type"
  | Target_Industry => "Target Industry"
  | Attack_Source => "Attack Source"
  | Vulnerability_Type => "Security Vulnerability Type"
  | Defense_Mechanism => "Defense Mechanism Used"
  end.

Definition categorical_cols : list CatCol :=
  [Country; Attack_Type; Target_Industry; Attack_Source;
   Vulnerability_Type; Defense_Mechanism].

(** The dictionary [encoders] built by [encode_categoricals]: the classes
    of every categorical column and of [Severity]. (The cells are those of
    a cleaned and labelled table, all present.) *)
Definition encode_categoricals (df : list Labelled)
  : gmap string (list string) :=
  list_to_map
    (map (fun c => (header c, fit_classes (omap (fun r => get_cat c (row r)) df)))
       categorical_cols
     ++ [("Severity", severity_classes df)])%list.

(** The feature list written by [train_model]. *)
Definition features : list string :=
  [ "Country"; "Year"; "Attack Type"; "Target Industry";
    "Financial Loss (in Million $)"; "Number of Affected Users";
    "Attack Source"; "Security Vulnerability Type";
    "Defense Mechanism Used"; "Incident Resolution Time (in Hours)" ].

(** [run_model_training], from the loaded table to the saved artifacts.
    Fitting the random forest belongs to scikit-learn: [fit] stands for
    the classifier it returns on the encoded table. *)
Definition run_model_training
    (fit : list Labelled -> list value -> result Z) (df : list Incident)
  : result Artifacts :=
  do df <- add_severity_label df;
  Ok (mkArtifacts (fit df) (encode_categoricals df) features).

End Trainer.

(** * The Predictor ([prediction_utils.py]) *)

Module Predictor.
Import Num Py Persisted.

(** Python's [==] between a cell and a vocabulary entry. *)
Definition value_eqb (a b : value) : bool :=
  match a, b with
  | VStr x, VStr y => String.eqb x y
  | VNum x, VNum y => Qeq_bool x y
  | _, _ => false
  end.

(** A Python dictionary with string keys, in insertion order. *)
Definition dict := list (string * value).

Definition keys (d : dict) : list string := map fst d.

Definition dict_get (d : dict) (k : string) : option value :=
  snd <$> List.find (fun kv => String.eqb (fst kv) k) d.

(** [value in classes] and [classes.index(value)]. *)
Definition contains (classes : list string) (v : value) : bool :=
  existsb (fun c => value_eqb v (VStr c)) classes.

Fixpoint index_from (i : nat) (classes : list string) (v : value) : result nat :=
  match classes with
  | [] => Raise ValueError
  | c :: rest =>
      if value_eqb v (VStr c) then Ok i else index_from (S i) rest v
  end.

Definition index (classes : list string) (v : value) : result nat :=
  index_from 0 classes v.

(** The body of the loop of [encode_input] for one item. *)
Definition encode_item (enc : gmap string (list string)) (kv : string * value)
  : result (string * value) :=
  let '(key, value) := kv in
  match enc !! key with
  | Some classes =>
      do value <- (if contains classes value then Ok value
                   else do first <- getitem classes 0; Ok (VStr first));
      do encoded_value <- index classes value;
      Ok (key, VNum (inject_Z (Z.of_nat encoded_value)))
  | None => Ok (key, value)
  end.

(** [encode_input]: the encoded row, before it is wrapped in a one-row
    table. *)
Definition encode_input (input_dict : dict) (enc : gmap string (list string))
  : result dict :=
  for_each (encode_item enc) input_dict.

(** [pd.DataFrame(rows)] from a list of dictionaries: the columns are the
    keys in order of first appearance. *)
Definition frame_columns (rows : list dict) : list string :=
  remove_dups (concat (map keys rows)).

(** [frame[features]]: every name must be a column; a row without the key
    holds NaN there. *)
Definition feature_vector (feats : list string) (r : dict) : list value :=
  map (fun f => default VNaN (dict_get r f)) feats.

Definition select (feats : list string) (rows : list dict)
  : result (list (list value)) :=
  if forallb (fun f => bool_decide (f ∈ frame_columns rows)) feats
  then Ok (map (feature_vector feats) rows)
  else Raise KeyError.

(** [model.predict(frame)]: one class index per row, or the exception of
    the first row the classifier cannot read. *)
Definition predict (m : list value -> result Z) (X : list (list value))
  : result (list Z) :=
  for_each m X.

(** [predict_severity], after [load_model_and_metadata] has returned. *)
Definition predict_severity (art : Artifacts) (input_data : dict)
  : result string :=
  do encoded_row <- encode_input input_data (encoders art);
  do encoded_df <- select (features art) [encoded_row];
  do preds <- predict (model art) encoded_df;
  do pred <- getitem preds 0;
  do severity_labels <- of_option KeyError (encoders art !! "Severity");
  getitem severity_labels pred.

(** A pandas table: column names and rows of cells. *)
Record DataFrame := mkFrame {
  columns : list string;
  data : list (list value)
}.

(** [row.to_dict()] for every row of [df.iterrows()]. *)
Definition iterrows (df : DataFrame) : list dict :=
  map (fun cells => zip (columns df) cells) (data df).

(** The position of a column name. *)
Fixpoint position (name : string) (cols : list string) : option nat :=
  match cols with
  | [] => None
  | c :: rest =>
      if String.eqb c name then Some 0%nat else S <$> position name rest
  end.

(** [df[name]]: the cells of a column. *)
Definition column (df : DataFrame) (name : string) : option (list value) :=
  i ← position name (columns df);
  mapM (fun cells : list value => cells !! i) (data df).

(** [df[name] = cells]: the column is replaced when the table has it and
    added at the end otherwise; the list must have one cell per row. *)
Definition assign (df : DataFrame) (name : string) (cells : list value)
  : result DataFrame :=
  if negb (Nat.eqb (length cells) (length (data df))) then Raise ValueError
  else match position name (columns df) with
       | Some i =>
           Ok (mkFrame (columns df)
                 (zip_with (fun r v => <[i := v]> r) (data df) cells))
       | None =>
           Ok (mkFrame (columns df ++ [name])%list
                 (zip_with (fun r v => (r ++ [v])%list) (data df) cells))
       end.

(** The list [decoded_preds] that [predict_batch] computes. *)
Definition decoded_preds (art : Artifacts) (df : DataFrame)
  : result (list string) :=
  do encoded_rows <- for_each (fun r => encode_input r (encoders art))
                       (iterrows df);
  do encoded_df <- select (features art) encoded_rows;
  do preds <- predict (model art) encoded_df;
  do severity_labels <- of_option KeyError (encoders art !! "Severity");
  for_each (getitem severity_labels) preds.

(** [predict_batch]. *)
Definition predict_batch (art : Artifacts) (df : DataFrame)
  : result DataFrame :=
  do encoded_rows <- for_each (fun r => encode_input r (encoders art))
                       (iterrows df);
  do encoded_df <- select (features art) encoded_rows;
  do preds <- predict (model art) encoded_df;
  do severity_labels <- of_option KeyError (encoders art !! "Severity");
  do decoded_preds <- for_each (getitem severity_labels) preds;
  assign df "Predicted Severity" (map VStr decoded_preds).

End Predictor.

(** * Statements about the Cleaner *)

Module CleanerSpec.
Import Num Cleaner.

(** A row without a missing cell. *)
Definition no_missing (r : Incident) : Prop :=
  (forall c, is_Some (get_num c r)) /\ (forall c, is_Some (get_cat c r)).

(** No two rows of the table are equal in all columns. *)
Fixpoint unique_rows (df : list Incident) : bool :=
  match df with
  | [] => true
  | r :: rest => negb (existsb (row_eqb r) rest) && unique_rows rest
  end.

(** An already cleaned table. *)
Definition is_clean (df : list Incident) : Prop :=
  Forall no_missing df /\ unique_rows df = true.

(** Dropping duplicates, said with the rows of the table itself: a row
    stays exactly when no row before it, kept or not, equals it. [before]
    holds all the rows already passed. *)
Fixpoint keep_first (before : list Incident) (df : list Incident)
  : list Incident :=
  match df with
  | [] => []
  | r :: rest =>
      if existsb (row_eqb r) before
      then keep_first (before ++ [r]) rest
      else r :: keep_first (before ++ [r]) rest
  end.

(** Row [r'] is row [r] imputed against the table [dd]: a missing cell of a
    column of [cols] holds the median of the cells present in that column
    of [dd]; the other numeric columns are as they were; a missing
    categorical cell holds the literal. *)
Definition imputed (cols : list NumCol) (dd : list Incident)
    (r r' : Incident) : Prop :=
  (forall c, c ∈ cols ->
     get_num c r' = match get_num c r with
                    | Some v => Some v
                    | None => median (column_num c dd)
                    end)
  /\ (forall c, c ∉ cols -> get_num c r' = get_num c r)
  /\ (forall c, get_cat c r' = Some (default "Unknown" (get_cat c r))).

(** The whole imputation is one pass over the rows, every median being
    that of the table the imputation started from. *)
Definition impute_row (dd : list Incident) (r : Incident) : Incident :=
  fill_cat_cell Country "Unknown"
    (fill_cat_cell Defense_Mechanism "Unknown"
      (fill_cat_cell Vulnerability_Type "Unknown"
        (fill_cat_cell Attack_Source "Unknown"
          (fill_cat_cell Target_Industry "Unknown"
            (fill_cat_cell Attack_Type "Unknown"
              (fill_num_cell Resolution_Hours
                 (median (column_num Resolution_Hours dd))
                (fill_num_cell Affected_Users
                   (median (column_num Affected_Users dd))
                  (fill_num_cell Financial_Loss
                     (median (column_num Financial_Loss dd)) r)))))))).

(** The Cleaner drops duplicates first and then imputes the numeric
    columns [cols] and all categorical columns against the de-duplicated
    table. *)
Definition drops_then_imputes (cols : list NumCol) (raw : list Incident)
  : Prop :=
  drop_duplicates raw = keep_first [] raw
  /\ Forall2 (imputed cols (drop_duplicates raw))
       (drop_duplicates raw) (cleaner raw).

End CleanerSpec.

(** * Concrete tables used in examples *)

Module Samples.
Import Num Cleaner.

Definition india_phishing : Incident :=
  mkIncident (Some "India") (Some 2024) (Some "Phishing") (Some "Finance")
    (Some (125 # 10)) (Some 5200) (Some "Unknown") (Some "Weak Credentials")
    (Some "Firewall") (Some 48).

Definition uk_ransomware : Incident :=
  mkIncident (Some "UK") (Some 2020) (Some "Ransomware") (Some "Retail")
    (Some 80) (Some 900000) (Some "Hacker Group") (Some "Zero-day")
    (Some "VPN") (Some 70).

(** A row whose year is missing. *)
Definition china_no_year : Incident :=
  mkIncident (Some "China") None (Some "DDoS") (Some "IT")
    (Some 40) (Some 300) (Some "Insider") (Some "Social Engineering")
    (Some "Antivirus") (Some 10).

(** A row with a missing loss and a missing attack source. *)
Definition brazil_gaps : Incident :=
  mkIncident (Some "Brazil") (Some 2019) (Some "Malware") (Some "Banking")
    None (Some 100) None (Some "Unpatched Software")
    (Some "Firewall") (Some 5).

Definition clean_table : list Incident := [india_phishing; uk_ransomware].

(** Four incidents that differ in loss, users and resolution time only. *)
Definition incident_with (loss users hours : Q) : Incident :=
  mkIncident (Some "India") (Some 2024) (Some "Phishing") (Some "Finance")
    (Some loss) (Some users) (Some "Unknown") (Some "Weak Credentials")
    (Some "Firewall") (Some hours).

Definition users_table : list Incident :=
  [ incident_with 1 100 1; incident_with 1 200 1; incident_with 1 300 1;
    incident_with 1 400 1 ].


Definition crossing_table : list Incident :=
  [ incident_with 0 0 0; incident_with 0 0 100; incident_with 60 0 0;
    incident_with 100 100 100 ].

Definition table_missing_year : list Incident := [china_no_year; uk_ransomware].

End Samples.

(** * Statements about the Scorer *)

Module ScorerSpec.
Import Num Cleaner Scorer.

(** [needle] occurs in [hay]: the text is some prefix, the needle, some
    suffix. Characters are compared as they are (case-sensitive). *)
Definition occurs (needle hay : string) : Prop :=
  exists pre post, hay = String.append pre (String.append needle post).

(** The table of base values, read off the specification. *)
Definition table_base (attack : string) : Q :=
  if String.eqb attack "Ransomware" || String.eqb attack "Zero-day" then 1
  else if String.eqb attack "Data Breach" then 8 # 10
  else if String.eqb attack "SQL Injection"
          || String.eqb attack "Man-in-the-middle" then 7 # 10
  else if String.eqb attack "Malware" || String.eqb attack "DDoS" then 6 # 10
  else if String.eqb attack "Brute Force" then 5 # 10
  else if String.eqb attack "Phishing"
          || String.eqb attack "Social Engineering" then 4 # 10
  else 3 # 10.

Definition boosted (vuln : string) : Prop :=
  occurs "Zero" vuln \/ occurs "Misconfig" vuln.

(** The cells that steps 3-5 read are present. *)
Definition readable (r : Incident) : Prop :=
  is_Some (attack_type r) /\ is_Some (vulnerability_type r)
  /\ is_Some (financial_loss r) /\ is_Some (affected_users r)
  /\ is_Some (resolution_hours r).

(** [m] is the least (greatest) cell of a column. *)
Definition is_min (m : Q) (col : list Q) : Prop :=
  (exists x, x ∈ col /\ x == m) /\ forall x, x ∈ col -> m <= x.
Definition is_max (m : Q) (col : list Q) : Prop :=
  (exists x, x ∈ col /\ x == m) /\ forall x, x ∈ col -> x <= m.


Definition in_unit (x : Q) : Prop := 0 <= x /\ x <= 1.

End ScorerSpec.

Module ScorerClaims.
Import Num Cleaner Scorer ScorerSpec.

(** The risk score and the severity factor of a scored row are the ones
    the specification writes down. *)
Definition scored_as_specified (s : Scored) : Prop :=
  risk_score s == (4 # 10) * financial_loss_norm s
                  + (3 # 10) * affected_users_norm s
                  + (2 # 10) * resolution_hours_norm s
                  + (1 # 10) * attack_severity_factor s
  /\ exists attack vuln,
       attack_type (incident s) = Some attack
       /\ vulnerability_type (incident s) = Some vuln
       /\ (boosted vuln ->
           attack_severity_factor s == table_base attack + (2 # 10))
       /\ (~ boosted vuln -> attack_severity_factor s == table_base attack + 0).


(** Bounds on the factor and, for normalised features in [0, 1], on the
    risk score. *)
Definition bounded (s : Scored) : Prop :=
  (3 # 10 <= attack_severity_factor s /\ attack_severity_factor s <= 12 # 10)
  /\ (in_unit (financial_loss_norm s) -> in_unit (affected_users_norm s) ->
      in_unit (resolution_hours_norm s) ->
      3 # 100 <= risk_score s /\ risk_score s <= 102 # 100).

End ScorerClaims.

(** * Statements about the Clusterer *)

Module ClustererSpec.
Import Num Cleaner Scorer Clusterer.

(** Cluster ids in ascending order of a value attached to them. *)
Definition ordered_by (v : nat -> Q) (a b : nat) : Prop := v a <= v b.

(** What the model asks of the result of [KMeans] on the table [df]: four
    centres, one cluster id below 4 per row, and no cluster left empty. *)
Definition kmeans_ok (km : KMeansResult) (df : list Scored) : Prop :=
  length (cluster_centers_ km) = 4%nat
  /\ length (labels_ km) = length df
  /\ (forall k, k ∈ labels_ km -> (k < 4)%nat)
  /\ (forall k, (k < 4)%nat -> k ∈ labels_ km).












(** The clusterings that put every row in a cluster of its own, the centre
    being the row's feature vector: what k-means with as many clusters as
    distinct points arrives at. Which cluster gets which id is up to the
    algorithm: row [i] is in cluster [p !! i], for a permutation [p] of the
    ids. *)
Fixpoint row_of_cluster (k : nat) (p : list nat) : option nat :=
  match p with
  | [] => None
  | c :: rest => if Nat.eqb c k then Some 0%nat else S <$> row_of_cluster k rest
  end.

Definition singleton_clusters (p : list nat) (df : list Scored)
  : KMeansResult :=
  mkKMeans
    (map (fun k => default [] (i ← row_of_cluster k p;
                               kmeans_features <$> df !! i))
       (seq 0 (length p)))
    p.

Definition identity_labels : list nat := [0; 1; 2; 3]%nat.

Definition crossing_scored : list Scored :=
  default [] (score Samples.crossing_table).



End ClustererSpec.

(** * Statements about the Trainer *)

Module TrainerSpec.
Import Num Cleaner Py Trainer.

(** The edges that [add_severity_label] hands to [pd.cut]. *)
Definition bins (q1 q2 : Q) : list edge := [Fin (-1); Fin q1; Fin q2; Inf].

(** The labelled row, once the edges are accepted. *)
Definition label_row (q1 q2 : Q) (r : Incident) : Labelled :=
  mkLabelled r (cut_code (bins q1 q2) (affected_users r)).

(** The labelled table, when [add_severity_label] returns one. *)
Definition add_severity_label_result (df : list Incident)
  : option (list Labelled) :=
  match add_severity_label df with
  | Ok out => Some out
  | Raise _ => None
  end.

(** Every cell of Number of Affected Users is present and not negative. *)
Definition nonneg_users (df : list Incident) : Prop :=
  Forall (fun r => exists x, affected_users r = Some x /\ 0 <= x) df.




(** The two percentiles of the table are apart. *)
Definition percentiles_apart (df : list Incident) : Prop :=
  exists q1 q2, q33 df = Some q1 /\ q66 df = Some q2 /\ q1 < q2.

End TrainerSpec.

(** * Statements about the Predictor *)

Module PredictorSpec.
Import Num Py Persisted Predictor.

(** A numeric cell. *)
Definition is_number (v : value) : Prop := exists q, v = VNum q.

(** The classifier reads a vector of [n] numbers and answers with the
    index of an entry of the vocabulary [severity]. *)
Definition classifies (m : list value -> result Z) (n : nat)
    (severity : list string) : Prop :=
  forall x, length x = n -> Forall is_number x ->
    exists p, m x = Ok p /\ (0 <= p < Z.of_nat (length severity))%Z.

(** What the Predictor may rely on in artifacts written by the Trainer:
    no vocabulary is empty; there is a [Severity] vocabulary, made of
    labels of the Trainer; the classifier answers, on numbers, with the
    index of one of its entries. *)
Definition artifacts_ok (art : Artifacts) : Prop :=
  (forall k classes, encoders art !! k = Some classes -> classes <> [])
  /\ exists severity,
       encoders art !! "Severity" = Some severity
       /\ (forall l, l ∈ severity -> l ∈ Trainer.labels)
       /\ classifies (model art) (length (features art)) severity.

(** The record holds every field the classifier was trained on, and holds
    a number in every such field that has no vocabulary. *)
Definition has_features (art : Artifacts) (input : dict) : Prop :=
  forall f, f ∈ features art ->
    exists v, dict_get input f = Some v
              /\ (is_Some (encoders art !! f) \/ is_number v).

(** The label is an entry of the persisted [Severity] vocabulary. *)
Definition in_severity_vocabulary (art : Artifacts) (label : string) : Prop :=
  exists severity, encoders art !! "Severity" = Some severity
                   /\ label ∈ severity.

(** A table has distinct column names and one cell per column in every
    row. *)
Definition rectangular (df : DataFrame) : Prop :=
  NoDup (columns df)
  /\ Forall (fun cells => length cells = length (columns df)) (data df).

(** The batch agrees with the single prediction, row by row: the column
    [Predicted Severity] of the returned table holds, for every row, the
    label that [predict_severity] returns on that row's record. *)
Definition batch_agrees (art : Artifacts) (df : DataFrame) : Prop :=
  (forall out, predict_batch art df = Ok out ->
     exists labels,
       column out "Predicted Severity" = Some (map VStr labels)
       /\ Forall2 (fun r label => predict_severity art r = Ok label)
            (iterrows df) labels)
  /\ (data df <> [] ->
      Forall (fun r => exists label, predict_severity art r = Ok label)
        (iterrows df) ->
      exists out, predict_batch art df = Ok out).

(** The field [key] of the record holds a value outside its vocabulary. *)
Definition unseen (art : Artifacts) (input : dict) (i : nat) (key : string)
    (value : value) (classes : list string) : Prop :=
  input !! i = Some (key, value)
  /\ encoders art !! key = Some classes
  /\ contains classes value = false.

(** The unseen value is encoded as the first entry of the vocabulary is,
    to index 0, and the prediction is still a label. *)
Definition falls_back (art : Artifacts) (input : dict) (i : nat)
    (key : string) (classes : list string) : Prop :=
  exists first encoded label,
    classes !! 0%nat = Some first
    /\ encode_item (encoders art) (key, VStr first) = Ok (key, VNum 0)
    /\ encode_input input (encoders art) = Ok encoded
    /\ encoded !! i = Some (key, VNum 0)
    /\ predict_severity art input = Ok label
    /\ in_severity_vocabulary art label
    /\ label ∈ ["Low"; "Medium"; "High"].

(** The record of the specification's scenario. *)
Definition scenario : dict :=
  [ ("Country", VStr "India"); ("Year", VNum 2024);
    ("Attack Type", VStr "Phishing"); ("Target Industry", VStr "Finance");
    ("Financial Loss (in Million $)", VNum (125 # 10));
    ("Number of Affected Users", VNum 5200);
    ("Attack Source", VStr "Unknown");
    ("Security Vulnerability Type", VStr "Weak Credentials");
    ("Defense Mechanism Used", VStr "Firewall");
    ("Incident Resolution Time (in Hours)", VNum 48) ].

(** The same record with a country that no vocabulary holds. *)
Definition scenario_unseen : dict :=
  ("Country", VStr "Atlantis") :: tail scenario.

(** Artifacts as the Trainer writes them: sorted vocabularies, the feature
    list of [train_model], and a small classifier that reads the number of
    affected users (feature 5). *)
Definition sample_encoders : gmap string (list string) :=
  list_to_map
    [ ("Country", ["China"; "India"; "UK"]);
      ("Attack Type", ["DDoS"; "Phishing"; "Ransomware"]);
      ("Target Industry", ["Finance"; "IT"; "Retail"]);
      ("Attack Source", ["Hacker Group"; "Insider"; "Unknown"]);
      ("Security Vulnerability Type",
       ["Social Engineering"; "Weak Credentials"; "Zero-day"]);
      ("Defense Mechanism Used", ["Antivirus"; "Firewall"; "VPN"]);
      ("Severity", ["High"; "Low"; "Medium"]) ].

Definition sample_model (x : list value) : result Z :=
  match x !! 5%nat with
  | Some (VNum users) =>
      Ok (if Qle_bool users 1000 then 1
          else if Qle_bool users 100000 then 2 else 0)%Z
  | _ => Raise ValueError
  end.

Definition sample_artifacts : Artifacts :=
  mkArtifacts sample_model sample_encoders Trainer.features.

(** The scenario and a second record as a two-row table. *)
Definition sample_frame : DataFrame :=
  mkFrame (keys scenario)
    [ map snd scenario;
      [ VStr "UK"; VNum 2020; VStr "Ransomware"; VStr "Retail"; VNum 80;
        VNum 900000; VStr "Hacker Group"; VStr "Zero-day"; VStr "VPN";
        VNum 70 ] ].

End PredictorSpec.

(** * Further parts of the repository

    The summary tables of [models/eda_visualizations.py], the caller of the
    Predictor in [Dashboards/Dashboard_app.py], and the statements and
    sample data of the further properties proved at the end. *)

From Stdlib Require OrderedTypeEx.

(** * The summary tables ([eda_visualizations.py]) *)

Module Eda.
Import Num Cleaner Clusterer Trainer Persisted Predictor.

(** [Series.count], [Series.sum] and [Series.mean] of a numeric column:
    missing cells are skipped; the sum of no cell is 0, the mean of no cell
    is NaN. *)
Definition count (col : list (option Q)) : nat := length (dropna col).

Definition sum (col : list (option Q)) : Q := sum_Q (dropna col).

Definition mean (col : list (option Q)) : option Q :=
  match dropna col with
  | [] => None
  | cells => Some (Clusterer.mean cells)
  end.

(** [Series.count] of a categorical column. *)
Definition count_cat (col : list (option string)) : nat :=
  length (omap id col).

(** [df.groupby(c)] on a categorical column: one group per distinct
    present value, in ascending order of the values; rows whose key is
    missing belong to no group. *)
Definition group_rows (c : CatCol) (k : string) (df : list Incident)
  : list Incident :=
  filter (fun r => get_cat c r = Some k) df.

Definition groupby (c : CatCol) (df : list Incident)
  : list (value * list Incident) :=
  map (fun k => (VStr k, group_rows c k df)) (fit_classes (omap (get_cat c) df)).

(** [df.groupby("Year")]: one group per distinct present year, ascending. *)
Fixpoint insert_year (x : Q) (l : list Q) : list Q :=
  match l with
  | [] => [x]
  | y :: l' =>
      match Qcompare x y with
      | Lt => x :: y :: l'
      | Eq => y :: l'
      | Gt => y :: insert_year x l'
      end
  end.

Definition unique_years (df : list Incident) : list Q :=
  fold_right insert_year [] (dropna (column_num Year df)).

Definition year_rows (k : Q) (df : list Incident) : list Incident :=
  filter (fun r => cell_eqb (year r) (Some k) = true) df.

Definition groupby_year (df : list Incident) : list (value * list Incident) :=
  map (fun k => (VNum k, year_rows k df)) (unique_years df).

(** One named aggregation [name=(column, func)]. *)
Inductive aggregation :=
| Count (c : NumCol)
| CountCat (c : CatCol)
| Mean (c : NumCol)
| Sum (c : NumCol).

Definition aggregate (a : aggregation) (group : list Incident) : value :=
  match a with
  | Count c => VNum (inject_Z (Z.of_nat (count (column_num c group))))
  | CountCat c =>
      VNum (inject_Z (Z.of_nat (count_cat (map (get_cat c) group))))
  | Mean c =>
      match mean (column_num c group) with
      | Some m => VNum m
      | None => VNaN
      end
  | Sum c => VNum (sum (column_num c group))
  end.

(** [groups.agg(name=..., ...).reset_index()]: the key column followed by
    one column per named aggregation, one row per group. *)
Definition agg (key : string) (groups : list (value * list Incident))
    (named : list (string * aggregation)) : DataFrame :=
  mkFrame (key :: map fst named)
    (map (fun g => fst g :: map (fun na => aggregate (snd na) (snd g)) named)
       groups).

Definition generate_country_summary (df : list Incident) : DataFrame :=
  agg "Country" (groupby Country df)
    [ ("Total_Incidents", Count Year);
      ("Avg_Financial_Loss", Mean Financial_Loss);
      ("Total_Financial_Loss", Sum Financial_Loss);
      ("Avg_Affected_Users", Mean Affected_Users) ].

Definition generate_attack_type_summary (df : list Incident) : DataFrame :=
  agg "Attack Type" (groupby Attack_Type df)
    [ ("Total_Incidents", Count Year);
      ("Avg_Financial_Loss", Mean Financial_Loss);
      ("Total_Affected_Users", Sum Affected_Users) ].

Definition generate_industry_summary (df : list Incident) : DataFrame :=
  agg "Target Industry" (groupby Target_Industry df)
    [ ("Total_Incidents", Count Year);
      ("Total_Financial_Loss", Sum Financial_Loss);
      ("Avg_Resolution_Time", Mean Resolution_Hours) ].

Definition generate_yearly_trends (df : list Incident) : DataFrame :=
  agg "Year" (groupby_year df)
    [ ("Total_Incidents", CountCat Country);
      ("Total_Financial_Loss", Sum Financial_Loss);
      ("Total_Affected_Users", Sum Affected_Users) ].

Definition generate_attack_source_summary (df : list Incident) : DataFrame :=
  agg "Attack Source" (groupby Attack_Source df)
    [ ("Total_Incidents", Count Year);
      ("Total_Financial_Loss", Sum Financial_Loss) ].

Definition generate_vulnerability_summary (df : list Incident) : DataFrame :=
  agg "Security Vulnerability Type" (groupby Vulnerability_Type df)
    [ ("Total_Incidents", Count Year);
      ("Avg_Resolution_Time", Mean Resolution_Hours) ].

(** The sum of the numeric cells of a column of a summary table. *)
Definition total (cells : list value) : Q :=
  sum_Q (omap (fun v => match v with VNum q => Some q | _ => None end) cells).

(** The five summaries by a categorical column, with their key, and those
    among them that total the financial loss. *)
Definition categorical_summaries
  : list (CatCol * string * (list Incident -> DataFrame)) :=
  [ (Country, "Country", generate_country_summary);
    (Attack_Type, "Attack Type", generate_attack_type_summary);
    (Target_Industry, "Target Industry", generate_industry_summary);
    (Attack_Source, "Attack Source", generate_attack_source_summary);
    (Vulnerability_Type, "Security Vulnerability Type",
     generate_vulnerability_summary) ].

Definition loss_summaries : list (CatCol * (list Incident -> DataFrame)) :=
  [ (Country, generate_country_summary);
    (Target_Industry, generate_industry_summary);
    (Attack_Source, generate_attack_source_summary) ].

(** The rows of a table that have a cell in the column. *)
Definition with_key (c : CatCol) (df : list Incident) : list Incident :=
  filter (fun r => is_Some (get_cat c r)) df.

Definition with_year (df : list Incident) : list Incident :=
  filter (fun r => is_Some (year r)) df.

(** The number of rows of the table that hold the value in the column and
    have a year. *)
Definition dated_rows (c : CatCol) (k : string) (df : list Incident) : nat :=
  length (with_year (group_rows c k df)).

(** The cell of a numeric column as an amount: nothing for a missing
    cell. *)
Definition amount (c : NumCol) (r : Incident) : Q := default 0 (get_num c r).

End Eda.

(** * The caller of the Predictor ([Dashboard_app.py]) *)

Module Dashboard.
Import Num Cleaner Trainer Persisted Predictor.






End Dashboard.

(** * Statements used by the further properties *)

Module Views.
Import Num Cleaner Scorer Clusterer Py Persisted Trainer Predictor.
Import CleanerSpec ScorerSpec.

(** Every scored row, spelled out against the cells it was computed from. *)
Definition scored_from (sf su sr : MinMaxScaler) (fls aus rhs : list Q)
    (s : Scored) : Prop :=
  exists attack vuln fl au rh,
    attack_type (incident s) = Some attack
    /\ vulnerability_type (incident s) = Some vuln
    /\ financial_loss (incident s) = Some fl
    /\ affected_users (incident s) = Some au
    /\ resolution_hours (incident s) = Some rh
    /\ fl ∈ fls /\ au ∈ aus /\ rh ∈ rhs
    /\ attack_severity_factor s = get_severity_factor attack vuln
    /\ financial_loss_norm s = transform sf fl
    /\ affected_users_norm s = transform su au
    /\ resolution_hours_norm s = transform sr rh
    /\ risk_score s = risk (transform sf fl) (transform su au)
                        (transform sr rh) (get_severity_factor attack vuln).

(** The scored rows of a sample table. *)
Definition users_scored : list Scored :=
  default [] (score Samples.users_table).

Definition users_scored_row (i : nat) : Scored :=
  default (mkScored Samples.india_phishing 0 0 0 0 0) (users_scored !! i).

(** A clustering that gives every row a cluster of its own: what k-means
    returns on as many distinct points as clusters. *)
Definition one_cluster_per_row (feats : list (list Q)) : KMeansResult :=
  mkKMeans feats (seq 0 (length feats)).

Definition crossing_processed : list Clustered :=
  default [] (preprocess_data one_cluster_per_row Samples.crossing_table).

(** The labelled sample table. *)
Definition users_labelled : list Labelled :=
  match add_severity_label Samples.users_table with
  | Py.Ok out => out
  | Py.Raise _ => []
  end.

(** The order of [sorted] on Python strings, which [LabelEncoder] uses. *)
Definition before (a b : string) : Prop := String.compare a b = Lt.


(** The value occurs in a categorical column of the table. *)
Definition occurs_in (c : CatCol) (df : list Incident) (v : string) : Prop :=
  exists r, r ∈ df /\ get_cat c r = Some v.

(** A training table with four countries, and a classifier for it that
    reads the number of affected users. *)
Definition training_table : list Incident :=
  [ Samples.india_phishing; Samples.uk_ransomware;
    mkIncident (Some "China") (Some 2021) (Some "DDoS") (Some "IT")
      (Some 40) (Some 300) (Some "Insider") (Some "Social Engineering")
      (Some "Antivirus") (Some 10);
    mkIncident (Some "Brazil") (Some 2019) (Some "Malware") (Some "Banking")
      (Some 7) (Some 100) (Some "Unknown") (Some "Unpatched Software")
      (Some "Firewall") (Some 5) ].



(** What [encode_input] writes for one field: the value itself under a key
    without vocabulary; under a key with one, a position of the
    vocabulary, that of the value when the vocabulary holds it and 0 when
    it does not. *)
Definition encoded_field (enc : gmap string (list string))
    (kv kv' : string * value) : Prop :=
  fst kv' = fst kv
  /\ match enc !! fst kv with
     | None => snd kv' = snd kv
     | Some classes =>
         exists i, snd kv' = VNum (inject_Z (Z.of_nat i))
           /\ (i < length classes)%nat
           /\ (forall v, snd kv = VStr v -> v ∈ classes ->
                 classes !! i = Some v)
           /\ (contains classes (snd kv) = false -> i = 0%nat)
     end.

(** The scenario without its year, in another order and with one more
    field, and as a table without rows. *)
Definition scenario_without_year : dict :=
  ("Country", VStr "India") :: drop 2 PredictorSpec.scenario.

Definition scenario_reordered : dict :=
  (rev PredictorSpec.scenario ++ [("Analyst", VStr "on call")])%list.

Definition empty_frame : DataFrame :=
  mkFrame (keys PredictorSpec.scenario) [].

Definition sample_batch : DataFrame :=
  match predict_batch PredictorSpec.sample_artifacts
          PredictorSpec.sample_frame with
  | Py.Ok out => out
  | Py.Raise _ => empty_frame
  end.

(** The scenario as [encode_input] encodes it with the sample
    vocabularies. *)
Definition scenario_encoded : dict :=
  [ ("Country", VNum 1); ("Year", VNum 2024); ("Attack Type", VNum 1);
    ("Target Industry", VNum 0);
    ("Financial Loss (in Million $)", VNum (125 # 10));
    ("Number of Affected Users", VNum 5200); ("Attack Source", VNum 2);
    ("Security Vulnerability Type", VNum 1);
    ("Defense Mechanism Used", VNum 1);
    ("Incident Resolution Time (in Hours)", VNum 48) ].


End Views.

(** * Proofs: the Cleaner *)

Module CleanerProofs.
Import Num Cleaner CleanerSpec.

Lemma cell_eqb_refl a : cell_eqb a a = true.
Proof. destruct a; simpl; [apply Qeq_bool_refl | reflexivity]. Qed.

Lemma cell_eqb_sym a b : cell_eqb a b = cell_eqb b a.
Proof. destruct a, b; simpl; try reflexivity. apply Qeq_bool_comm. Qed.

Lemma cell_eqb_trans a b c :
  cell_eqb a b = true -> cell_eqb b c = true -> cell_eqb a c = true.
Proof.
  destruct a, b, c; simpl; try congruence.
  intros H1 H2. apply Qeq_bool_iff in H1, H2. apply Qeq_bool_iff.
  now rewrite H1.
Qed.

Lemma str_cell_eqb_refl a : str_cell_eqb a a = true.
Proof. destruct a; simpl; [apply String.eqb_refl | reflexivity]. Qed.

Lemma str_cell_eqb_sym a b : str_cell_eqb a b = str_cell_eqb b a.
Proof. destruct a, b; simpl; try reflexivity. apply String.eqb_sym. Qed.

Lemma str_cell_eqb_trans a b c :
  str_cell_eqb a b = true -> str_cell_eqb b c = true -> str_cell_eqb a c = true.
Proof.
  destruct a, b, c; simpl; try congruence.
  intros H1 H2. apply String.eqb_eq in H1, H2. apply String.eqb_eq. congruence.
Qed.

Lemma row_eqb_refl r : row_eqb r r = true.
Proof.
  unfold row_eqb. simpl.
  now rewrite !cell_eqb_refl, !str_cell_eqb_refl.
Qed.

Lemma row_eqb_sym a b : row_eqb a b = row_eqb b a.
Proof.
  unfold row_eqb. simpl.
  rewrite (cell_eqb_sym (year a)), (cell_eqb_sym (financial_loss a)),
    (cell_eqb_sym (affected_users a)), (cell_eqb_sym (resolution_hours a)),
    (str_cell_eqb_sym (country a)), (str_cell_eqb_sym (attack_type a)),
    (str_cell_eqb_sym (target_industry a)), (str_cell_eqb_sym (attack_source a)),
    (str_cell_eqb_sym (vulnerability_type a)),
    (str_cell_eqb_sym (defense_mechanism a)).
  reflexivity.
Qed.

Lemma row_eqb_trans a b c :
  row_eqb a b = true -> row_eqb b c = true -> row_eqb a c = true.
Proof.
  unfold row_eqb. simpl. rewrite !andb_true_iff.
  intros H1 H2.
  destruct_and!.
  repeat split;
    first [ eapply cell_eqb_trans; eassumption
          | eapply str_cell_eqb_trans; eassumption
          | reflexivity ].
Qed.

(** The rows kept so far stand for all the rows passed so far. *)
Lemma drop_duplicates_from_keep_first seen before df :
  (forall s, s ∈ seen -> s ∈ before) ->
  (forall b, b ∈ before -> exists s, s ∈ seen /\ row_eqb b s = true) ->
  drop_duplicates_from seen df = keep_first before df.
Proof.
  revert seen before. induction df as [|r rest IH]; intros seen before Hsub Hrep.
  - reflexivity.
  - simpl.
    assert (Hex : existsb (row_eqb r) seen = existsb (row_eqb r) before).
    { apply eq_true_iff_eq. rewrite !existsb_exists. split.
      - intros (s & Hs & E). exists s. split; [|exact E].
        apply list_elem_of_In, Hsub, list_elem_of_In, Hs.
      - intros (b & Hb & E).
        destruct (Hrep b) as (s & Hs & E'); [now apply list_elem_of_In|].
        exists s. split; [now apply list_elem_of_In|].
        eapply row_eqb_trans; eassumption. }
    rewrite <- Hex. destruct (existsb (row_eqb r) seen) eqn:Hr.
    + apply IH.
      * intros s Hs. apply elem_of_app. left. auto.
      * intros b Hb. apply elem_of_app in Hb as [Hb|Hb]; [auto|].
        apply list_elem_of_singleton in Hb as ->.
        apply existsb_exists in Hr as (s & Hs & E).
        exists s. split; [now apply list_elem_of_In | exact E].
    + f_equal. apply IH.
      * intros s Hs. apply elem_of_cons in Hs as [->|Hs].
        -- apply elem_of_app. right. now apply list_elem_of_singleton.
        -- apply elem_of_app. left. auto.
      * intros b Hb. apply elem_of_app in Hb as [Hb|Hb].
        -- destruct (Hrep b Hb) as (s & Hs & E). exists s.
           split; [now apply elem_of_cons; right | exact E].
        -- apply list_elem_of_singleton in Hb as ->. exists r.
           split; [now apply elem_of_cons; left | apply row_eqb_refl].
Qed.

Lemma drop_duplicates_keep_first raw :
  drop_duplicates raw = keep_first [] raw.
Proof.
  apply drop_duplicates_from_keep_first.
  - intros s Hs. exact Hs.
  - intros b Hb. inversion Hb.
Qed.

(** A table without equal rows loses nothing. *)
Lemma drop_duplicates_from_unique seen df :
  unique_rows df = true ->
  (forall r s, r ∈ df -> s ∈ seen -> row_eqb r s = false) ->
  drop_duplicates_from seen df = df.
Proof.
  revert seen. induction df as [|r rest IH]; intros seen Hu Hs; [reflexivity|].
  simpl in *. apply andb_true_iff in Hu as [Hr Hu].
  apply negb_true_iff in Hr.
  assert (Hn : existsb (row_eqb r) seen = false).
  { apply not_true_is_false. intros H.
    apply existsb_exists in H as (s & Hin & E).
    rewrite (Hs r s) in E; [discriminate| now left | now apply list_elem_of_In]. }
  rewrite Hn. f_equal. apply IH; [exact Hu|].
  intros r' s Hr' Hs'. apply elem_of_cons in Hs' as [->|Hs'].
  - rewrite row_eqb_sym. apply not_true_is_false. intros E.
    assert (existsb (row_eqb r) rest = true); [|congruence].
    apply existsb_exists. exists r'. split; [now apply list_elem_of_In | exact E].
  - apply Hs; [now right | exact Hs'].
Qed.

Lemma drop_duplicates_unique df :
  unique_rows df = true -> drop_duplicates df = df.
Proof.
  intros H. apply drop_duplicates_from_unique; [exact H|].
  intros r s _ Hs. inversion Hs.
Qed.

(** Reading a cell after a fill. *)
Lemma get_num_fill_num c c' v r :
  get_num c (fill_num_cell c' v r)
  = if decide (c = c')
    then match get_num c r with Some x => Some x | None => v end
    else get_num c r.
Proof.
  unfold fill_num_cell.
  destruct c, c'; simpl; try reflexivity;
    match goal with
    | |- context [match ?x with _ => _ end] => destruct x eqn:E
    end; simpl; congruence.
Qed.

Lemma get_cat_fill_num c c' v r :
  get_cat c (fill_num_cell c' v r) = get_cat c r.
Proof.
  unfold fill_num_cell. destruct (get_num c' r); [reflexivity|].
  destruct c, c'; reflexivity.
Qed.

Lemma get_num_fill_cat c c' v r :
  get_num c (fill_cat_cell c' v r) = get_num c r.
Proof.
  unfold fill_cat_cell. destruct (get_cat c' r); [reflexivity|].
  destruct c, c'; reflexivity.
Qed.

Lemma get_cat_fill_cat c c' v r :
  get_cat c (fill_cat_cell c' v r)
  = if decide (c = c') then Some (default v (get_cat c r)) else get_cat c r.
Proof.
  unfold fill_cat_cell.
  destruct c, c'; simpl; try reflexivity;
    match goal with
    | |- context [match ?x with _ => _ end] => destruct x eqn:E
    end; simpl; congruence.
Qed.

Lemma column_num_fillna_num c c' v df :
  c <> c' -> column_num c (fillna_num c' v df) = column_num c df.
Proof.
  intros Hne. unfold column_num, fillna_num. rewrite map_map.
  apply map_ext. intros r. rewrite get_num_fill_num.
  destruct (decide (c = c')); [contradiction | reflexivity].
Qed.

Lemma fill_num_cell_present c v r :
  is_Some (get_num c r) -> fill_num_cell c v r = r.
Proof. intros [x Hx]. unfold fill_num_cell. now rewrite Hx. Qed.

Lemma fill_cat_cell_present c v r :
  is_Some (get_cat c r) -> fill_cat_cell c v r = r.
Proof. intros [x Hx]. unfold fill_cat_cell. now rewrite Hx. Qed.

Lemma fillna_num_present c v df :
  Forall no_missing df -> fillna_num c v df = df.
Proof.
  intros H. unfold fillna_num. rewrite <- (map_id df) at 2.
  apply map_ext_Forall. eapply Forall_impl; [exact H|].
  intros r [Hn _]. apply fill_num_cell_present, Hn.
Qed.

Lemma fillna_cat_present c v df :
  Forall no_missing df -> fillna_cat c v df = df.
Proof.
  intros H. unfold fillna_cat. rewrite <- (map_id df) at 2.
  apply map_ext_Forall. eapply Forall_impl; [exact H|].
  intros r [_ Hc]. apply fill_cat_cell_present, Hc.
Qed.

Lemma impute_one_pass dd : impute dd = map (impute_row dd) dd.
Proof.
  unfold impute, median_filled_cols, unknown_filled_cols, fill_median,
    fill_unknown. cbn [fold_left].
  rewrite !column_num_fillna_num by discriminate.
  unfold fillna_cat, fillna_num. rewrite !map_map. reflexivity.
Qed.

Lemma impute_row_imputed dd r :
  imputed median_filled_cols dd r (impute_row dd r).
Proof.
  unfold imputed, impute_row, median_filled_cols. repeat split.
  - intros c Hc. rewrite !get_num_fill_cat, !get_num_fill_num.
    destruct c; simpl; try reflexivity.
    exfalso. repeat (apply elem_of_cons in Hc as [Hc|Hc]; [discriminate|]).
    inversion Hc.
  - intros c Hc. rewrite !get_num_fill_cat, !get_num_fill_num.
    destruct c; simpl; try reflexivity; exfalso; apply Hc;
      repeat first [ apply list_elem_of_here | apply list_elem_of_further ].
  - intros c. rewrite !get_cat_fill_cat, ?get_cat_fill_num.
    destruct c; simpl; rewrite ?get_cat_fill_num; reflexivity.
Qed.

(** C8, as amended: the Cleaner first drops the rows that equal an earlier
    row in all columns and then imputes against the de-duplicated table.
    A missing cell of Financial Loss, Number of Affected Users or Incident
    Resolution Time receives the median of the cells present in that column
    of the de-duplicated table (nothing if there is none); the Year column
    is left as it is; a missing cell of any of the six categorical columns
    receives the literal "Unknown". *)
Theorem cleaner_drops_then_imputes (raw : list Incident) :
  drops_then_imputes median_filled_cols raw.
Proof.
  split; [apply drop_duplicates_keep_first|].
  unfold cleaner. rewrite impute_one_pass.
  apply Forall2_fmap_r, Forall_Forall2_diag, Forall_forall.
  intros r _. apply impute_row_imputed.
Qed.

(** C9: cleaning a table that is already clean (no missing cell, no two
    rows equal in all columns) returns the table unchanged. *)
Theorem cleaner_idempotent_on_clean (df : list Incident) :
  is_clean df -> cleaner df = df.
Proof.
  intros [Hm Hu]. unfold cleaner. rewrite (drop_duplicates_unique df Hu).
  unfold impute, median_filled_cols, unknown_filled_cols, fill_median,
    fill_unknown. cbn [fold_left].
  repeat rewrite (fun c v => fillna_num_present c v df Hm).
  repeat rewrite (fun c v => fillna_cat_present c v df Hm).
  reflexivity.
Qed.

Lemma cleaner_idempotent_on_clean_witness :
  is_clean Samples.clean_table
  /\ cleaner Samples.clean_table = Samples.clean_table.
Proof.
  assert (H : is_clean Samples.clean_table).
  { split; [|reflexivity].
    repeat constructor; intros c; destruct c; eexists; reflexivity. }
  split; [exact H | exact (cleaner_idempotent_on_clean _ H)].
Defined.

(** The claim as first written lets the median rule range over every
    numeric column. The Year column is numeric and the code never fills
    it: a missing year survives the Cleaner. *)
Lemma cleaner_leaves_year_missing :
  ~ drops_then_imputes all_num_cols Samples.table_missing_year.
Proof.
  intros [_ H]. vm_compute in H.
  inversion H as [|r r' l l' [Hnum _] _]; subst.
  specialize (Hnum Year (list_elem_of_here _ _)).
  vm_compute in Hnum. discriminate Hnum.
Qed.

(** The medians are those of the de-duplicated table: here the loss column
    of the raw table [80; 80; 12.5; NaN] has median 80, that of the
    de-duplicated table [80; 12.5; NaN] has median 46.25, and the missing
    cell receives the latter. *)
Example cleaner_median_after_dedup :
  let raw := [Samples.uk_ransomware; Samples.uk_ransomware;
              Samples.india_phishing; Samples.brazil_gaps] in
  median (column_num Financial_Loss raw) = Some 80
  /\ (financial_loss <$> cleaner raw !! 2%nat) = Some (Some ((80 + (125 # 10)) / 2))
  /\ (attack_source <$> cleaner raw !! 2%nat) = Some (Some "Unknown").
Proof. vm_compute. repeat split. Qed.

(** The output of the Cleaner need not be clean in the sense above: the
    imputation can make two rows equal. *)
Example cleaner_can_create_duplicates :
  let filled := set_num Financial_Loss (Some 80)
                  (set_cat Attack_Source (Some "Unknown") Samples.brazil_gaps) in
  let raw := [Samples.brazil_gaps; filled] in
  cleaner raw = [filled; filled] /\ cleaner (cleaner raw) = [filled].
Proof. vm_compute. repeat split. Qed.

End CleanerProofs.

(** * Proofs: the Scorer *)

Module ScorerProofs.
Import Num Cleaner CleanerSpec Scorer ScorerSpec ScorerClaims.

(** ** Substring search *)

Lemma append_cons a s t :
  String.append (String a s) t = String a (String.append s t).
Proof. reflexivity. Qed.

Lemma append_nil t : String.append "" t = t.
Proof. reflexivity. Qed.

Lemma prefix_spec needle hay :
  String.prefix needle hay = true <-> exists post, hay = String.append needle post.
Proof.
  revert hay. induction needle as [|a needle IH]; intros hay.
  - split; [intros _; exists hay; reflexivity | intros _; now destruct hay].
  - destruct hay as [|b hay].
    + split; [discriminate | intros [post H]; discriminate H].
    + cbn [String.prefix]. destruct (Ascii.ascii_dec a b) as [->|Hne].
      * rewrite IH. split; intros [post H]; exists post.
        -- now rewrite append_cons, H.
        -- rewrite append_cons in H. now inversion H.
      * split; [discriminate|]. intros [post H].
        rewrite append_cons in H. congruence.
Qed.

Lemma str_in_spec needle hay : str_in needle hay = true <-> occurs needle hay.
Proof.
  induction hay as [|b hay IH]; cbn [str_in].
  - destruct (String.prefix needle "") eqn:Hp.
    + split; [intros _ | reflexivity].
      apply prefix_spec in Hp as [post H]. exists "", post. exact H.
    + split; [discriminate|]. intros (pre & post & H).
      destruct pre; [|discriminate H]. rewrite append_nil in H.
      assert (String.prefix needle "" = true); [|congruence].
      apply prefix_spec. eauto.
  - destruct (String.prefix needle (String b hay)) eqn:Hp.
    + split; [intros _ | reflexivity].
      apply prefix_spec in Hp as [post H]. exists "", post. exact H.
    + rewrite IH. split.
      * intros (pre & post & H). exists (String b pre), post.
        now rewrite append_cons, H.
      * intros (pre & post & H). destruct pre as [|c pre].
        -- rewrite append_nil in H.
           assert (String.prefix needle (String b hay) = true); [|congruence].
           apply prefix_spec. eauto.
        -- rewrite append_cons in H. inversion H; subst.
           exists pre, post. reflexivity.
Qed.

Lemma boosted_spec vuln :
  str_in "Zero" vuln || str_in "Misconfig" vuln = true <-> boosted vuln.
Proof.
  unfold boosted. rewrite orb_true_iff, !str_in_spec. reflexivity.
Qed.

(** ** The lookup table *)

Lemma severity_map_table attack :
  default (3 # 10) (severity_map !! attack) = table_base attack.
Proof.
  unfold table_base, severity_map.
  repeat match goal with
  | |- context [String.eqb attack ?s] =>
      destruct (String.eqb_spec attack s) as [->|?]; [vm_compute; reflexivity|]
  end.
  simpl. cbn [list_to_map foldr uncurry fst snd].
  rewrite !lookup_insert_ne by congruence.
  now rewrite lookup_empty.
Qed.

(** ** Minimum and maximum of a column *)

Lemma fold_left_Qmin_le xs x :
  fold_left Qmin xs x <= x /\ forall y, y ∈ xs -> fold_left Qmin xs x <= y.
Proof.
  revert x. induction xs as [|a xs IH]; intros x; simpl.
  - split; [apply Qle_refl | intros y Hy; inversion Hy].
  - destruct (IH (Qmin x a)) as [H1 H2]. split.
    + eapply Qle_trans; [exact H1 | apply Q.le_min_l].
    + intros y Hy. apply elem_of_cons in Hy as [->|Hy]; [|auto].
      eapply Qle_trans; [exact H1 | apply Q.le_min_r].
Qed.

Lemma fold_left_Qmax_ge xs x :
  x <= fold_left Qmax xs x /\ forall y, y ∈ xs -> y <= fold_left Qmax xs x.
Proof.
  revert x. induction xs as [|a xs IH]; intros x; simpl.
  - split; [apply Qle_refl | intros y Hy; inversion Hy].
  - destruct (IH (Qmax x a)) as [H1 H2]. split.
    + eapply Qle_trans; [apply Q.le_max_l | exact H1].
    + intros y Hy. apply elem_of_cons in Hy as [->|Hy]; [|auto].
      eapply Qle_trans; [apply Q.le_max_r | exact H1].
Qed.

Lemma fold_left_Qmin_attained xs x :
  exists z, z ∈ x :: xs /\ z == fold_left Qmin xs x.
Proof.
  revert x. induction xs as [|a xs IH]; intros x; simpl.
  - exists x. split; [left | reflexivity].
  - destruct (IH (Qmin x a)) as (z & Hz & E).
    apply elem_of_cons in Hz as [->|Hz].
    + destruct (Q.min_spec x a) as [[_ Hm]|[_ Hm]].
      * exists x. split; [left|]. now rewrite <- E, Hm.
      * exists a. split; [right; left|]. now rewrite <- E, Hm.
    + exists z. split; [right; right; exact Hz | exact E].
Qed.

Lemma fold_left_Qmax_attained xs x :
  exists z, z ∈ x :: xs /\ z == fold_left Qmax xs x.
Proof.
  revert x. induction xs as [|a xs IH]; intros x; simpl.
  - exists x. split; [left | reflexivity].
  - destruct (IH (Qmax x a)) as (z & Hz & E).
    apply elem_of_cons in Hz as [->|Hz].
    + destruct (Q.max_spec x a) as [[_ Hm]|[_ Hm]].
      * exists a. split; [right; left|]. now rewrite <- E, Hm.
      * exists x. split; [left|]. now rewrite <- E, Hm.
    + exists z. split; [right; right; exact Hz | exact E].
Qed.



(** ** The fitted scaler *)

Lemma fit_min_max col s :
  fit col = Some s ->
  is_min (data_min_ s) col /\ is_max (data_max_ s) col
  /\ scale_ s == 1 / handle_zeros_in_scale (data_max_ s - data_min_ s)
  /\ min_ s == 0 - data_min_ s * scale_ s.
Proof.
  destruct col as [|x xs]; [discriminate|]. intros [= <-]. simpl.
  split; [|split; [|split]].
  - split; [apply fold_left_Qmin_attained|].
    intros y Hy. destruct (fold_left_Qmin_le xs x) as [H1 H2].
    apply elem_of_cons in Hy as [->|Hy]; auto.
  - split; [apply fold_left_Qmax_attained|].
    intros y Hy. destruct (fold_left_Qmax_ge xs x) as [H1 H2].
    apply elem_of_cons in Hy as [->|Hy]; auto.
  - unfold Qminus. now rewrite Qplus_0_r.
  - reflexivity.
Qed.

Lemma fit_total col : col <> [] -> is_Some (fit col).
Proof. destruct col; [congruence | intros _; eexists; reflexivity]. Qed.




(** ** The scored table *)

Lemma score_row_inv sf su sr r s :
  score_row sf su sr r = Some s ->
  exists attack vuln fl au rh,
    attack_type r = Some attack /\ vulnerability_type r = Some vuln
    /\ financial_loss r = Some fl /\ affected_users r = Some au
    /\ resolution_hours r = Some rh
    /\ s = mkScored r (get_severity_factor attack vuln)
             (transform sf fl) (transform su au) (transform sr rh)
             (risk (transform sf fl) (transform su au) (transform sr rh)
                (get_severity_factor attack vuln)).
Proof.
  unfold score_row. intros H.
  destruct (attack_type r) as [attack|]; [|discriminate].
  destruct (vulnerability_type r) as [vuln|]; [|discriminate].
  destruct (financial_loss r) as [fl|]; [|discriminate].
  destruct (affected_users r) as [au|]; [|discriminate].
  destruct (resolution_hours r) as [rh|]; [|discriminate].
  simpl in H. injection H as <-.
  exists attack, vuln, fl, au, rh. repeat split; reflexivity.
Qed.

Lemma score_inv df out :
  score df = Some out ->
  exists fls aus rhs sf su sr,
    numeric_column Financial_Loss df = Some fls
    /\ numeric_column Affected_Users df = Some aus
    /\ numeric_column Resolution_Hours df = Some rhs
    /\ fit fls = Some sf /\ fit aus = Some su /\ fit rhs = Some sr
    /\ Forall2 (fun r s => score_row sf su sr r = Some s) df out.
Proof.
  unfold score. intros H.
  destruct (numeric_column Financial_Loss df) as [fls|] eqn:E1; [|discriminate].
  destruct (numeric_column Affected_Users df) as [aus|] eqn:E2; [|discriminate].
  destruct (numeric_column Resolution_Hours df) as [rhs|] eqn:E3; [|discriminate].
  simpl in H.
  destruct (fit fls) as [sf|] eqn:E4; [|discriminate].
  destruct (fit aus) as [su|] eqn:E5; [|discriminate].
  destruct (fit rhs) as [sr|] eqn:E6; [|discriminate].
  simpl in H. apply mapM_Some in H.
  exists fls, aus, rhs, sf, su, sr. repeat split; assumption.
Qed.

Lemma numeric_column_elem c df col r x :
  numeric_column c df = Some col -> r ∈ df -> get_num c r = Some x -> x ∈ col.
Proof.
  unfold numeric_column. intros H Hr Hx. apply mapM_Some in H.
  apply list_elem_of_lookup in Hr as [i Hi].
  destruct (Forall2_lookup_l _ _ _ _ _ H Hi) as (y & Hy & E).
  rewrite Hx in E. injection E as <-.
  apply list_elem_of_lookup. eauto.
Qed.

(** The scored table keeps the rows of the cleaned table, in order. *)
Lemma score_incident df out : score df = Some out -> map incident out = df.
Proof.
  intros H. destruct (score_inv df out H) as (? & ? & ? & sf & su & sr & H').
  destruct H' as (_ & _ & _ & _ & _ & _ & HF). clear H.
  induction HF as [|r s df out Hrs HF IH]; [reflexivity|].
  simpl. f_equal.
  - destruct (score_row_inv _ _ _ _ _ Hrs) as (?&?&?&?&?&_&_&_&_&_&->).
    reflexivity.
  - exact IH.
Qed.

(** Steps 3-5 succeed on a non-empty table whose cells are present. *)
Lemma score_total df :
  df <> [] -> Forall readable df -> is_Some (score df).
Proof.
  intros Hne Hr. unfold score.
  assert (Hcol : forall c, c ∈ median_filled_cols ->
            exists col, numeric_column c df = Some col /\ col <> []).
  { intros c Hc.
    assert (Hs : is_Some (numeric_column c df)).
    { unfold numeric_column. apply mapM_is_Some.
      eapply Forall_impl; [exact Hr|]. intros r (_ & _ & H1 & H2 & H3).
      repeat (apply elem_of_cons in Hc as [->|Hc];
              [first [exact H1 | exact H2 | exact H3]|]).
      inversion Hc. }
    destruct Hs as [col Hcol]. exists col. split; [exact Hcol|].
    intros ->. unfold numeric_column in Hcol. apply mapM_Some in Hcol.
    inversion Hcol; subst. contradiction. }
  destruct (Hcol Financial_Loss) as (fls & -> & Hf);
    [repeat first [apply list_elem_of_here | apply list_elem_of_further]|].
  destruct (Hcol Affected_Users) as (aus & -> & Ha);
    [repeat first [apply list_elem_of_here | apply list_elem_of_further]|].
  destruct (Hcol Resolution_Hours) as (rhs & -> & Hh);
    [repeat first [apply list_elem_of_here | apply list_elem_of_further]|].
  simpl.
  destruct (fit_total fls Hf) as [sf ->].
  destruct (fit_total aus Ha) as [su ->].
  destruct (fit_total rhs Hh) as [sr ->].
  simpl. apply mapM_is_Some.
  eapply Forall_impl; [exact Hr|].
  intros r ([a Ha'] & [v Hv] & [x1 H1] & [x2 H2] & [x3 H3]).
  unfold compose, score_row. rewrite Ha', Hv, H1, H2, H3. simpl.
  eexists; reflexivity.
Qed.


Lemma get_severity_factor_spec attack vuln :
  (boosted vuln -> get_severity_factor attack vuln = table_base attack + (2 # 10))
  /\ (~ boosted vuln -> get_severity_factor attack vuln = table_base attack + 0).
Proof.
  unfold get_severity_factor. cbv zeta. rewrite severity_map_table.
  destruct (str_in "Zero" vuln || str_in "Misconfig" vuln) eqn:E.
  - split; [reflexivity|]. intros Hn. apply boosted_spec in E. contradiction.
  - split; [|reflexivity]. intros Hb. apply boosted_spec in Hb. congruence.
Qed.

Lemma table_base_bounds attack :
  3 # 10 <= table_base attack /\ table_base attack <= 1.
Proof.
  unfold table_base.
  repeat match goal with
  | |- context [if ?b then _ else _] => destruct b
  end; split; lra.
Qed.

Lemma get_severity_factor_bounds attack vuln :
  3 # 10 <= get_severity_factor attack vuln
  /\ get_severity_factor attack vuln <= 12 # 10.
Proof.
  destruct (table_base_bounds attack) as [Hlo Hhi].
  unfold get_severity_factor. cbv zeta. rewrite severity_map_table.
  destruct (str_in "Zero" vuln || str_in "Misconfig" vuln); split; lra.
Qed.

(** C4: on every non-empty cleaned table steps 3-5 produce one scored row
    per record, whose risk score is
    0.4*financial_loss_norm + 0.3*affected_users_norm
    + 0.2*resolution_hours_norm + 0.1*attack_severity_factor, and whose
    attack_severity_factor is the table value of its attack type (0.3 for
    an attack type outside the table) plus 0.2 when the vulnerability text
    contains "Zero" or "Misconfig" as a substring and plus 0 when it
    contains neither. *)
Theorem risk_score_formula (df : list Incident) :
  df <> [] -> Forall readable df ->
  exists out, score df = Some out /\ map incident out = df
              /\ Forall scored_as_specified out.
Proof.
  intros Hne Hr. destruct (score_total df Hne Hr) as [out Hout].
  exists out. split; [exact Hout|]. split; [eapply score_incident, Hout|].
  destruct (score_inv df out Hout)
    as (fls & aus & rhs & sf & su & sr & _ & _ & _ & _ & _ & _ & HF).
  apply Forall_forall. intros s Hs.
  apply list_elem_of_lookup in Hs as [i Hi].
  destruct (Forall2_lookup_r _ _ _ _ _ HF Hi) as (r & _ & E).
  destruct (score_row_inv _ _ _ _ _ E)
    as (attack & vuln & fl & au & rh & Ha & Hv & _ & _ & _ & ->).
  split; [reflexivity|]. simpl. exists attack, vuln.
  destruct (get_severity_factor_spec attack vuln) as [Hb Hn].
  repeat split; try assumption.
  - intros H. now rewrite (Hb H).
  - intros H. now rewrite (Hn H).
Qed.


(** C10: every attack_severity_factor of the scored table lies in
    [0.3, 1.2], and a row whose three normalised features lie in [0, 1] has
    its risk score in [0.03, 1.02]. *)
Theorem risk_score_bounded (df : list Incident) :
  df <> [] -> Forall readable df ->
  exists out, score df = Some out /\ Forall bounded out.
Proof.
  intros Hne Hr. destruct (score_total df Hne Hr) as [out Hout].
  exists out. split; [exact Hout|].
  destruct (score_inv df out Hout)
    as (fls & aus & rhs & sf & su & sr & _ & _ & _ & _ & _ & _ & HF).
  apply Forall_forall. intros s Hs.
  apply list_elem_of_lookup in Hs as [i Hi].
  destruct (Forall2_lookup_r _ _ _ _ _ HF Hi) as (r & _ & E).
  destruct (score_row_inv _ _ _ _ _ E)
    as (attack & vuln & fl & au & rh & _ & _ & _ & _ & _ & ->).
  destruct (get_severity_factor_bounds attack vuln) as [Hlo Hhi].
  unfold bounded, in_unit, risk. simpl.
  split; [split; assumption|]. intros [? ?] [? ?] [? ?]. split; lra.
Qed.



(** Both bounds of the factor are met. *)
Example severity_factor_extremes :
  get_severity_factor "Zero-day" "Zero-day" == 12 # 10
  /\ get_severity_factor "Port Scan" "Weak Credentials" == 3 # 10.
Proof. split; vm_compute; reflexivity. Qed.

Lemma clean_table_readable : Forall readable Samples.clean_table.
Proof. repeat constructor; eexists; reflexivity. Qed.

Lemma clean_table_nonempty : Samples.clean_table <> [].
Proof. discriminate. Qed.



Lemma risk_score_formula_witness :
  (Samples.clean_table <> [] /\ Forall readable Samples.clean_table)
  /\ exists out, score Samples.clean_table = Some out
       /\ map incident out = Samples.clean_table
       /\ Forall scored_as_specified out.
Proof.
  split; [split; [exact clean_table_nonempty | exact clean_table_readable]|].
  exact (risk_score_formula Samples.clean_table clean_table_nonempty
           clean_table_readable).
Defined.


Lemma risk_score_bounded_witness :
  (Samples.clean_table <> [] /\ Forall readable Samples.clean_table)
  /\ exists out, score Samples.clean_table = Some out /\ Forall bounded out.
Proof.
  split; [split; [exact clean_table_nonempty | exact clean_table_readable]|].
  exact (risk_score_bounded Samples.clean_table clean_table_nonempty
           clean_table_readable).
Defined.

(** The table with constant loss and resolution time, scored: the two
    constant columns normalise to 0, the users column to 0, 1/3, 2/3, 1. *)
Example users_table_norms :
  (map (fun s => (Qred (financial_loss_norm s), Qred (affected_users_norm s),
                  Qred (resolution_hours_norm s)))
     <$> score Samples.users_table)
  = Some [(0, 0, 0); (0, 1 # 3, 0); (0, 2 # 3, 0); (0, 1, 0)].
Proof. vm_compute. reflexivity. Qed.


End ScorerProofs.

(** * Proofs: the Clusterer *)

Module ClustererProofs.
Import Num Cleaner Scorer Clusterer ClustererSpec.

(** ** [argsort] *)

Section Argsort.
Variable v : nat -> Q.

Lemma insert_index_perm i l : insert_index v i l ≡ₚ i :: l.
Proof.
  induction l as [|j l IH]; simpl; [reflexivity|].
  destruct (Qle_bool (v j) (v i)); [|reflexivity].
  rewrite IH. apply Permutation_swap.
Qed.

Lemma insert_index_sorted i l :
  StronglySorted (ordered_by v) l -> StronglySorted (ordered_by v) (insert_index v i l).
Proof.
  induction 1 as [|j l Hs IH Hj]; simpl.
  - repeat constructor.
  - destruct (Qle_bool (v j) (v i)) eqn:E.
    + constructor; [exact IH|].
      rewrite (insert_index_perm i l). constructor; [|exact Hj].
      apply Qle_bool_iff, E.
    + assert (Hlt : v i < v j).
      { apply Qnot_le_lt. intros Hle. apply Qle_bool_iff in Hle. congruence. }
      constructor; [constructor; assumption|].
      constructor; [apply Qlt_le_weak, Hlt|].
      eapply Forall_impl; [exact Hj|]. intros k Hk. unfold ordered_by in *. lra.
Qed.

Lemma fold_insert_index_perm l acc :
  fold_left (fun acc i => insert_index v i acc) l acc ≡ₚ l ++ acc.
Proof.
  revert acc. induction l as [|i l IH]; intros acc; simpl; [reflexivity|].
  rewrite IH, insert_index_perm. symmetry. apply Permutation_middle.
Qed.

Lemma fold_insert_index_sorted l acc :
  StronglySorted (ordered_by v) acc ->
  StronglySorted (ordered_by v) (fold_left (fun acc i => insert_index v i acc) l acc).
Proof.
  revert acc. induction l as [|i l IH]; intros acc Hs; simpl; [exact Hs|].
  apply IH, insert_index_sorted, Hs.
Qed.

End Argsort.

Lemma argsort_perm xs : argsort xs ≡ₚ seq 0 (length xs).
Proof.
  unfold argsort. rewrite fold_insert_index_perm. now rewrite app_nil_r.
Qed.

Lemma argsort_sorted xs :
  StronglySorted (ordered_by (fun i => default 0 (xs !! i))) (argsort xs).
Proof. unfold argsort. apply fold_insert_index_sorted. constructor. Qed.

(** ** The order of four clusters *)

Lemma cluster_order_four km :
  length (cluster_centers_ km) = 4%nat ->
  exists c0 c1 c2 c3,
    cluster_order km = [c0; c1; c2; c3]
    /\ [c0; c1; c2; c3] ≡ₚ [0; 1; 2; 3]%nat
    /\ exists a b c d,
         centers km !! c0 = Some a /\ centers km !! c1 = Some b
         /\ centers km !! c2 = Some c /\ centers km !! c3 = Some d
         /\ a <= b /\ b <= c /\ c <= d.
Proof.
  intros Hlen.
  assert (Hc : length (centers km) = 4%nat).
  { unfold centers. now rewrite length_map. }
  pose proof (argsort_perm (centers km)) as Hp.
  pose proof (argsort_sorted (centers km)) as Hs.
  rewrite Hc in Hp. fold (cluster_order km) in Hp, Hs.
  pose proof (Permutation_length Hp) as Hl.
  destruct (cluster_order km) as [|c0 [|c1 [|c2 [|c3 [|? ?]]]]];
    try discriminate Hl.
  exists c0, c1, c2, c3. split; [reflexivity|]. split; [exact Hp|].
  assert (Hin : forall k, k ∈ [c0; c1; c2; c3] ->
            exists x, centers km !! k = Some x).
  { intros k Hk. rewrite Hp in Hk.
    apply lookup_lt_is_Some. rewrite Hc.
    apply elem_of_seq in Hk. lia. }
  destruct (Hin c0) as [a Ha]; [set_solver|].
  destruct (Hin c1) as [b Hb]; [set_solver|].
  destruct (Hin c2) as [c Hc']; [set_solver|].
  destruct (Hin c3) as [d Hd]; [set_solver|].
  exists a, b, c, d. repeat split; try assumption.
  - inversion Hs as [|? ? _ H0]; subst.
    inversion H0 as [|? ? H01 _]; subst.
    unfold ordered_by in H01. now rewrite Ha, Hb in H01.
  - inversion Hs as [|? ? Hs1 _]; subst.
    inversion Hs1 as [|? ? _ H1]; subst.
    inversion H1 as [|? ? H12 _]; subst.
    unfold ordered_by in H12. now rewrite Hb, Hc' in H12.
  - inversion Hs as [|? ? Hs1 _]; subst.
    inversion Hs1 as [|? ? Hs2 _]; subst.
    inversion Hs2 as [|? ? _ H2]; subst.
    inversion H2 as [|? ? H23 _]; subst.
    unfold ordered_by in H23. now rewrite Hc', Hd in H23.
Qed.

(** The dictionary of lines 101-106 sends the cluster at position [i] of
    the order to the [i]-th tier name. *)
Lemma severity_labels_lookup km c0 c1 c2 c3 :
  cluster_order km = [c0; c1; c2; c3] -> NoDup [c0; c1; c2; c3] ->
  exists dict, severity_labels km = Some dict
    /\ forall i c, [c0; c1; c2; c3] !! i = Some c -> dict !! c = tier_names !! i.
Proof.
  intros Ho Hnd. unfold severity_labels. rewrite Ho. simpl.
  eexists. split; [reflexivity|].
  apply NoDup_cons in Hnd as [H0 Hnd]. apply NoDup_cons in Hnd as [H1 Hnd].
  apply NoDup_cons in Hnd as [H2 _].
  assert (c0 <> c1 /\ c0 <> c2 /\ c0 <> c3 /\ c1 <> c2 /\ c1 <> c3 /\ c2 <> c3)
    as (? & ? & ? & ? & ? & ?) by set_solver.
  intros i c Hi.
  destruct i as [|[|[|[|i]]]]; simpl in Hi; try discriminate;
    injection Hi as <-; simpl.
  - rewrite !lookup_insert_ne by congruence. apply lookup_insert_eq.
  - rewrite !lookup_insert_ne by congruence. apply lookup_insert_eq.
  - rewrite lookup_insert_ne by congruence. apply lookup_insert_eq.
  - apply lookup_insert_eq.
Qed.

Lemma tier_names_NoDup : NoDup tier_names.
Proof. refine (bool_decide_unpack _ _). vm_compute. reflexivity. Qed.


Ltac solve_label_range Hk :=
  repeat (apply elem_of_cons in Hk as [->|Hk]; [lia|]); inversion Hk.

Ltac solve_label_present k Hk :=
  destruct k as [|[|[|[|k]]]]; try lia;
  repeat first [apply list_elem_of_here | apply list_elem_of_further].

Ltac solve_kmeans_ok :=
  split; [reflexivity|]; split; [reflexivity|]; split;
  [ let k := fresh "k" in let Hk := fresh "Hk" in
    intros k Hk; simpl in Hk; solve_label_range Hk
  | let k := fresh "k" in let Hk := fresh "Hk" in
    intros k Hk; simpl; solve_label_present k Hk ].

Lemma crossing_kmeans_ok :
  kmeans_ok (singleton_clusters identity_labels crossing_scored)
    crossing_scored.
Proof. solve_kmeans_ok. Qed.



Example identity_labels_relabellings :
  length (permutations identity_labels) = 24%nat.
Proof. reflexivity. Qed.

(** The tiers and risk scores of that table, for the identity labelling. *)
Example crossing_tiers :
  (map (fun r => (Severity r, Qred (risk_score (scored r))))
     <$> label_clusters (singleton_clusters identity_labels crossing_scored)
           crossing_scored)
  = Some [ (Some "Low", 1 # 25); (Some "High", 6 # 25);
           (Some "Medium", 7 # 25); (Some "Critical", 47 # 50) ].
Proof. vm_compute. reflexivity. Qed.

End ClustererProofs.

(** * Proofs: the Trainer *)

Module TrainerProofs.
Import Num Cleaner Py Trainer TrainerSpec.

(** ** Sorting keeps the cells *)

Lemma insert_sorted_perm x l : insert_sorted x l ≡ₚ x :: l.
Proof.
  induction l as [|y l IH]; simpl; [reflexivity|].
  destruct (Qle_bool x y); [reflexivity|].
  rewrite IH. apply Permutation_swap.
Qed.

Lemma sort_values_perm l : sort_values l ≡ₚ l.
Proof.
  induction l as [|x l IH]; simpl; [reflexivity|].
  now rewrite insert_sorted_perm, IH.
Qed.

Lemma elem_of_sorted_column (col : list (option Q)) (x : Q) :
  x ∈ sort_values (dropna col) -> Some x ∈ col.
Proof.
  rewrite sort_values_perm. unfold dropna. rewrite list_elem_of_omap.
  intros (o & Ho & E). simpl in E. now subst o.
Qed.

(** ** Quantiles lie between cells *)

Lemma quantile_sorted_nonneg s q v :
  0 <= q -> (forall x, x ∈ s -> 0 <= x) ->
  quantile_sorted s q = Some v -> 0 <= v.
Proof.
  intros Hq Hs. unfold quantile_sorted. cbv zeta.
  set (pos := inject_Z (Z.of_nat (length s - 1)) * q).
  pose proof (Qfloor_le pos) as Hlo. pose proof (Qlt_floor pos) as Hhi.
  rewrite inject_Z_plus in Hhi. change (inject_Z 1) with 1 in Hhi.
  set (k := Qfloor pos) in *. clearbody k. clearbody pos.
  destruct (s !! Z.to_nat k) as [a|] eqn:Ea; [|discriminate].
  cbn [mbind option_bind].
  assert (Ha : 0 <= a) by (eapply Hs, list_elem_of_lookup_2, Ea).
  destruct (s !! S (Z.to_nat k)) as [b|] eqn:Eb.
  - intros [= <-].
    assert (Hb : 0 <= b) by (eapply Hs, list_elem_of_lookup_2, Eb).
    set (f := pos - inject_Z k) in *.
    assert (Hf0 : 0 <= f) by (unfold f; lra).
    assert (Hf1 : f <= 1) by (unfold f; lra).
    assert (E : a + (b - a) * f == a * (1 - f) + b * f) by ring.
    rewrite E.
    pose proof (Qmult_le_0_compat a (1 - f) Ha ltac:(lra)).
    pose proof (Qmult_le_0_compat b f Hb Hf0). lra.
  - intros [= <-]. exact Ha.
Qed.

Lemma quantile_nonneg (df : list Incident) q v :
  nonneg_users df -> 0 <= q ->
  quantile (column_num Affected_Users df) q = Some v -> 0 <= v.
Proof.
  intros Hdf Hq. unfold quantile. apply quantile_sorted_nonneg; [exact Hq|].
  intros x Hx. apply elem_of_sorted_column in Hx.
  unfold column_num in Hx. apply list_elem_of_fmap in Hx as (r & Er & Hr).
  destruct (proj1 (Forall_forall _ _) Hdf r Hr) as (y & Ey & Hy).
  simpl in Er. rewrite Ey in Er. now injection Er as ->.
Qed.

(** ** The bins of [pd.cut] *)

Lemma cut_code_bins q1 q2 x :
  -1 < x -> q1 < q2 ->
  cut_code (bins q1 q2) (Some x)
  = Some (if Qle_bool x q1 then 0 else if Qle_bool x q2 then 1 else 2)%nat.
Proof.
  intros Hx Hq. unfold cut_code, searchsorted_left, bins. simpl.
  assert (E0 : Qle_bool x (-1) = false).
  { apply not_true_is_false. intros H. apply Qle_bool_iff in H. lra. }
  destruct (Qle_bool x q1) eqn:E1.
  - assert (E2 : Qle_bool x q2 = true).
    { apply Qle_bool_iff in E1. apply Qle_bool_iff. lra. }
    rewrite !filter_cons, filter_nil. simpl. rewrite E0, E1, E2.
    reflexivity.
  - destruct (Qle_bool x q2) eqn:E2;
      rewrite !filter_cons, filter_nil; simpl; rewrite E0, E1, E2;
      reflexivity.
Qed.

Lemma cut_bins_ok col q1 q2 :
  -1 < q1 -> q1 < q2 ->
  cut col (bins q1 q2) = Ok (map (cut_code (bins q1 q2)) col).
Proof.
  intros H1 H2. unfold cut, bins. simpl.
  assert (E1 : Qle_bool (-1) q1 = true) by (apply Qle_bool_iff; lra).
  assert (E2 : Qle_bool q1 q2 = true) by (apply Qle_bool_iff; lra).
  assert (E3 : Qeq_bool (-1) q1 = false).
  { apply not_true_is_false. intros H. apply Qeq_bool_iff in H. lra. }
  assert (E4 : Qeq_bool (-1) q2 = false).
  { apply not_true_is_false. intros H. apply Qeq_bool_iff in H. lra. }
  assert (E5 : Qeq_bool q1 q2 = false).
  { apply not_true_is_false. intros H. apply Qeq_bool_iff in H. lra. }
  now rewrite E1, E2, E3, E4, E5.
Qed.

Lemma zip_with_column {A B C} (f : A -> B -> C) (g : A -> B) (l : list A) :
  zip_with f l (map g l) = map (fun a => f a (g a)) l.
Proof. induction l as [|a l IH]; simpl; [reflexivity | now rewrite IH]. Qed.

Lemma add_severity_label_ok df q1 q2 :
  q33 df = Some q1 -> q66 df = Some q2 -> -1 < q1 -> q1 < q2 ->
  add_severity_label df = Ok (map (label_row q1 q2) df).
Proof.
  intros E1 E2 H1 H2. unfold add_severity_label. rewrite E1, E2.
  fold (bins q1 q2). rewrite (cut_bins_ok _ q1 q2 H1 H2). simpl.
  unfold column_num. rewrite map_map, zip_with_column. reflexivity.
Qed.

Lemma label_row_code q1 q2 r x :
  affected_users r = Some x -> 0 <= x -> q1 < q2 ->
  severity_code (label_row q1 q2 r)
  = Some (if Qle_bool x q1 then 0 else if Qle_bool x q2 then 1 else 2)%nat.
Proof.
  intros Ex Hx Hq. unfold label_row. simpl. rewrite Ex.
  apply cut_code_bins; lra.
Qed.


Lemma users_table_nonneg : nonneg_users Samples.users_table.
Proof.
  repeat constructor; eexists; (split; [reflexivity|]); vm_compute;
    discriminate.
Qed.




(** ** The persisted [Severity] vocabulary *)

Lemma insert_class_elem x y l : x ∈ insert_class y l <-> x = y \/ x ∈ l.
Proof.
  induction l as [|z l IH]; simpl.
  - rewrite list_elem_of_singleton, elem_of_nil. tauto.
  - destruct (String.compare y z) eqn:E.
    + apply String.compare_eq_iff in E as ->.
      rewrite elem_of_cons. tauto.
    + rewrite !elem_of_cons. tauto.
    + rewrite !elem_of_cons, IH. tauto.
Qed.

Lemma fit_classes_elem x col : x ∈ fit_classes col <-> x ∈ col.
Proof.
  induction col as [|y col IH]; simpl; [reflexivity|].
  rewrite insert_class_elem, elem_of_cons, IH. reflexivity.
Qed.

(** The classes written for [Severity] are among Low, Medium and High. *)
Lemma severity_classes_labels (out : list Labelled) x :
  x ∈ severity_classes out -> x ∈ labels.
Proof.
  unfold severity_classes. rewrite fit_classes_elem, list_elem_of_omap.
  intros (r & _ & E). unfold severity_name in E.
  destruct (severity_code r) as [c|]; [|discriminate].
  simpl in E. eapply list_elem_of_lookup_2, E.
Qed.

Example users_table_vocabulary :
  (severity_classes <$> add_severity_label_result Samples.users_table)
  = Some ["High"; "Low"; "Medium"].
Proof. vm_compute. reflexivity. Qed.

(** ** The artifacts of a training run *)

Lemma insert_class_nonempty x l : insert_class x l <> [].
Proof.
  destruct l as [|y l]; simpl; [discriminate|].
  destruct (String.compare x y); discriminate.
Qed.

Lemma fit_classes_nonempty col : col <> [] -> fit_classes col <> [].
Proof.
  destruct col as [|x col]; [contradiction|]. intros _. simpl.
  apply insert_class_nonempty.
Qed.

Lemma encode_categoricals_severity df :
  encode_categoricals df !! "Severity" = Some (severity_classes df).
Proof.
  unfold encode_categoricals. simpl.
  rewrite !lookup_insert_ne by discriminate. apply lookup_insert_eq.
Qed.

Lemma omap_nonempty {A B} (f : A -> option B) (l : list A) :
  l <> [] -> Forall (fun x => is_Some (f x)) l -> omap f l <> [].
Proof.
  destruct l as [|x l]; [contradiction|]. intros _ H.
  inversion H as [|? ? [y Hy] _]; subst. simpl. rewrite Hy. discriminate.
Qed.

Lemma encode_categoricals_nonempty df :
  df <> [] ->
  Forall (fun r => (forall c, is_Some (get_cat c (row r)))
                   /\ is_Some (severity_name r)) df ->
  forall k classes, encode_categoricals df !! k = Some classes -> classes <> [].
Proof.
  intros Hne Hall k classes H. unfold encode_categoricals in H.
  apply elem_of_list_to_map_2 in H. simpl in H.
  repeat (apply elem_of_cons in H as [H|H];
    [ injection H as -> ->; unfold severity_classes;
      apply fit_classes_nonempty, omap_nonempty;
      [exact Hne|];
      eapply Forall_impl; [exact Hall|]; intros r [Hc Hs];
      first [ exact (Hc Country) | exact (Hc Attack_Type)
            | exact (Hc Target_Industry) | exact (Hc Attack_Source)
            | exact (Hc Vulnerability_Type) | exact (Hc Defense_Mechanism)
            | exact Hs ] |]).
  inversion H.
Qed.

(** Training on a cleaned table with apart percentiles writes artifacts
    whose vocabularies are not empty and whose [Severity] vocabulary is
    made of Low, Medium and High. *)
Lemma run_model_training_artifacts fit df :
  df <> [] -> nonneg_users df -> percentiles_apart df ->
  Forall (fun r => forall c, is_Some (get_cat c r)) df ->
  exists out,
    run_model_training fit df
    = Ok (Persisted.mkArtifacts (fit out) (encode_categoricals out) features)
    /\ (forall k classes,
          encode_categoricals out !! k = Some classes -> classes <> [])
    /\ encode_categoricals out !! "Severity" = Some (severity_classes out)
    /\ (forall l, l ∈ severity_classes out -> l ∈ labels).
Proof.
  intros Hne Hdf (q1 & q2 & E1 & E2 & Hq) Hcat.
  assert (H1 : 0 <= q1).
  { eapply (quantile_nonneg df (33 # 100)); [exact Hdf | lra | exact E1]. }
  assert (Hout : add_severity_label df = Ok (map (label_row q1 q2) df))
    by (apply add_severity_label_ok; try assumption; lra).
  exists (map (label_row q1 q2) df).
  unfold run_model_training. rewrite Hout. simpl.
  split; [reflexivity|]. split; [|split].
  - apply encode_categoricals_nonempty.
    + destruct df; [contradiction | discriminate].
    + apply Forall_fmap, Forall_forall. intros r Hr. simpl. split.
      * apply (proj1 (Forall_forall _ _) Hcat r Hr).
      * destruct (proj1 (Forall_forall _ _) Hdf r Hr) as (x & Ex & Hx).
        unfold severity_name.
        rewrite (label_row_code q1 q2 r x Ex Hx Hq).
        destruct (Qle_bool x q1); [eexists; reflexivity|].
        destruct (Qle_bool x q2); eexists; reflexivity.
  - apply encode_categoricals_severity.
  - apply severity_classes_labels.
Qed.

End TrainerProofs.

(** * Proofs: the Predictor *)

Module PredictorProofs.
Import Num Py Persisted Predictor PredictorSpec.

(** ** Loops and indexing *)

Lemma for_each_Ok {A B} (f : A -> result B) l ys :
  for_each f l = Ok ys <-> Forall2 (fun x y => f x = Ok y) l ys.
Proof.
  revert ys. induction l as [|x l IH]; intros ys; simpl.
  - split; [intros [= <-]; constructor | intros H; inversion H; reflexivity].
  - split.
    + destruct (f x) as [y|e] eqn:Ex; simpl; [|discriminate].
      destruct (for_each f l) as [ys'|e] eqn:El; simpl; [|discriminate].
      intros [= <-]. constructor; [exact Ex | now apply IH].
    + intros H. inversion H as [|? y ? ys' Hx Hl]; subst.
      rewrite Hx. simpl. apply IH in Hl. rewrite Hl. reflexivity.
Qed.

Lemma for_each_total {A B} (f : A -> result B) l :
  Forall (fun x => exists y, f x = Ok y) l -> exists ys, for_each f l = Ok ys.
Proof.
  induction 1 as [|x l [y Hy] _ [ys Hys]]; simpl.
  - eexists; reflexivity.
  - rewrite Hy, Hys. simpl. eexists; reflexivity.
Qed.

Lemma getitem_elem {A} (l : list A) i x : getitem l i = Ok x -> x ∈ l.
Proof.
  unfold getitem.
  destruct (0 <=? i)%Z; [|destruct (- Z.of_nat (length l) <=? i)%Z];
    try discriminate;
    match goal with
    | |- of_option _ ?o = _ -> _ => destruct o eqn:E; simpl; [|discriminate]
    end; intros [= <-]; eapply list_elem_of_lookup_2, E.
Qed.

Lemma getitem_in_range {A} (l : list A) i :
  (0 <= i < Z.of_nat (length l))%Z -> exists x, getitem l i = Ok x.
Proof.
  intros Hi. unfold getitem.
  destruct (0 <=? i)%Z eqn:E; [|apply Z.leb_gt in E; lia].
  destruct (lookup_lt_is_Some_2 l (Z.to_nat i)) as [x Hx]; [lia|].
  rewrite Hx. eexists; reflexivity.
Qed.

Lemma getitem_zero {A} (x : A) l : getitem (x :: l) 0 = Ok x.
Proof. reflexivity. Qed.

(** ** Encoding one item *)

Lemma index_from_found classes v i :
  contains classes v = true -> exists j, index_from i classes v = Ok j.
Proof.
  revert i. induction classes as [|c classes IH]; intros i; simpl;
    [discriminate|].
  destruct (value_eqb v (VStr c)); simpl; [eexists; reflexivity | apply IH].
Qed.

Lemma encode_item_key enc k v kv' :
  encode_item enc (k, v) = Ok kv' -> fst kv' = k.
Proof.
  unfold encode_item. destruct (enc !! k) as [classes|]; [|now intros [= <-]].
  destruct (contains classes v).
  - simpl. destruct (index classes v); simpl; [|discriminate].
    now intros [= <-].
  - destruct (getitem classes 0) as [first|]; simpl; [|discriminate].
    destruct (index classes (VStr first)); simpl; [|discriminate].
    now intros [= <-].
Qed.

(** An unseen value takes the first entry of the vocabulary, index 0. *)
Lemma encode_item_unseen enc k v first rest :
  enc !! k = Some (first :: rest) -> contains (first :: rest) v = false ->
  encode_item enc (k, v) = Ok (k, VNum 0).
Proof.
  intros Hk Hv. unfold encode_item. rewrite Hk, Hv. simpl.
  unfold index. simpl. now rewrite String.eqb_refl.
Qed.

Lemma encode_item_first enc k first rest :
  enc !! k = Some (first :: rest) ->
  encode_item enc (k, VStr first) = Ok (k, VNum 0).
Proof.
  intros Hk. unfold encode_item. rewrite Hk.
  unfold contains, index. simpl. rewrite String.eqb_refl. simpl.
  now rewrite String.eqb_refl.
Qed.

Lemma encode_item_total enc kv :
  (forall k classes, enc !! k = Some classes -> classes <> []) ->
  exists kv', encode_item enc kv = Ok kv'.
Proof.
  intros Hne. destruct kv as [k v]. unfold encode_item.
  destruct (enc !! k) as [classes|] eqn:Hk; [|eexists; reflexivity].
  destruct (contains classes v) eqn:Hv.
  - destruct (index_from_found classes v 0 Hv) as [j Hj].
    simpl. unfold index. rewrite Hj. simpl. eexists; reflexivity.
  - destruct classes as [|first rest]; [now destruct (Hne k [] Hk)|].
    simpl. unfold index. simpl. rewrite String.eqb_refl. simpl.
    eexists; reflexivity.
Qed.

Lemma encode_input_keys enc d e :
  encode_input d enc = Ok e -> keys e = keys d.
Proof.
  unfold encode_input. intros HF. apply for_each_Ok in HF. unfold keys.
  induction HF as [|[k v] kv' d e H _ IH]; simpl; [reflexivity|].
  f_equal; [|exact IH]. eapply encode_item_key, H.
Qed.

Lemma encode_input_total enc d :
  (forall k classes, enc !! k = Some classes -> classes <> []) ->
  exists e, encode_input d enc = Ok e.
Proof.
  intros Hne. apply for_each_total, Forall_forall.
  intros kv _. apply encode_item_total, Hne.
Qed.

(** ** Selecting the feature columns *)

Lemma select_Ok feats rows X :
  select feats rows = Ok X
  <-> (forall f, f ∈ feats -> f ∈ frame_columns rows)
      /\ X = map (feature_vector feats) rows.
Proof.
  unfold select.
  destruct (forallb (fun f => bool_decide (f ∈ frame_columns rows)) feats)
    eqn:E.
  - rewrite forallb_forall in E. split.
    + intros [= <-]. split; [|reflexivity].
      intros f Hf. apply list_elem_of_In in Hf.
      eapply bool_decide_eq_true_1, E, Hf.
    + intros [_ ->]. reflexivity.
  - split; [discriminate|]. intros [H _]. exfalso.
    assert (forallb (fun f => bool_decide (f ∈ frame_columns rows)) feats
            = true); [|congruence].
    apply forallb_forall. intros f Hf. apply bool_decide_eq_true_2, H.
    now apply list_elem_of_In.
Qed.

Lemma frame_columns_singleton e f : f ∈ frame_columns [e] <-> f ∈ keys e.
Proof.
  unfold frame_columns. simpl. now rewrite elem_of_remove_dups, app_nil_r.
Qed.

(** Rows with the same keys: the columns of the table are those keys. *)
Lemma frame_columns_uniform rows cols f :
  rows <> [] -> Forall (fun e => keys e = cols) rows ->
  (f ∈ frame_columns rows <-> f ∈ cols).
Proof.
  intros Hne Hk. unfold frame_columns. rewrite elem_of_remove_dups. split.
  - intros Hf. apply list_elem_of_In, in_concat in Hf as (ks & Hks & Hf).
    apply in_map_iff in Hks as (e & <- & He).
    rewrite Forall_forall in Hk. rewrite <- (Hk e); [|now apply list_elem_of_In].
    now apply list_elem_of_In.
  - intros Hf. destruct rows as [|e rows]; [contradiction|].
    inversion Hk as [|? ? He _]; subst. simpl.
    apply elem_of_app. left. exact Hf.
Qed.

(** ** The two entry points, spelled out *)

Lemma predict_severity_Ok art d label :
  predict_severity art d = Ok label
  <-> exists e severity p,
        encode_input d (encoders art) = Ok e
        /\ (forall f, f ∈ features art -> f ∈ keys e)
        /\ model art (feature_vector (features art) e) = Ok p
        /\ encoders art !! "Severity" = Some severity
        /\ getitem severity p = Ok label.
Proof.
  unfold predict_severity, predict. split.
  - destruct (encode_input d (encoders art)) as [e|] eqn:Ee; [|discriminate].
    simpl. destruct (select (features art) [e]) as [X|] eqn:Es; [|discriminate].
    apply select_Ok in Es as [Hf ->]. simpl.
    destruct (model art (feature_vector (features art) e)) as [p|] eqn:Ep;
      simpl; [|discriminate].
    destruct (encoders art !! "Severity") as [severity|]; [|discriminate].
    simpl. intros H. exists e, severity, p. repeat split; try assumption.
    intros f Hf'. apply frame_columns_singleton, Hf, Hf'.
  - intros (e & severity & p & -> & Hf & Hp & -> & H). simpl.
    assert (Es : select (features art) [e]
                 = Ok (map (feature_vector (features art)) [e])).
    { apply select_Ok. split; [|reflexivity].
      intros f Hf'. apply frame_columns_singleton, Hf, Hf'. }
    rewrite Es. simpl. rewrite Hp. simpl. exact H.
Qed.

(** The labels of the batch: [decoded_preds] of [predict_batch]. *)
Lemma decoded_preds_Ok art df out :
  decoded_preds art df = Ok out
  <-> exists es severity ps,
        Forall2 (fun d e => encode_input d (encoders art) = Ok e)
          (iterrows df) es
        /\ (forall f, f ∈ features art -> f ∈ frame_columns es)
        /\ Forall2 (fun e p =>
              model art (feature_vector (features art) e) = Ok p) es ps
        /\ encoders art !! "Severity" = Some severity
        /\ Forall2 (fun p label => getitem severity p = Ok label) ps out.
Proof.
  unfold decoded_preds, predict. split.
  - destruct (for_each _ (iterrows df)) as [es|] eqn:Ee; [|discriminate].
    apply for_each_Ok in Ee. simpl.
    destruct (select (features art) es) as [X|] eqn:Es; [|discriminate].
    apply select_Ok in Es as [Hf ->]. simpl.
    destruct (for_each (model art) _) as [ps|] eqn:Ep; [|discriminate].
    apply for_each_Ok, Forall2_fmap_l in Ep. simpl.
    destruct (encoders art !! "Severity") as [severity|]; [|discriminate].
    simpl. intros H. apply for_each_Ok in H.
    exists es, severity, ps. repeat split; assumption.
  - intros (es & severity & ps & Hes & Hf & Hps & -> & H).
    apply for_each_Ok in Hes. rewrite Hes. simpl.
    assert (Es : select (features art) es
                 = Ok (map (feature_vector (features art)) es)).
    { apply select_Ok. split; [exact Hf | reflexivity]. }
    rewrite Es. simpl.
    assert (Ep : for_each (model art) (map (feature_vector (features art)) es)
                 = Ok ps) by (apply for_each_Ok, Forall2_fmap_l, Hps).
    rewrite Ep. simpl. apply for_each_Ok, H.
Qed.

Lemma predict_batch_decoded art df :
  predict_batch art df
  = bind (decoded_preds art df)
      (fun labels => assign df "Predicted Severity" (map VStr labels)).
Proof.
  unfold predict_batch, decoded_preds.
  destruct (for_each _ (iterrows df)) as [es|]; [|reflexivity]. simpl.
  destruct (select (features art) es) as [X|]; [|reflexivity]. simpl.
  destruct (predict (model art) X) as [ps|]; [|reflexivity]. simpl.
  destruct (encoders art !! "Severity") as [severity|]; reflexivity.
Qed.

(** ** Writing and reading a column *)

Lemma position_lt name cols i : position name cols = Some i -> (i < length cols)%nat.
Proof.
  revert i. induction cols as [|c cols IH]; intros i; simpl; [discriminate|].
  destruct (String.eqb c name); [intros [= <-]; lia|].
  destruct (position name cols) as [j|]; [|discriminate].
  intros [= <-]. specialize (IH j eq_refl). lia.
Qed.

Lemma position_app_new name cols :
  position name cols = None ->
  position name (cols ++ [name])%list = Some (length cols).
Proof.
  induction cols as [|c cols IH]; simpl.
  - intros _. now rewrite String.eqb_refl.
  - destruct (String.eqb c name); [discriminate|].
    destruct (position name cols); [discriminate|].
    intros _. now rewrite IH.
Qed.

Lemma column_assign df name cells out :
  Forall (fun r : list value => length r = length (columns df)) (data df) ->
  assign df name cells = Ok out -> column out name = Some cells.
Proof.
  intros Hrect. unfold assign.
  destruct (Nat.eqb (length cells) (length (data df))) eqn:El; [|discriminate].
  apply Nat.eqb_eq in El. simpl.
  destruct (position name (columns df)) as [i|] eqn:Ep; intros [= <-];
    unfold column; simpl.
  - rewrite Ep. simpl. apply mapM_Some.
    pose proof (position_lt _ _ _ Ep) as Hi. clear Ep.
    revert cells El. induction Hrect as [|r rows Hr _ IH]; intros [|v cells] El;
      simpl in *; try discriminate; constructor.
    + apply list_lookup_insert_eq. lia.
    + apply IH. lia.
  - rewrite (position_app_new _ _ Ep). simpl. apply mapM_Some.
    clear Ep. revert cells El.
    induction Hrect as [|r rows Hr _ IH]; intros [|v cells] El;
      simpl in *; try discriminate; constructor.
    + rewrite lookup_app_r by lia. rewrite Hr, Nat.sub_diag. reflexivity.
    + apply IH. lia.
Qed.

Lemma assign_total df name cells :
  length cells = length (data df) -> exists out, assign df name cells = Ok out.
Proof.
  intros El. unfold assign. rewrite (proj2 (Nat.eqb_eq _ _) El). simpl.
  destruct (position name (columns df)); eexists; reflexivity.
Qed.

(** ** Batch and single prediction *)

Lemma iterrows_keys df :
  rectangular df -> Forall (fun d => keys d = columns df) (iterrows df).
Proof.
  intros [_ Hlen]. unfold iterrows. apply Forall_fmap.
  eapply Forall_impl; [exact Hlen|]. intros cells Hc. simpl.
  simpl in Hc. unfold keys. apply fst_zip. lia.
Qed.

Lemma Forall2_with_left {A B} (P : A -> Prop) (R : A -> B -> Prop) l k :
  Forall P l -> Forall2 R l k -> Forall2 (fun x y => P x /\ R x y) l k.
Proof.
  intros HP HR. induction HR as [|x y l k Hxy _ IH]; [constructor|].
  inversion HP; subst. constructor; [split; assumption | apply IH; assumption].
Qed.

Lemma Forall_choice {A B} (R : A -> B -> Prop) l :
  Forall (fun x => exists y, R x y) l -> exists k, Forall2 R l k.
Proof.
  induction 1 as [|x l [y Hy] _ [k Hk]].
  - exists []. constructor.
  - exists (y :: k). constructor; assumption.
Qed.

(** C6: on a table with distinct column names and full rows, whenever
    [predict_batch] returns, the column Predicted Severity of the table it
    returns holds, for every row, the label that [predict_severity] returns
    on that row's record alone, which is a function of that row and the
    artifacts only; and when the table has a row and [predict_severity]
    returns on each of its rows, [predict_batch] returns. *)
Theorem predict_batch_rowwise (art : Artifacts) (df : DataFrame) :
  rectangular df -> batch_agrees art df.
Proof.
  intros Hrect. pose proof (iterrows_keys df Hrect) as Hkeys.
  unfold batch_agrees. rewrite predict_batch_decoded. split.
  - intros out Hout.
    destruct (decoded_preds art df) as [labels|] eqn:Hlabels; [|discriminate].
    simpl in Hout. exists labels.
    split; [eapply column_assign; [apply Hrect | exact Hout]|].
    clear Hout out.
    apply decoded_preds_Ok in Hlabels
      as (es & severity & ps & Hes & Hf & Hps & Hsev & Hl).
    pose proof (Forall2_with_left _ _ _ _ Hkeys Hes) as Hes'.
    assert (Hek : Forall (fun e => keys e = columns df) es).
    { clear -Hes'. induction Hes' as [|d e l k [Hd He] _ IH]; constructor.
      - rewrite <- Hd. eapply encode_input_keys, He.
      - exact IH. }
    assert (Hcols : es <> [] -> forall f, f ∈ features art -> f ∈ columns df).
    { intros Hne f Hf'.
      apply (frame_columns_uniform es (columns df) f Hne Hek), Hf, Hf'. }
    clear Hf Hes. revert ps labels Hps Hl.
    induction Hes' as [|d e l k [Hd He] _ IH]; intros ps labels Hps Hl.
    + inversion Hps; subst. inversion Hl; subst. constructor.
    + inversion Hps as [|? p ? ps' Hp Hps']; subst.
      inversion Hl as [|? label ? out' Hlab Hl']; subst.
      inversion Hek as [|? ? Hke Hek']; subst.
      inversion Hkeys as [|? ? _ Hkeys']; subst.
      constructor.
      * apply predict_severity_Ok. exists e, severity, p.
        repeat split; try assumption.
        intros f Hf'. rewrite Hke. apply Hcols; [discriminate | exact Hf'].
      * apply (IH Hkeys' Hek') with (ps := ps'); try assumption.
        intros Hne f Hf'. apply Hcols; [discriminate | exact Hf'].
  - intros Hne Hall.
    assert (Hrows : iterrows df <> []).
    { unfold iterrows. destruct (data df); [contradiction | discriminate]. }
    assert (Hsev : exists severity, encoders art !! "Severity" = Some severity).
    { destruct (iterrows df) as [|d rows]; [contradiction|].
      inversion Hall as [|? ? [label Hd] _]; subst.
      apply predict_severity_Ok in Hd as (_ & severity & _ & _ & _ & _ & Hs & _).
      eauto. }
    destruct Hsev as [severity Hsev].
    assert (Htriples : Forall (fun d => exists t : dict * Z * string,
              encode_input d (encoders art) = Ok (fst (fst t))
              /\ (forall f, f ∈ features art -> f ∈ keys (fst (fst t)))
              /\ model art (feature_vector (features art) (fst (fst t)))
                 = Ok (snd (fst t))
              /\ getitem severity (snd (fst t)) = Ok (snd t)) (iterrows df)).
    { eapply Forall_impl; [exact Hall|]. intros d [label Hd].
      apply predict_severity_Ok in Hd
        as (e & severity' & p & He & Hf & Hp & Hs & Hl).
      rewrite Hsev in Hs. injection Hs as <-.
      exists (e, p, label). repeat split; assumption. }
    apply Forall_choice in Htriples as [ts Hts].
    assert (Hd : decoded_preds art df = Ok (map snd ts)).
    { apply decoded_preds_Ok.
      exists (map (fun t => fst (fst t)) ts), severity,
        (map (fun t => snd (fst t)) ts).
      repeat split.
      + apply Forall2_fmap_r. eapply Forall2_impl; [exact Hts|].
        intros d t (He & _). exact He.
      + intros f Hf.
        destruct ts as [|t ts].
        { inversion Hts; subst. congruence. }
        inversion Hts as [|? ? ? ? (_ & Ht & _) _]; subst.
        unfold frame_columns. rewrite elem_of_remove_dups. simpl.
        apply elem_of_app. left. apply Ht, Hf.
      + apply Forall2_fmap_l, Forall2_fmap_r.
        clear -Hts. induction Hts as [|d t l k (_ & _ & Hp & _) _ IH];
          constructor; assumption.
      + exact Hsev.
      + apply Forall2_fmap_l, Forall2_fmap_r.
        clear -Hts. induction Hts as [|d t l k (_ & _ & _ & Hl) _ IH];
          constructor; assumption. }
    rewrite Hd. simpl. apply assign_total.
    rewrite !length_map. apply Forall2_length in Hts. rewrite <- Hts.
    unfold iterrows. now rewrite length_map.
Qed.

Lemma sample_frame_rectangular : rectangular sample_frame.
Proof.
  split.
  - refine (bool_decide_unpack _ _). vm_compute. reflexivity.
  - repeat constructor.
Qed.

Example sample_frame_predictions :
  bind (predict_batch sample_artifacts sample_frame)
    (fun out => Ok (column out "Predicted Severity"))
  = Ok (Some [VStr "Medium"; VStr "High"])
  /\ map (predict_severity sample_artifacts) (iterrows sample_frame)
     = [Ok "Medium"; Ok "High"].
Proof. split; vm_compute; reflexivity. Qed.

Lemma predict_batch_rowwise_witness :
  rectangular sample_frame /\ batch_agrees sample_artifacts sample_frame.
Proof.
  split; [exact sample_frame_rectangular|].
  exact (predict_batch_rowwise sample_artifacts sample_frame
           sample_frame_rectangular).
Defined.

(** An empty table has no columns once it is rebuilt from its encoded
    rows, so selecting the features fails. *)
Example predict_batch_empty_table :
  predict_batch sample_artifacts (mkFrame (keys scenario) []) = Raise KeyError.
Proof. vm_compute. reflexivity. Qed.

(** ** Predictions are labels *)

(** Reading a field of the encoded row. *)
Lemma encode_input_get enc d e f v :
  encode_input d enc = Ok e -> dict_get d f = Some v ->
  exists v', dict_get e f = Some v' /\ encode_item enc (f, v) = Ok (f, v').
Proof.
  unfold encode_input. intros HF. apply for_each_Ok in HF.
  induction HF as [|[k v0] [k' v'] d e H _ IH]; [discriminate|].
  pose proof (encode_item_key _ _ _ _ H) as Ek. simpl in Ek. subst k'.
  unfold dict_get in *. cbn [List.find fst].
  destruct (String.eqb k f) eqn:Ekf.
  - apply String.eqb_eq in Ekf as ->. cbn [fmap option_fmap option_map snd].
    intros [= ->]. exists v'. split; [reflexivity | exact H].
  - exact IH.
Qed.

Lemma encode_item_number enc f v v' :
  encode_item enc (f, v) = Ok (f, v') ->
  is_Some (enc !! f) \/ is_number v -> is_number v'.
Proof.
  unfold encode_item. destruct (enc !! f) as [classes|] eqn:Ef.
  - intros H _.
    destruct (contains classes v).
    + simpl in H. destruct (index classes v); simpl in H; [|discriminate].
      injection H as <-. eexists; reflexivity.
    + destruct (getitem classes 0) as [first|]; simpl in H; [|discriminate].
      destruct (index classes (VStr first)); simpl in H; [|discriminate].
      injection H as <-. eexists; reflexivity.
  - intros [= <-] [[? ?]|Hn]; [discriminate | exact Hn].
Qed.

Lemma has_features_keys art input f :
  has_features art input -> f ∈ features art -> f ∈ keys input.
Proof.
  intros H Hf. destruct (H f Hf) as (v & Hv & _).
  unfold dict_get in Hv.
  destruct (List.find _ input) as [[k v0]|] eqn:E; [|discriminate].
  apply find_some in E as [Hin Ek]. simpl in Ek.
  apply String.eqb_eq in Ek as <-.
  unfold keys. apply list_elem_of_fmap. exists (k, v0).
  split; [reflexivity | now apply list_elem_of_In].
Qed.

Lemma feature_vector_numbers art input e :
  has_features art input -> encode_input input (encoders art) = Ok e ->
  Forall is_number (feature_vector (features art) e).
Proof.
  intros Hfeat He. unfold feature_vector. apply Forall_fmap, Forall_forall.
  intros f Hf. destruct (Hfeat f Hf) as (v & Hv & Hnum).
  destruct (encode_input_get _ _ _ _ _ He Hv) as (v' & Hv' & Hitem).
  simpl. rewrite Hv'. simpl. eapply encode_item_number; eassumption.
Qed.

(** C1: with artifacts as the Trainer writes them, [predict_severity]
    returns, on every record that holds the ten fields the classifier was
    trained on (numbers in the four numeric ones), a label of the persisted
    Severity vocabulary, which is one of Low, Medium and High. *)
Theorem predict_severity_in_vocabulary (art : Artifacts) (input : dict) :
  artifacts_ok art -> has_features art input ->
  exists label, predict_severity art input = Ok label
    /\ in_severity_vocabulary art label
    /\ label ∈ ["Low"; "Medium"; "High"].
Proof.
  intros (Hne & severity & Hsev & Hlab & Hmodel) Hfeat.
  destruct (encode_input_total (encoders art) input Hne) as [e He].
  destruct (Hmodel (feature_vector (features art) e))
    as (p & Hp & Hrange);
    [apply length_map | eapply feature_vector_numbers; eassumption|].
  destruct (getitem_in_range severity p Hrange) as [label Hl].
  exists label. split; [|split].
  - apply predict_severity_Ok. exists e, severity, p.
    repeat split; try assumption.
    intros f Hf. rewrite (encode_input_keys _ _ _ He).
    eapply has_features_keys; eassumption.
  - exists severity. split; [exact Hsev | eapply getitem_elem, Hl].
  - apply Hlab. eapply getitem_elem, Hl.
Qed.

(** C2: with artifacts as the Trainer writes them, a record that holds the
    trained fields (numbers in the numeric ones) and has, in a categorical
    field, a value outside that field's vocabulary is encoded without
    error; the field is encoded as the first entry of the vocabulary is, to
    index 0; and [predict_severity] still returns a label of the Severity
    vocabulary. *)
Theorem unseen_category_falls_back (art : Artifacts) (input : dict)
    (i : nat) (key : string) (value : value) (classes : list string) :
  artifacts_ok art -> has_features art input ->
  unseen art input i key value classes ->
  falls_back art input i key classes.
Proof.
  intros (Hne & severity & Hsev & Hlab & Hmodel) Hfeat (Hi & Hk & Hv).
  destruct classes as [|first rest]; [now destruct (Hne key [] Hk)|].
  destruct (encode_input_total (encoders art) input Hne) as [e He].
  pose proof He as HF. unfold encode_input in HF. apply for_each_Ok in HF.
  destruct (Forall2_lookup_l _ _ _ _ _ HF Hi) as (kv' & Hkv & E).
  rewrite (encode_item_unseen _ _ _ _ _ Hk Hv) in E. injection E as <-.
  destruct (Hmodel (feature_vector (features art) e))
    as (p & Hp & Hrange);
    [apply length_map | eapply feature_vector_numbers; eassumption|].
  destruct (getitem_in_range severity p Hrange) as [label Hl].
  pose proof (getitem_elem _ _ _ Hl) as Hin.
  exists first, e, label. repeat split; try assumption.
  - eapply encode_item_first, Hk.
  - apply predict_severity_Ok. exists e, severity, p.
    repeat split; try assumption.
    intros f Hf. rewrite (encode_input_keys _ _ _ He).
    eapply has_features_keys; eassumption.
  - exists severity. split; assumption.
  - apply Hlab, Hin.
Qed.

Lemma sample_artifacts_ok : artifacts_ok sample_artifacts.
Proof.
  split.
  - intros k classes H. simpl in H. unfold sample_encoders in H.
    apply elem_of_list_to_map_2 in H.
    repeat (apply elem_of_cons in H as [H|H];
            [injection H as -> ->; discriminate|]).
    inversion H.
  - exists ["High"; "Low"; "Medium"]. split; [vm_compute; reflexivity|]. split.
    + intros l Hl.
      repeat (apply elem_of_cons in Hl as [->|Hl];
              [repeat first [apply list_elem_of_here
                            | apply list_elem_of_further]|]).
      inversion Hl.
    + intros x Hlen Hx. simpl in *. unfold sample_model.
      destruct (lookup_lt_is_Some_2 x 5) as [v E]; [lia|].
      rewrite E. apply list_elem_of_lookup_2 in E.
      destruct (proj1 (Forall_forall _ _) Hx v E) as [users ->].
      eexists. split; [reflexivity|].
      destruct (Qle_bool users 1000); [simpl; lia|].
      destruct (Qle_bool users 100000); simpl; lia.
Qed.

Ltac solve_has_features Hf :=
  simpl in Hf;
  repeat (apply elem_of_cons in Hf as [->|Hf];
          [ eexists; split; [reflexivity|];
            first [ left; eexists; vm_compute; reflexivity
                  | right; eexists; reflexivity ] |]);
  inversion Hf.

Lemma scenario_has_features : has_features sample_artifacts scenario.
Proof. intros f Hf. solve_has_features Hf. Qed.

Lemma scenario_unseen_has_features :
  has_features sample_artifacts scenario_unseen.
Proof. intros f Hf. solve_has_features Hf. Qed.

Lemma predict_severity_in_vocabulary_witness :
  (artifacts_ok sample_artifacts /\ has_features sample_artifacts scenario)
  /\ exists label, predict_severity sample_artifacts scenario = Ok label
       /\ in_severity_vocabulary sample_artifacts label
       /\ label ∈ ["Low"; "Medium"; "High"].
Proof.
  split; [split; [exact sample_artifacts_ok | exact scenario_has_features]|].
  exact (predict_severity_in_vocabulary sample_artifacts scenario
           sample_artifacts_ok scenario_has_features).
Defined.

Lemma scenario_unseen_country :
  unseen sample_artifacts scenario_unseen 0 "Country" (VStr "Atlantis")
    ["China"; "India"; "UK"].
Proof. repeat split; vm_compute; reflexivity. Qed.

Lemma unseen_category_falls_back_witness :
  (artifacts_ok sample_artifacts
   /\ has_features sample_artifacts scenario_unseen
   /\ unseen sample_artifacts scenario_unseen 0 "Country" (VStr "Atlantis")
        ["China"; "India"; "UK"])
  /\ falls_back sample_artifacts scenario_unseen 0 "Country"
       ["China"; "India"; "UK"].
Proof.
  split.
  - split; [exact sample_artifacts_ok|].
    split; [exact scenario_unseen_has_features | exact scenario_unseen_country].
  - exact (unseen_category_falls_back sample_artifacts scenario_unseen 0
             "Country" (VStr "Atlantis") ["China"; "India"; "UK"]
             sample_artifacts_ok scenario_unseen_has_features
             scenario_unseen_country).
Defined.

(** The scenario itself, evaluated: the record is labelled Medium, and the
    record with the unknown country is encoded as China (index 0) is. *)
Example scenario_prediction :
  predict_severity sample_artifacts scenario = Ok "Medium"
  /\ bind (encode_input scenario_unseen sample_encoders)
          (fun e => Ok (e !! 0%nat))
     = Ok (Some ("Country", VNum 0)).
Proof. split; vm_compute; reflexivity. Qed.

(** The artifacts of a training run meet what [artifacts_ok] asks, as
    soon as the fitted classifier answers with a class index seen in
    training. *)
Lemma trained_artifacts_ok fit (df : list Cleaner.Incident) :
  df <> [] -> TrainerSpec.nonneg_users df -> TrainerSpec.percentiles_apart df ->
  Forall (fun r => forall c, is_Some (Cleaner.get_cat c r)) df ->
  (forall out, classifies (fit out) (length Trainer.features)
                 (Trainer.severity_classes out)) ->
  exists art, Trainer.run_model_training fit df = Ok art
              /\ artifacts_ok art /\ features art = Trainer.features.
Proof.
  intros Hne Hdf Hq Hcat Hfit.
  destruct (TrainerProofs.run_model_training_artifacts fit df Hne Hdf Hq Hcat)
    as (out & Hrun & Hvoc & Hsev & Hlab).
  eexists. split; [exact Hrun|]. split; [|reflexivity].
  split; [exact Hvoc|].
  exists (Trainer.severity_classes out). repeat split; try assumption;
    apply Hfit.
Qed.

End PredictorProofs.

(** * More about the Cleaner *)

Module CleanerFacts.
Import Num Cleaner CleanerSpec CleanerProofs.

(** ** Duplicates *)

Lemma drop_duplicates_from_fresh seen df r :
  r ∈ drop_duplicates_from seen df -> existsb (row_eqb r) seen = false.
Proof.
  revert seen. induction df as [|r0 rest IH]; intros seen Hr; simpl in Hr.
  - inversion Hr.
  - destruct (existsb (row_eqb r0) seen) eqn:E0; [now apply IH|].
    apply elem_of_cons in Hr as [->|Hr]; [exact E0|].
    specialize (IH _ Hr). simpl in IH.
    apply orb_false_iff in IH as [_ IH]. exact IH.
Qed.

Lemma drop_duplicates_from_unique_rows seen df :
  unique_rows (drop_duplicates_from seen df) = true.
Proof.
  revert seen. induction df as [|r0 rest IH]; intros seen; simpl; [reflexivity|].
  destruct (existsb (row_eqb r0) seen) eqn:E0; [apply IH|].
  simpl. rewrite IH, andb_true_r. apply negb_true_iff, not_true_is_false.
  intros H. apply existsb_exists in H as (x & Hx & E).
  apply list_elem_of_In, drop_duplicates_from_fresh in Hx. simpl in Hx.
  apply orb_false_iff in Hx as [Hx _]. rewrite row_eqb_sym in Hx. congruence.
Qed.

Lemma drop_duplicates_from_sublist seen df :
  sublist (drop_duplicates_from seen df) df.
Proof.
  revert seen. induction df as [|r0 rest IH]; intros seen; simpl; [constructor|].
  destruct (existsb (row_eqb r0) seen).
  - apply sublist_cons, IH.
  - apply sublist_skip, IH.
Qed.

Lemma drop_duplicates_from_covers seen df r :
  r ∈ df ->
  existsb (row_eqb r) seen = true
  \/ exists r', r' ∈ drop_duplicates_from seen df /\ row_eqb r r' = true.
Proof.
  revert seen. induction df as [|r0 rest IH]; intros seen Hr; [inversion Hr|].
  simpl. destruct (existsb (row_eqb r0) seen) eqn:E0.
  - apply elem_of_cons in Hr as [->|Hr]; [now left | now apply IH].
  - apply elem_of_cons in Hr as [->|Hr].
    + right. exists r0. split; [left | apply row_eqb_refl].
    + destruct (IH (r0 :: seen) Hr) as [H|(r' & Hr' & E)].
      * simpl in H. apply orb_true_iff in H as [H|H]; [|now left].
        right. exists r0. split; [left | exact H].
      * right. exists r'. split; [now right | exact E].
Qed.

(** X1: after [drop_duplicates] no two rows of the table are equal in all
    columns, the rows that remain are rows of the raw table in their
    original order, and every raw row has an equal row among them. *)
Theorem drop_duplicates_postcondition (raw : list Incident) :
  unique_rows (drop_duplicates raw) = true
  /\ sublist (drop_duplicates raw) raw
  /\ forall r, r ∈ raw ->
       exists r', r' ∈ drop_duplicates raw /\ row_eqb r r' = true.
Proof.
  split; [apply drop_duplicates_from_unique_rows|].
  split; [apply drop_duplicates_from_sublist|].
  intros r Hr.
  destruct (drop_duplicates_from_covers [] raw r Hr) as [H|H];
    [discriminate H | exact H].
Qed.

(** ** The median *)

Lemma sort_values_length l : length (sort_values l) = length l.
Proof. apply Permutation_length, TrainerProofs.sort_values_perm. Qed.

Lemma median_sorted_cells s m :
  median_sorted s = Some m ->
  exists a b, a ∈ s /\ b ∈ s /\ m == (a + b) / 2.
Proof.
  unfold median_sorted. destruct (length s) as [|n] eqn:El; [discriminate|].
  rewrite <- El. destruct (Nat.even (length s)).
  - destruct (s !! (length s / 2 - 1)%nat) as [a|] eqn:Ea; [|discriminate].
    destruct (s !! (length s / 2)%nat) as [b|] eqn:Eb; [|discriminate].
    intros [= <-]. exists a, b.
    split; [eapply list_elem_of_lookup_2, Ea|].
    split; [eapply list_elem_of_lookup_2, Eb | reflexivity].
  - intros Hm. exists m, m.
    split; [eapply list_elem_of_lookup_2, Hm|].
    split; [eapply list_elem_of_lookup_2, Hm | field].
Qed.

Lemma median_sorted_is_Some s : s <> [] -> is_Some (median_sorted s).
Proof.
  intros Hne. unfold median_sorted.
  destruct (length s) as [|n] eqn:El; [destruct s; [contradiction|discriminate]|].
  rewrite <- El.
  assert (Hhalf : (length s / 2 < length s)%nat)
    by (apply Nat.div_lt; lia).
  destruct (Nat.even (length s)).
  - destruct (lookup_lt_is_Some_2 s (length s / 2 - 1)) as [a ->]; [lia|].
    destruct (lookup_lt_is_Some_2 s (length s / 2)) as [b ->]; [lia|].
    eexists; reflexivity.
  - apply lookup_lt_is_Some_2, Hhalf.
Qed.

Lemma median_is_Some col :
  is_Some (median col) <-> exists x, Some x ∈ col.
Proof.
  unfold median. split.
  - intros [m Hm]. apply median_sorted_cells in Hm as (a & _ & Ha & _).
    exists a. now apply TrainerProofs.elem_of_sorted_column.
  - intros [x Hx]. apply median_sorted_is_Some. intros E.
    assert (Hin : x ∈ dropna col).
    { unfold dropna. apply list_elem_of_omap. exists (Some x). now split. }
    rewrite <- (TrainerProofs.sort_values_perm (dropna col)), E in Hin.
    inversion Hin.
Qed.

Lemma median_between col m :
  median col = Some m ->
  exists lo hi, Some lo ∈ col /\ Some hi ∈ col /\ lo <= m /\ m <= hi.
Proof.
  unfold median. intros Hm.
  apply median_sorted_cells in Hm as (a & b & Ha & Hb & E).
  apply TrainerProofs.elem_of_sorted_column in Ha, Hb.
  destruct (Qlt_le_dec a b) as [Hab|Hba].
  - exists a, b. repeat split; try assumption; rewrite E;
      [apply Qle_shift_div_l | apply Qle_shift_div_r]; lra.
  - exists b, a. repeat split; try assumption; rewrite E;
      [apply Qle_shift_div_l | apply Qle_shift_div_r]; lra.
Qed.

(** ** What the Cleaner leaves missing *)

Lemma cleaner_rows raw :
  cleaner raw = map (impute_row (drop_duplicates raw)) (drop_duplicates raw).
Proof. unfold cleaner. apply impute_one_pass. Qed.

Lemma in_median_filled c :
  c ∈ median_filled_cols ->
  c = Financial_Loss \/ c = Affected_Users \/ c = Resolution_Hours.
Proof.
  intros H. repeat (apply elem_of_cons in H as [->|H]; [tauto|]). inversion H.
Qed.

(** X2: the Cleaner returns one row per de-duplicated row; none of its
    categorical cells is missing; the Year column is as it was; and each of
    the three measured columns is entirely present afterwards when it had
    one present cell, and entirely as missing as before when it had none. *)
Theorem cleaner_missing_cells (raw : list Incident) :
  length (cleaner raw) = length (drop_duplicates raw)
  /\ Forall (fun r => forall c, is_Some (get_cat c r)) (cleaner raw)
  /\ map year (cleaner raw) = map year (drop_duplicates raw)
  /\ forall c, c ∈ median_filled_cols ->
       (Exists (fun r => is_Some (get_num c r)) (drop_duplicates raw) ->
        Forall (fun r => is_Some (get_num c r)) (cleaner raw))
       /\ (Forall (fun r => get_num c r = None) (drop_duplicates raw) ->
           Forall (fun r => get_num c r = None) (cleaner raw)).
Proof.
  rewrite cleaner_rows. set (dd := drop_duplicates raw).
  assert (Himp : forall r, imputed median_filled_cols dd r (impute_row dd r))
    by (intros r; apply impute_row_imputed).
  split; [apply length_map|]. split; [|split].
  - apply Forall_fmap, Forall_forall. intros r _ c. simpl.
    destruct (Himp r) as (_ & _ & Hcat). rewrite (Hcat c). eexists; reflexivity.
  - rewrite map_map. apply map_ext. intros r.
    destruct (Himp r) as (_ & Hother & _). apply (Hother Year).
    intros H. apply in_median_filled in H as [H|[H|H]]; discriminate H.
  - intros c Hc. split.
    + intros Hex. apply Forall_fmap, Forall_forall. intros r _. simpl.
      destruct (Himp r) as (Hnum & _). rewrite (Hnum c Hc).
      destruct (get_num c r); [eexists; reflexivity|].
      apply median_is_Some. apply Exists_exists in Hex as (r0 & Hr0 & [x Hx]).
      exists x. unfold column_num. apply list_elem_of_fmap. exists r0.
      split; [now rewrite Hx | exact Hr0].
    + intros Hnone. apply Forall_fmap, Forall_forall. intros r Hr. simpl.
      destruct (Himp r) as (Hnum & _). rewrite (Hnum c Hc).
      rewrite (proj1 (Forall_forall _ _) Hnone r Hr).
      destruct (median (column_num c dd)) as [m|] eqn:Em; [|reflexivity].
      exfalso. assert (Hs : is_Some (median (column_num c dd))) by eauto.
      apply median_is_Some in Hs as [x Hx].
      unfold column_num in Hx. apply list_elem_of_fmap in Hx as (r0 & E & Hr0).
      rewrite (proj1 (Forall_forall _ _) Hnone r0 Hr0) in E. discriminate E.
Qed.

(** X3: the Cleaner never changes a cell that is present, and the value it
    writes into a missing cell of a measured column lies between two cells
    that are present in that column of the de-duplicated table. *)
Theorem cleaner_fill_within_range (raw : list Incident) (c : NumCol) (i : nat)
    (r r' : Incident) :
  c ∈ median_filled_cols ->
  drop_duplicates raw !! i = Some r -> cleaner raw !! i = Some r' ->
  (forall x, get_num c r = Some x -> get_num c r' = Some x)
  /\ (forall c', get_cat c' r <> None -> get_cat c' r' = get_cat c' r)
  /\ (forall m, get_num c r = None -> get_num c r' = Some m ->
        exists lo hi,
          Some lo ∈ column_num c (drop_duplicates raw)
          /\ Some hi ∈ column_num c (drop_duplicates raw)
          /\ lo <= m /\ m <= hi).
Proof.
  intros Hc Hr Hr'. rewrite cleaner_rows, list_lookup_fmap, Hr in Hr'.
  injection Hr' as <-.
  destruct (impute_row_imputed (drop_duplicates raw) r) as (Hnum & _ & Hcat).
  split; [|split].
  - intros x Hx. now rewrite (Hnum c Hc), Hx.
  - intros c' Hc'. rewrite (Hcat c').
    destruct (get_cat c' r); [reflexivity | contradiction].
  - intros m Hnone Hm. rewrite (Hnum c Hc), Hnone in Hm.
    apply median_between, Hm.
Qed.

Lemma cleaner_fill_within_range_witness :
  (Financial_Loss ∈ median_filled_cols
   /\ drop_duplicates [Samples.uk_ransomware; Samples.brazil_gaps] !! 1%nat
      = Some Samples.brazil_gaps
   /\ cleaner [Samples.uk_ransomware; Samples.brazil_gaps] !! 1%nat
      = Some (set_num Financial_Loss (Some 80)
                (set_cat Attack_Source (Some "Unknown") Samples.brazil_gaps)))
  /\ exists lo hi,
       Some lo ∈ column_num Financial_Loss
                  (drop_duplicates [Samples.uk_ransomware; Samples.brazil_gaps])
       /\ Some hi ∈ column_num Financial_Loss
                     (drop_duplicates [Samples.uk_ransomware; Samples.brazil_gaps])
       /\ lo <= 80 /\ 80 <= hi.
Proof.
  assert (H1 : Financial_Loss ∈ median_filled_cols) by apply list_elem_of_here.
  assert (H2 : drop_duplicates [Samples.uk_ransomware; Samples.brazil_gaps]
               !! 1%nat = Some Samples.brazil_gaps) by reflexivity.
  assert (H3 : cleaner [Samples.uk_ransomware; Samples.brazil_gaps] !! 1%nat
               = Some (set_num Financial_Loss (Some 80)
                         (set_cat Attack_Source (Some "Unknown")
                            Samples.brazil_gaps)))
    by (vm_compute; reflexivity).
  split; [repeat split; assumption|].
  exact (proj2 (proj2 (cleaner_fill_within_range _ _ _ _ _ H1 H2 H3))
           80 eq_refl eq_refl).
Defined.

End CleanerFacts.

(** * More about the Scorer *)

Module ScorerFacts.
Import Num Cleaner CleanerSpec Scorer ScorerSpec ScorerClaims ScorerProofs Views.

Lemma score_rows df out :
  score df = Some out ->
  exists fls aus rhs sf su sr,
    numeric_column Financial_Loss df = Some fls
    /\ numeric_column Affected_Users df = Some aus
    /\ numeric_column Resolution_Hours df = Some rhs
    /\ fit fls = Some sf /\ fit aus = Some su /\ fit rhs = Some sr
    /\ Forall (scored_from sf su sr fls aus rhs) out.
Proof.
  intros H.
  destruct (score_inv df out H)
    as (fls & aus & rhs & sf & su & sr & E1 & E2 & E3 & F1 & F2 & F3 & HF).
  exists fls, aus, rhs, sf, su, sr. repeat split; try assumption.
  apply Forall_forall. intros s Hs.
  apply list_elem_of_lookup in Hs as [i Hi].
  destruct (Forall2_lookup_r _ _ _ _ _ HF Hi) as (r & Hr & E).
  apply list_elem_of_lookup_2 in Hr.
  destruct (score_row_inv _ _ _ _ _ E)
    as (attack & vuln & fl & au & rh & Ha & Hv & Hfl & Hau & Hrh & ->).
  exists attack, vuln, fl, au, rh. simpl.
  repeat split; try assumption; try reflexivity.
  - eapply (numeric_column_elem Financial_Loss); eassumption.
  - eapply (numeric_column_elem Affected_Users); eassumption.
  - eapply (numeric_column_elem Resolution_Hours); eassumption.
Qed.

(** The fitted scale is positive. *)
Lemma fit_scale_pos col sc : fit col = Some sc -> 0 < scale_ sc.
Proof.
  intros Hfit.
  destruct (fit_min_max col sc Hfit)
    as ([(x & Hx & _) Hmin] & [_ Hmax] & Hs & _).
  pose proof (Hmin x Hx). pose proof (Hmax x Hx).
  rewrite Hs. unfold handle_zeros_in_scale.
  destruct (Qeq_bool (data_max_ sc - data_min_ sc) 0) eqn:E.
  - reflexivity.
  - apply Qeq_bool_neq in E. apply Qlt_shift_div_l; lra.
Qed.

Lemma transform_le col sc x y :
  fit col = Some sc -> x <= y -> transform sc x <= transform sc y.
Proof.
  intros Hfit Hxy. pose proof (fit_scale_pos col sc Hfit) as Hpos.
  unfold transform.
  pose proof (Qmult_le_0_compat (y - x) (scale_ sc) ltac:(lra) ltac:(lra)).
  lra.
Qed.








(** X6: of two rows of the scored table with the same attack type and the
    same vulnerability text, the one that is at least as large in financial
    loss, affected users and resolution time has at least as large a risk
    score. *)
Theorem risk_score_monotone (df : list Incident) (out : list Scored)
    (s1 s2 : Scored) (fl1 fl2 au1 au2 rh1 rh2 : Q) :
  score df = Some out -> s1 ∈ out -> s2 ∈ out ->
  attack_type (incident s1) = attack_type (incident s2) ->
  vulnerability_type (incident s1) = vulnerability_type (incident s2) ->
  financial_loss (incident s1) = Some fl1 ->
  financial_loss (incident s2) = Some fl2 ->
  affected_users (incident s1) = Some au1 ->
  affected_users (incident s2) = Some au2 ->
  resolution_hours (incident s1) = Some rh1 ->
  resolution_hours (incident s2) = Some rh2 ->
  fl1 <= fl2 -> au1 <= au2 -> rh1 <= rh2 ->
  attack_severity_factor s1 = attack_severity_factor s2
  /\ risk_score s1 <= risk_score s2.
Proof.
  intros H Hs1 Hs2 Ea Ev F1 F2 A1 A2 R1 R2 Hfl Hau Hrh.
  destruct (score_rows df out H)
    as (fls & aus & rhs & sf & su & sr & _ & _ & _ & Ff & Fu & Fr & HF).
  destruct (proj1 (Forall_forall _ _) HF s1 Hs1)
    as (a1 & v1 & x1 & y1 & z1 & Ha1 & Hv1 & Hx1 & Hy1 & Hz1
        & _ & _ & _ & Hf1 & _ & _ & _ & Hr1).
  destruct (proj1 (Forall_forall _ _) HF s2 Hs2)
    as (a2 & v2 & x2 & y2 & z2 & Ha2 & Hv2 & Hx2 & Hy2 & Hz2
        & _ & _ & _ & Hf2 & _ & _ & _ & Hr2).
  assert (a1 = a2) as -> by congruence.
  assert (v1 = v2) as -> by congruence.
  assert (x1 = fl1) as -> by congruence. assert (x2 = fl2) as -> by congruence.
  assert (y1 = au1) as -> by congruence. assert (y2 = au2) as -> by congruence.
  assert (z1 = rh1) as -> by congruence. assert (z2 = rh2) as -> by congruence.
  split; [congruence|]. rewrite Hr1, Hr2. unfold risk.
  pose proof (transform_le fls sf fl1 fl2 Ff Hfl).
  pose proof (transform_le aus su au1 au2 Fu Hau).
  pose proof (transform_le rhs sr rh1 rh2 Fr Hrh).
  lra.
Qed.


Lemma risk_score_monotone_witness :
  (score Samples.users_table = Some users_scored
   /\ users_scored_row 0 ∈ users_scored /\ users_scored_row 1 ∈ users_scored)
  /\ attack_severity_factor (users_scored_row 0)
     = attack_severity_factor (users_scored_row 1)
  /\ risk_score (users_scored_row 0) <= risk_score (users_scored_row 1).
Proof.
  assert (H : score Samples.users_table = Some users_scored)
    by (vm_compute; reflexivity).
  assert (H0 : users_scored_row 0 ∈ users_scored)
    by (apply (list_elem_of_lookup_2 _ 0%nat); vm_compute; reflexivity).
  assert (H1 : users_scored_row 1 ∈ users_scored)
    by (apply (list_elem_of_lookup_2 _ 1%nat); vm_compute; reflexivity).
  split; [repeat split; assumption|].
  apply (risk_score_monotone Samples.users_table users_scored
           (users_scored_row 0) (users_scored_row 1) 1 1 100 200 1 1
           H H0 H1); try reflexivity; vm_compute; discriminate.
Defined.

End ScorerFacts.

(** * More about the Clusterer and the whole of [preprocess_data] *)

Module ClustererFacts.
Import Num Cleaner CleanerSpec Scorer ScorerSpec Clusterer ClustererSpec.
Import ClustererProofs Views.

(** The labelled table, row by row, under a well-formed clustering. *)
Lemma label_clusters_rows km df :
  kmeans_ok km df ->
  exists out,
    label_clusters km df = Some out
    /\ map scored out = df
    /\ map severity_cluster out = labels_ km
    /\ Forall (fun r => exists i t,
                 (i < 4)%nat
                 /\ cluster_order km !! i = Some (severity_cluster r)
                 /\ tier_names !! i = Some t /\ Severity r = Some t) out.
Proof.
  intros (Hlen & Hlab & Hrange & Hfull).
  destruct (cluster_order_four km Hlen) as (c0 & c1 & c2 & c3 & Ho & Hp & _).
  assert (Hnd : NoDup [c0; c1; c2; c3]) by (rewrite Hp; apply (NoDup_seq 0 4)).
  destruct (severity_labels_lookup km c0 c1 c2 c3 Ho Hnd) as (dict & Hdict & Hlk).
  exists (zip_with (fun s c => mkClustered s c (dict !! c)) df (labels_ km)).
  split; [|split; [|split]].
  - unfold label_clusters. rewrite Hdict. simpl.
    now rewrite (proj2 (Nat.eqb_eq _ _) Hlab).
  - clear -Hlab. revert Hlab. generalize (labels_ km).
    induction df as [|s df IH]; intros [|k l] Hl; simpl in *;
      try reflexivity; try discriminate.
    f_equal. apply IH. lia.
  - clear -Hlab. revert Hlab. generalize (labels_ km).
    induction df as [|s df IH]; intros [|k l] Hl; simpl in *;
      try reflexivity; try discriminate.
    f_equal. apply IH. lia.
  - apply Forall_forall. intros r Hr.
    apply elem_of_zip_with in Hr as (s & k & -> & _ & Hk). simpl.
    specialize (Hrange k Hk).
    assert (Hin : k ∈ [c0; c1; c2; c3])
      by (rewrite Hp; apply (elem_of_seq 0 4 k); lia).
    apply list_elem_of_lookup in Hin as [i Hi].
    pose proof (lookup_lt_Some _ _ _ Hi) as Hi4. simpl in Hi4.
    destruct (lookup_lt_is_Some_2 tier_names i) as [t Ht]; [simpl; lia|].
    exists i, t. rewrite Ho. repeat split; try assumption.
    rewrite (Hlk i k Hi). exact Ht.
Qed.

(** X8: under a clustering with four centres and no empty cluster, every
    row of the processed table has a tier, and two rows have the same tier
    exactly when they are in the same cluster. *)
Theorem tiers_match_clusters (km : KMeansResult) (df : list Scored)
    (out : list Clustered) :
  kmeans_ok km df -> label_clusters km df = Some out ->
  forall r1 r2, r1 ∈ out -> r2 ∈ out ->
    is_Some (Severity r1)
    /\ (Severity r1 = Severity r2 <-> severity_cluster r1 = severity_cluster r2).
Proof.
  intros Hok Hout r1 r2 Hr1 Hr2.
  destruct (label_clusters_rows km df Hok) as (out' & Hout' & _ & _ & HF).
  rewrite Hout in Hout'. injection Hout' as <-.
  destruct (proj1 (Forall_forall _ _) HF r1 Hr1) as (i1 & t1 & _ & Ho1 & Ht1 & S1).
  destruct (proj1 (Forall_forall _ _) HF r2 Hr2) as (i2 & t2 & _ & Ho2 & Ht2 & S2).
  split; [rewrite S1; eexists; reflexivity|].
  rewrite S1, S2. split.
  - intros [= <-].
    assert (i1 = i2)
      by (eapply NoDup_lookup; [apply tier_names_NoDup | exact Ht1 | exact Ht2]).
    subst i2. rewrite Ho1 in Ho2. now injection Ho2.
  - intros E. rewrite <- E in Ho2.
    assert (Hnd : NoDup (cluster_order km)).
    { destruct Hok as (Hlen & _).
      destruct (cluster_order_four km Hlen) as (c0 & c1 & c2 & c3 & -> & Hp & _).
      rewrite Hp. apply (NoDup_seq 0 4). }
    assert (i1 = i2) by (eapply NoDup_lookup; eassumption).
    subst i2. rewrite Ht1 in Ht2. now injection Ht2 as ->.
Qed.

Lemma tiers_match_clusters_witness :
  (kmeans_ok (singleton_clusters identity_labels crossing_scored)
     crossing_scored
   /\ label_clusters (singleton_clusters identity_labels crossing_scored)
        crossing_scored
      = Some (default [] (label_clusters
                (singleton_clusters identity_labels crossing_scored)
                crossing_scored)))
  /\ forall r1 r2,
       r1 ∈ default [] (label_clusters
               (singleton_clusters identity_labels crossing_scored)
               crossing_scored) ->
       r2 ∈ default [] (label_clusters
               (singleton_clusters identity_labels crossing_scored)
               crossing_scored) ->
       is_Some (Severity r1)
       /\ (Severity r1 = Severity r2
           <-> severity_cluster r1 = severity_cluster r2).
Proof.
  assert (H : label_clusters (singleton_clusters identity_labels crossing_scored)
                crossing_scored
              = Some (default [] (label_clusters
                        (singleton_clusters identity_labels crossing_scored)
                        crossing_scored)))
    by (vm_compute; reflexivity).
  split; [split; [exact crossing_kmeans_ok | exact H]|].
  exact (tiers_match_clusters _ _ _ crossing_kmeans_ok H).
Defined.

(** ** The whole of [preprocess_data] *)




(** X10: whenever [preprocess_data] returns, its table has the rows of the
    cleaned table, in order: one row per distinct raw row, never more rows
    than the raw table. *)
Theorem preprocess_data_keeps_rows (KMeans : list (list Q) -> KMeansResult)
    (raw : list Incident) (out : list Clustered) :
  preprocess_data KMeans raw = Some out ->
  map (fun r => incident (scored r)) out = cleaner raw
  /\ length out = length (drop_duplicates raw)
  /\ (length out <= length raw)%nat.
Proof.
  unfold preprocess_data. intros H.
  destruct (score (cleaner raw)) as [df|] eqn:Hdf; [|discriminate H].
  simpl in H. unfold label_clusters in H.
  destruct (severity_labels _) as [dict|]; [|discriminate H]. simpl in H.
  destruct (Nat.eqb _ _) eqn:El; [|discriminate H].
  apply Nat.eqb_eq in El. injection H as <-.
  assert (Hrows : map (fun r => incident (scored r))
                    (zip_with (fun s c => mkClustered s c (dict !! c)) df
                       (labels_ (KMeans (map kmeans_features df))))
                  = cleaner raw).
  { rewrite <- (ScorerProofs.score_incident _ _ Hdf).
    revert El. generalize (labels_ (KMeans (map kmeans_features df))).
    clear. induction df as [|s df IH]; intros [|k l] Hl; simpl in *;
      try reflexivity; try discriminate.
    f_equal. apply IH. lia. }
  split; [exact Hrows|].
  assert (Hlen : length (zip_with (fun s c => mkClustered s c (dict !! c)) df
                           (labels_ (KMeans (map kmeans_features df))))
                 = length (drop_duplicates raw)).
  { rewrite <- (length_map (fun r => incident (scored r))), Hrows.
    rewrite CleanerFacts.cleaner_rows. apply length_map. }
  split; [exact Hlen|]. rewrite Hlen.
  apply sublist_length, CleanerFacts.drop_duplicates_from_sublist.
Qed.




Lemma preprocess_data_keeps_rows_witness :
  preprocess_data one_cluster_per_row Samples.crossing_table
  = Some crossing_processed
  /\ map (fun r => incident (scored r)) crossing_processed
     = cleaner Samples.crossing_table
  /\ length crossing_processed
     = length (drop_duplicates Samples.crossing_table)
  /\ (length crossing_processed <= length Samples.crossing_table)%nat.
Proof.
  assert (H : preprocess_data one_cluster_per_row Samples.crossing_table
              = Some crossing_processed) by (vm_compute; reflexivity).
  split; [exact H|].
  exact (preprocess_data_keeps_rows one_cluster_per_row Samples.crossing_table
           crossing_processed H).
Defined.

End ClustererFacts.

(** * More about the Trainer *)

Module TrainerFacts.
Import Num Cleaner Py Persisted Trainer TrainerSpec TrainerProofs.
Import Predictor PredictorSpec PredictorProofs Views.

(** ** The sorted column *)

Lemma insert_sorted_sorted x l :
  StronglySorted Qle l -> StronglySorted Qle (insert_sorted x l).
Proof.
  induction 1 as [|y l Hs IH Hy]; simpl.
  - repeat constructor.
  - destruct (Qle_bool x y) eqn:E.
    + apply Qle_bool_iff in E. constructor; [constructor; assumption|].
      constructor; [exact E|].
      eapply Forall_impl; [exact Hy|]. intros z Hz. simpl in Hz. lra.
    + assert (Hyx : y <= x).
      { destruct (Qlt_le_dec x y) as [H|H]; [|exact H].
        assert (Hle : x <= y) by lra.
        apply Qle_bool_iff in Hle. congruence. }
      constructor; [exact IH|].
      rewrite insert_sorted_perm. constructor; assumption.
Qed.

Lemma sort_values_sorted l : StronglySorted Qle (sort_values l).
Proof.
  induction l as [|x l IH]; simpl; [constructor|].
  now apply insert_sorted_sorted.
Qed.

Lemma sorted_lookup_le (s : list Q) i j a b :
  StronglySorted Qle s -> (i <= j)%nat ->
  s !! i = Some a -> s !! j = Some b -> a <= b.
Proof.
  intros Hs. revert i j. induction Hs as [|x s Hs IH Hx]; intros i j Hij Ei Ej.
  - discriminate.
  - destruct i as [|i], j as [|j]; simpl in *.
    + injection Ei as <-. injection Ej as <-. lra.
    + injection Ei as <-.
      exact (proj1 (Forall_forall _ _) Hx b (list_elem_of_lookup_2 _ _ _ Ej)).
    + lia.
    + apply (IH i j); [lia | assumption | assumption].
Qed.

(** ** Interpolated quantiles of a sorted column *)

Lemma quantile_sorted_cases s q v :
  quantile_sorted s q = Some v ->
  exists a,
    s !! Z.to_nat (Qfloor (inject_Z (Z.of_nat (length s - 1)) * q)) = Some a
    /\ ((s !! S (Z.to_nat (Qfloor (inject_Z (Z.of_nat (length s - 1)) * q)))
         = None /\ v = a)
        \/ exists b,
             s !! S (Z.to_nat (Qfloor (inject_Z (Z.of_nat (length s - 1)) * q)))
             = Some b
             /\ v = a + (b - a)
                        * (inject_Z (Z.of_nat (length s - 1)) * q
                           - inject_Z
                               (Qfloor (inject_Z (Z.of_nat (length s - 1)) * q)))).
Proof.
  unfold quantile_sorted. cbv zeta.
  set (pos := inject_Z (Z.of_nat (length s - 1)) * q).
  destruct (s !! Z.to_nat (Qfloor pos)) as [a|] eqn:Ea; [|discriminate].
  cbn [mbind option_bind]. intros Hv. exists a. split; [reflexivity|].
  destruct (s !! S (Z.to_nat (Qfloor pos))) as [b|] eqn:Eb;
    injection Hv as <-.
  - right. exists b. split; reflexivity.
  - left. split; reflexivity.
Qed.

Lemma quantile_sorted_lower s q v lo :
  0 <= q -> (forall x, x ∈ s -> lo <= x) ->
  quantile_sorted s q = Some v -> lo <= v.
Proof.
  intros Hq Hs Hv. apply quantile_sorted_cases in Hv as (a & Ea & Hv).
  set (pos := inject_Z (Z.of_nat (length s - 1)) * q) in *.
  pose proof (Qfloor_le pos) as Hlo. pose proof (Qlt_floor pos) as Hhi.
  rewrite inject_Z_plus in Hhi. change (inject_Z 1) with 1 in Hhi.
  pose proof (Hs a (list_elem_of_lookup_2 _ _ _ Ea)) as Ha.
  destruct Hv as [[_ ->] | (b & Eb & ->)]; [assumption|].
  pose proof (Hs b (list_elem_of_lookup_2 _ _ _ Eb)) as Hb.
  set (f := pos - inject_Z (Qfloor pos)).
  assert (Hf0 : 0 <= f) by (unfold f; lra).
  assert (Hf1 : 0 <= 1 - f) by (unfold f; lra).
  pose proof (Qmult_le_0_compat (a - lo) (1 - f) ltac:(lra) Hf1) as H1.
  pose proof (Qmult_le_0_compat (b - lo) f ltac:(lra) Hf0) as H2.
  assert (E : a + (b - a) * f - lo == (a - lo) * (1 - f) + (b - lo) * f)
    by ring.
  lra.
Qed.

Lemma quantile_sorted_upper s q v hi :
  0 <= q -> (forall x, x ∈ s -> x <= hi) ->
  quantile_sorted s q = Some v -> v <= hi.
Proof.
  intros Hq Hs Hv. apply quantile_sorted_cases in Hv as (a & Ea & Hv).
  set (pos := inject_Z (Z.of_nat (length s - 1)) * q) in *.
  pose proof (Qfloor_le pos) as Hlo. pose proof (Qlt_floor pos) as Hhi.
  rewrite inject_Z_plus in Hhi. change (inject_Z 1) with 1 in Hhi.
  pose proof (Hs a (list_elem_of_lookup_2 _ _ _ Ea)) as Ha.
  destruct Hv as [[_ ->] | (b & Eb & ->)]; [assumption|].
  pose proof (Hs b (list_elem_of_lookup_2 _ _ _ Eb)) as Hb.
  set (f := pos - inject_Z (Qfloor pos)).
  assert (Hf0 : 0 <= f) by (unfold f; lra).
  assert (Hf1 : 0 <= 1 - f) by (unfold f; lra).
  pose proof (Qmult_le_0_compat (hi - a) (1 - f) ltac:(lra) Hf1) as H1.
  pose proof (Qmult_le_0_compat (hi - b) f ltac:(lra) Hf0) as H2.
  assert (E : hi - (a + (b - a) * f) == (hi - a) * (1 - f) + (hi - b) * f)
    by ring.
  lra.
Qed.

Lemma quantile_sorted_is_Some s q :
  s <> [] -> 0 <= q -> q <= 1 -> is_Some (quantile_sorted s q).
Proof.
  intros Hs Hq0 Hq1. unfold quantile_sorted. cbv zeta.
  set (n := Z.of_nat (length s - 1)).
  set (pos := inject_Z n * q).
  assert (Hn : 0 <= inject_Z n).
  { change 0 with (inject_Z 0). rewrite <- Zle_Qle. unfold n. lia. }
  assert (Hpos : pos <= inject_Z n).
  { unfold pos. pose proof (Qmult_le_0_compat (inject_Z n) (1 - q) Hn ltac:(lra)).
    assert (E : inject_Z n - inject_Z n * q == inject_Z n * (1 - q)) by ring.
    lra. }
  assert (Hpos0 : 0 <= pos) by (unfold pos; apply Qmult_le_0_compat; assumption).
  assert (Hk : (0 <= Qfloor pos <= n)%Z).
  { split.
    - change 0%Z with (Qfloor 0). apply Qfloor_resp_le, Hpos0.
    - rewrite <- (Qfloor_Z n). apply Qfloor_resp_le, Hpos. }
  assert (Hlt : (Z.to_nat (Qfloor pos) < length s)%nat).
  { destruct s; [contradiction|]. unfold n in Hk. simpl in *. lia. }
  apply lookup_lt_is_Some in Hlt as [a Ea]. rewrite Ea.
  cbn [mbind option_bind].
  destruct (s !! S (Z.to_nat (Qfloor pos))); eexists; reflexivity.
Qed.

Lemma quantile_sorted_mono s q q' v v' :
  StronglySorted Qle s -> 0 <= q -> q <= q' ->
  quantile_sorted s q = Some v -> quantile_sorted s q' = Some v' -> v <= v'.
Proof.
  intros Hs Hq Hqq Hv Hv'.
  apply quantile_sorted_cases in Hv as (a & Ea & Hv).
  apply quantile_sorted_cases in Hv' as (a' & Ea' & Hv').
  set (n := inject_Z (Z.of_nat (length s - 1))) in *.
  assert (Hn : 0 <= n).
  { unfold n. change 0 with (inject_Z 0). rewrite <- Zle_Qle. lia. }
  set (pos := n * q) in *. set (pos' := n * q') in *.
  assert (Hpos0 : 0 <= pos) by (unfold pos; apply Qmult_le_0_compat; assumption).
  assert (Hpp : pos <= pos').
  { unfold pos, pos'. pose proof (Qmult_le_0_compat n (q' - q) Hn ltac:(lra)).
    assert (E : n * q' - n * q == n * (q' - q)) by ring. lra. }
  pose proof (Qfloor_le pos) as Hlo. pose proof (Qlt_floor pos) as Hhi.
  pose proof (Qfloor_le pos') as Hlo'. pose proof (Qlt_floor pos') as Hhi'.
  rewrite inject_Z_plus in Hhi, Hhi'. change (inject_Z 1) with 1 in Hhi, Hhi'.
  assert (Hk0 : (0 <= Qfloor pos)%Z).
  { change 0%Z with (Qfloor 0). apply Qfloor_resp_le, Hpos0. }
  assert (Hkk : (Qfloor pos <= Qfloor pos')%Z) by apply Qfloor_resp_le, Hpp.
  set (k := Qfloor pos) in *. set (k' := Qfloor pos') in *.
  clearbody k k' pos pos'.
  set (f := pos - inject_Z k) in *. set (f' := pos' - inject_Z k') in *.
  assert (Hf0 : 0 <= f) by (unfold f; lra).
  assert (Hf1 : 0 <= 1 - f) by (unfold f; lra).
  assert (Hf0' : 0 <= f') by (unfold f'; lra).
  (* the value at q' is at least the cell at its position *)
  assert (Hup : a' <= v').
  { destruct Hv' as [[_ ->] | (b' & Eb' & ->)]; [lra|].
    assert (Hab : a' <= b')
      by (apply (sorted_lookup_le s (Z.to_nat k') (S (Z.to_nat k')));
          [exact Hs | lia | exact Ea' | exact Eb']).
    pose proof (Qmult_le_0_compat (b' - a') f' ltac:(lra) Hf0'). lra. }
  destruct (Z.eq_dec k k') as [<- | Hne].
  - (* both positions fall between the same two cells *)
    assert (a' = a) by congruence. subst a'.
    destruct Hv as [[En ->] | (b & Eb & ->)]; [exact Hup|].
    destruct Hv' as [[En' _] | (b' & Eb' & ->)]; [congruence|].
    assert (b' = b) by congruence. subst b'.
    assert (Hab : a <= b)
      by (apply (sorted_lookup_le s (Z.to_nat k) (S (Z.to_nat k)));
          [exact Hs | lia | exact Ea | exact Eb]).
    assert (Hff : f <= f') by (unfold f, f'; lra).
    pose proof (Qmult_le_0_compat (b - a) (f' - f) ltac:(lra) ltac:(lra)).
    assert (E : (b - a) * f' - (b - a) * f == (b - a) * (f' - f)) by ring.
    lra.
  - (* the position of q' is at least one cell further *)
    assert (Hlt : (S (Z.to_nat k) <= Z.to_nat k')%nat) by lia.
    assert (Hmid : v <= a').
    { destruct Hv as [[En ->] | (b & Eb & ->)].
      - apply (sorted_lookup_le s (Z.to_nat k) (Z.to_nat k'));
          [exact Hs | lia | exact Ea | exact Ea'].
      - assert (Hab : a <= b)
          by (apply (sorted_lookup_le s (Z.to_nat k) (S (Z.to_nat k)));
              [exact Hs | lia | exact Ea | exact Eb]).
        assert (Hba : b <= a')
          by (apply (sorted_lookup_le s (S (Z.to_nat k)) (Z.to_nat k'));
              [exact Hs | exact Hlt | exact Eb | exact Ea']).
        pose proof (Qmult_le_0_compat (b - a) (1 - f) ltac:(lra) Hf1).
        assert (E : b - (a + (b - a) * f) == (b - a) * (1 - f)) by ring.
        lra. }
    lra.
Qed.

(** ** The thresholds of [add_severity_label] *)

Lemma users_cells (df : list Incident) x :
  x ∈ sort_values (dropna (column_num Affected_Users df)) ->
  exists r, r ∈ df /\ affected_users r = Some x.
Proof.
  intros Hx. apply elem_of_sorted_column in Hx.
  unfold column_num in Hx. apply list_elem_of_fmap in Hx as (r & Er & Hr).
  exists r. split; [exact Hr | now symmetry].
Qed.

Lemma users_cells_nonempty (df : list Incident) r :
  r ∈ df -> is_Some (affected_users r) ->
  sort_values (dropna (column_num Affected_Users df)) <> [].
Proof.
  intros Hr [x Ex] E.
  assert (Hx : x ∈ sort_values (dropna (column_num Affected_Users df))).
  { rewrite sort_values_perm. unfold dropna. apply list_elem_of_omap.
    exists (Some x). split; [|reflexivity].
    unfold column_num. apply list_elem_of_fmap. exists r.
    split; [now symmetry | exact Hr]. }
  rewrite E in Hx. inversion Hx.
Qed.

Lemma cut_bins_rejected col q1 q2 :
  ~ (-1 < q1 /\ q1 < q2) -> cut col (bins q1 q2) = Raise ValueError.
Proof.
  intros Hno. unfold cut, bins. simpl.
  destruct (Qle_bool (-1) q1) eqn:E1; [|reflexivity].
  destruct (Qle_bool q1 q2) eqn:E2; [|reflexivity].
  destruct (Qeq_bool (-1) q1) eqn:E3; [reflexivity|].
  destruct (Qeq_bool (-1) q2) eqn:E4; [reflexivity|].
  destruct (Qeq_bool q1 q2) eqn:E5; [reflexivity|].
  exfalso. apply Hno.
  apply Qle_bool_iff in E1. apply Qle_bool_iff in E2.
  assert (N3 : ~ -1 == q1)
    by (intros H; apply Qeq_bool_iff in H; congruence).
  assert (N5 : ~ q1 == q2)
    by (intros H; apply Qeq_bool_iff in H; congruence).
  split; lra.
Qed.

Lemma add_severity_label_inv df out :
  add_severity_label df = Ok out ->
  exists q1 q2, q33 df = Some q1 /\ q66 df = Some q2 /\ -1 < q1 /\ q1 < q2
                /\ out = map (label_row q1 q2) df.
Proof.
  intros H. unfold add_severity_label in H.
  destruct (q33 df) as [q1|] eqn:E1; [|discriminate].
  destruct (q66 df) as [q2|] eqn:E2; [|discriminate].
  destruct (Qlt_le_dec (-1) q1) as [H1|H1];
    [destruct (Qlt_le_dec q1 q2) as [H2|H2]|].
  - exists q1, q2. repeat split; try assumption.
    pose proof (add_severity_label_ok df q1 q2 E1 E2 H1 H2) as Hok.
    unfold add_severity_label in Hok. rewrite E1, E2 in Hok. congruence.
  - fold (bins q1 q2) in H. rewrite cut_bins_rejected in H by lra.
    discriminate.
  - fold (bins q1 q2) in H. rewrite cut_bins_rejected in H by lra.
    discriminate.
Qed.

(** X11: [add_severity_label] returns a table exactly when the 33rd
    percentile of Number of Affected Users exists, lies above -1 and
    strictly below the 66th; the table it returns is the input with the
    code of [pd.cut] on every row. In every other case (a column without
    cells, equal percentiles, a percentile at or below -1) it raises, and
    the exception is always ValueError. *)
Theorem add_severity_label_returns_iff (df : list Incident) :
  (forall out,
     add_severity_label df = Ok out
     <-> exists q1 q2, q33 df = Some q1 /\ q66 df = Some q2
                       /\ -1 < q1 /\ q1 < q2
                       /\ out = map (label_row q1 q2) df)
  /\ (forall e, add_severity_label df = Raise e -> e = ValueError).
Proof.
  split.
  - intros out. split.
    + unfold add_severity_label.
      destruct (q33 df) as [q1|] eqn:E1; [|discriminate].
      destruct (q66 df) as [q2|] eqn:E2; [|discriminate].
      fold (bins q1 q2). intros H.
      destruct (Qlt_le_dec (-1) q1) as [H1|H1].
      * destruct (Qlt_le_dec q1 q2) as [H2|H2].
        -- exists q1, q2. repeat split; try assumption.
           rewrite (cut_bins_ok _ q1 q2 H1 H2) in H. simpl in H.
           unfold column_num in H. rewrite map_map, zip_with_column in H.
           now injection H as <-.
        -- rewrite cut_bins_rejected in H by lra. discriminate.
      * rewrite cut_bins_rejected in H by lra. discriminate.
    + intros (q1 & q2 & E1 & E2 & H1 & H2 & ->).
      now apply add_severity_label_ok.
  - intros e. unfold add_severity_label.
    destruct (q33 df) as [q1|]; [|now intros [= <-]].
    destruct (q66 df) as [q2|]; [|now intros [= <-]].
    unfold cut.
    destruct (negb (is_monotonic_increasing _)); [now intros [= <-]|].
    destruct (has_duplicates _); [now intros [= <-]|].
    discriminate.
Qed.

(** X12: as soon as one row has a cell in Number of Affected Users, both
    thresholds exist, the 33rd percentile is not above the 66th, and both
    lie between the least and the greatest cell of the column. *)
Theorem severity_thresholds_ordered (df : list Incident) :
  (exists r, r ∈ df /\ is_Some (affected_users r)) ->
  exists q1 q2,
    q33 df = Some q1 /\ q66 df = Some q2 /\ q1 <= q2
    /\ (forall lo, (forall r x, r ∈ df -> affected_users r = Some x -> lo <= x)
                   -> lo <= q1)
    /\ (forall hi, (forall r x, r ∈ df -> affected_users r = Some x -> x <= hi)
                   -> q2 <= hi).
Proof.
  intros (r & Hr & Hx).
  pose proof (users_cells_nonempty df r Hr Hx) as Hne.
  destruct (quantile_sorted_is_Some _ (33 # 100) Hne ltac:(lra) ltac:(lra))
    as [q1 E1].
  destruct (quantile_sorted_is_Some _ (66 # 100) Hne ltac:(lra) ltac:(lra))
    as [q2 E2].
  exists q1, q2. split; [exact E1|]. split; [exact E2|]. split; [|split].
  - eapply (quantile_sorted_mono _ (33 # 100) (66 # 100));
      [apply sort_values_sorted | | | exact E1 | exact E2]; lra.
  - intros lo Hlo.
    apply (quantile_sorted_lower
               (sort_values (dropna (column_num Affected_Users df)))
               (33 # 100) q1 lo); [lra | | exact E1].
    intros x Hin. apply users_cells in Hin as (r' & Hr' & Ex').
    exact (Hlo r' x Hr' Ex').
  - intros hi Hhi.
    apply (quantile_sorted_upper
               (sort_values (dropna (column_num Affected_Users df)))
               (66 # 100) q2 hi); [lra | | exact E2].
    intros x Hin. apply users_cells in Hin as (r' & Hr' & Ex').
    exact (Hhi r' x Hr' Ex').
Qed.

Lemma severity_thresholds_ordered_witness :
  (exists r, r ∈ Samples.users_table /\ is_Some (affected_users r))
  /\ exists q1 q2,
       q33 Samples.users_table = Some q1 /\ q66 Samples.users_table = Some q2
       /\ q1 <= q2
       /\ (forall lo,
             (forall r x, r ∈ Samples.users_table ->
                affected_users r = Some x -> lo <= x) -> lo <= q1)
       /\ (forall hi,
             (forall r x, r ∈ Samples.users_table ->
                affected_users r = Some x -> x <= hi) -> q2 <= hi).
Proof.
  assert (H : exists r, r ∈ Samples.users_table /\ is_Some (affected_users r)).
  { exists (Samples.incident_with 1 100 1).
    split; [apply list_elem_of_here | eexists; reflexivity]. }
  split; [exact H|].
  exact (severity_thresholds_ordered Samples.users_table H).
Defined.

(** X13: in a table that [add_severity_label] returns, a row with the
    least number of affected users is labelled Low and a row with the
    greatest number is labelled Medium or High: at least two of the three
    labels are always in use. *)
Theorem extreme_rows_labels (df : list Incident) (out : list Labelled)
    (i : nat) (r : Incident) (x : Q) :
  nonneg_users df -> add_severity_label df = Ok out ->
  df !! i = Some r -> affected_users r = Some x ->
  exists l, out !! i = Some l /\ row l = r
    /\ ((forall r' y, r' ∈ df -> affected_users r' = Some y -> x <= y) ->
        severity_name l = Some "Low")
    /\ ((forall r' y, r' ∈ df -> affected_users r' = Some y -> y <= x) ->
        severity_name l = Some "Medium" \/ severity_name l = Some "High").
Proof.
  intros Hdf Hout Hi Ex.
  apply add_severity_label_inv in Hout as (q1 & q2 & E1 & E2 & H1 & H2 & ->).
  exists (label_row q1 q2 r). split; [|split; [reflexivity|]].
  { rewrite list_lookup_fmap, Hi. reflexivity. }
  assert (Hr : r ∈ df) by (eapply list_elem_of_lookup_2, Hi).
  destruct (proj1 (Forall_forall _ _) Hdf r Hr) as (x' & Ex' & Hx).
  assert (x' = x) by congruence. subst x'.
  unfold severity_name. rewrite (label_row_code q1 q2 r x Ex Hx H2).
  split.
  - intros Hmin.
    assert (Hq : x <= q1).
    { apply (quantile_sorted_lower
               (sort_values (dropna (column_num Affected_Users df)))
               (33 # 100) q1 x); [lra | | exact E1].
      intros y Hin. apply users_cells in Hin as (r' & Hr' & Ey).
      exact (Hmin r' y Hr' Ey). }
    apply Qle_bool_iff in Hq. rewrite Hq. reflexivity.
  - intros Hmax.
    assert (Hq : q2 <= x).
    { apply (quantile_sorted_upper
               (sort_values (dropna (column_num Affected_Users df)))
               (66 # 100) q2 x); [lra | | exact E2].
      intros y Hin. apply users_cells in Hin as (r' & Hr' & Ey).
      exact (Hmax r' y Hr' Ey). }
    assert (E : Qle_bool x q1 = false).
    { apply not_true_is_false. intros H. apply Qle_bool_iff in H. lra. }
    rewrite E. destruct (Qle_bool x q2); [left | right]; reflexivity.
Qed.

Lemma extreme_rows_labels_witness :
  (nonneg_users Samples.users_table
   /\ add_severity_label Samples.users_table = Ok users_labelled
   /\ Samples.users_table !! 0%nat = Some (Samples.incident_with 1 100 1)
   /\ affected_users (Samples.incident_with 1 100 1) = Some 100)
  /\ exists l, users_labelled !! 0%nat = Some l
       /\ row l = Samples.incident_with 1 100 1
       /\ ((forall r' y, r' ∈ Samples.users_table ->
              affected_users r' = Some y -> 100 <= y) ->
           severity_name l = Some "Low")
       /\ ((forall r' y, r' ∈ Samples.users_table ->
              affected_users r' = Some y -> y <= 100) ->
           severity_name l = Some "Medium" \/ severity_name l = Some "High").
Proof.
  assert (H : add_severity_label Samples.users_table = Ok users_labelled)
    by (vm_compute; reflexivity).
  split; [split; [exact users_table_nonneg
                  | split; [exact H | split; reflexivity]]|].
  exact (extreme_rows_labels Samples.users_table users_labelled 0
           (Samples.incident_with 1 100 1) 100
           users_table_nonneg H eq_refl eq_refl).
Defined.

(** ** The vocabularies of [encode_categoricals] *)

Lemma before_trans a b c : before a b -> before b c -> before a c.
Proof.
  unfold before. intros H1 H2.
  apply OrderedTypeEx.String_as_OT.cmp_lt.
  eapply OrderedTypeEx.String_as_OT.lt_trans;
    apply OrderedTypeEx.String_as_OT.cmp_lt; eassumption.
Qed.

Lemma before_irrefl a : ~ before a a.
Proof.
  unfold before. intros H.
  pose proof (String.compare_antisym a a) as E. rewrite H in E. discriminate.
Qed.

Lemma compare_Gt_before a b : String.compare a b = Gt -> before b a.
Proof.
  unfold before. intros H. rewrite String.compare_antisym, H. reflexivity.
Qed.

Lemma insert_class_sorted x l :
  StronglySorted before l -> StronglySorted before (insert_class x l).
Proof.
  induction 1 as [|y l Hs IH Hy]; simpl.
  - repeat constructor.
  - destruct (String.compare x y) eqn:E.
    + constructor; assumption.
    + constructor; [constructor; assumption|].
      constructor; [exact E|].
      eapply Forall_impl; [exact Hy|]. intros z Hz.
      exact (before_trans x y z E Hz).
    + constructor; [exact IH|].
      apply Forall_forall. intros z Hz.
      apply insert_class_elem in Hz as [-> | Hz].
      * now apply compare_Gt_before.
      * exact (proj1 (Forall_forall _ _) Hy z Hz).
Qed.

Lemma fit_classes_sorted col : StronglySorted before (fit_classes col).
Proof.
  induction col as [|x col IH]; simpl; [constructor|].
  now apply insert_class_sorted.
Qed.

Lemma sorted_NoDup l : StronglySorted before l -> NoDup l.
Proof.
  induction 1 as [|y l Hs IH Hy]; constructor; [|exact IH].
  intros Hin. exact (before_irrefl y (proj1 (Forall_forall _ _) Hy y Hin)).
Qed.






Lemma occurs_in_classes c df v :
  v ∈ fit_classes (omap (get_cat c) df) <-> occurs_in c df v.
Proof.
  rewrite fit_classes_elem, list_elem_of_omap. unfold occurs_in.
  split; intros (r & H1 & H2); exists r; tauto.
Qed.

(** ** What [encode_input] does with a vocabulary *)













End TrainerFacts.

(** * More about the Predictor *)

Module PredictorFacts.
Import Num Py Persisted Predictor PredictorSpec PredictorProofs Views.

(** ** One field of the record *)

Lemma contains_elem_str classes v :
  v ∈ classes -> contains classes (VStr v) = true.
Proof.
  intros H. unfold contains. apply existsb_exists. exists v.
  split; [now apply list_elem_of_In|]. simpl. apply String.eqb_refl.
Qed.

Lemma value_eqb_str v c : value_eqb v (VStr c) = true -> v = VStr c.
Proof.
  destruct v as [s| |]; simpl; try discriminate.
  intros H. apply String.eqb_eq in H. now subst.
Qed.

Lemma index_from_spec classes v i j :
  index_from i classes v = Ok j ->
  exists c, (i <= j)%nat /\ classes !! (j - i)%nat = Some c
            /\ value_eqb v (VStr c) = true.
Proof.
  revert i. induction classes as [|c rest IH]; intros i; simpl; [discriminate|].
  destruct (value_eqb v (VStr c)) eqn:E.
  - intros [= <-]. exists c. rewrite Nat.sub_diag. now repeat split.
  - intros H. apply IH in H as (c' & Hij & Hc' & Hv).
    exists c'. split; [lia|]. split; [|exact Hv].
    replace (j - i)%nat with (S (j - S i)) by lia. exact Hc'.
Qed.

Lemma encode_item_raises enc k v err :
  encode_item enc (k, v) = Raise err -> err = IndexError /\ enc !! k = Some [].
Proof.
  unfold encode_item. destruct (enc !! k) as [classes|] eqn:Ek; [|discriminate].
  destruct (contains classes v) eqn:Ev.
  - destruct (index_from_found classes v 0 Ev) as [j Hj].
    cbn [bind]. unfold index. rewrite Hj. discriminate.
  - destruct classes as [|first rest].
    + cbn. intros [= <-]. now split.
    + rewrite getitem_zero. cbn [bind]. unfold index. cbn [index_from value_eqb].
      rewrite String.eqb_refl. discriminate.
Qed.

Lemma encode_item_empty enc k v :
  enc !! k = Some [] -> encode_item enc (k, v) = Raise IndexError.
Proof. intros Ek. unfold encode_item. rewrite Ek. reflexivity. Qed.

Lemma encode_item_field enc kv kv' :
  encode_item enc kv = Ok kv' -> encoded_field enc kv kv'.
Proof.
  destruct kv as [k v]. intros H. split; [exact (encode_item_key _ _ _ _ H)|].
  cbn [fst snd]. unfold encode_item in H.
  destruct (enc !! k) as [classes|] eqn:Ek; [|now injection H as <-].
  destruct (contains classes v) eqn:Ev.
  - cbn [bind] in H. destruct (index classes v) as [j|] eqn:Ej; [|discriminate].
    cbn [bind] in H. injection H as <-. exists j. cbn [snd].
    apply index_from_spec in Ej as (c & _ & Hc & Hv).
    rewrite Nat.sub_0_r in Hc. split; [reflexivity|].
    split; [eapply lookup_lt_Some, Hc|]. split; [|discriminate].
    intros s -> _. apply value_eqb_str in Hv. now injection Hv as ->.
  - destruct classes as [|first rest]; [discriminate|].
    rewrite getitem_zero in H. cbn [bind] in H. unfold index in H.
    cbn [index_from value_eqb] in H. rewrite String.eqb_refl in H.
    cbn [bind] in H. injection H as <-. exists 0%nat. cbn [snd].
    split; [reflexivity|]. split; [simpl; lia|]. split; [|reflexivity].
    intros s -> Hin. apply contains_elem_str in Hin. congruence.
Qed.

(** X17: when [encode_input] returns, the encoded record has the fields
    of the input, in the same order and under the same keys. A field
    without vocabulary keeps its value. A field with a vocabulary holds a
    position of that vocabulary: the position of its value when the
    vocabulary has it, and 0 when it has not. *)
Theorem encode_input_fields (enc : gmap string (list string)) (d e : dict) :
  encode_input d enc = Ok e ->
  Forall2 (encoded_field enc) d e /\ keys e = keys d /\ length e = length d.
Proof.
  intros H. assert (HF : Forall2 (encoded_field enc) d e).
  { unfold encode_input in H. apply for_each_Ok in H.
    induction H as [|kv kv' d e Hkv _ IH]; constructor; [|exact IH].
    now apply encode_item_field. }
  split; [exact HF|]. split.
  - unfold keys. clear H.
    induction HF as [|kv kv' d e [Hk _] _ IH]; simpl; [reflexivity|].
    now rewrite Hk, IH.
  - symmetry. eapply Forall2_length, HF.
Qed.

Lemma encode_input_fields_witness :
  encode_input scenario sample_encoders = Ok scenario_encoded
  /\ Forall2 (encoded_field sample_encoders) scenario scenario_encoded
  /\ keys scenario_encoded = keys scenario
  /\ length scenario_encoded = length scenario.
Proof.
  assert (H : encode_input scenario sample_encoders = Ok scenario_encoded)
    by (vm_compute; reflexivity).
  split; [exact H|].
  exact (encode_input_fields sample_encoders scenario scenario_encoded H).
Defined.

(** X18: [encode_input] fails on exactly one kind of record: one with a
    field whose vocabulary is empty. The exception is then IndexError,
    whatever the value of the field; an unknown value alone never makes it
    fail. *)
Theorem encode_input_raises_iff (enc : gmap string (list string)) (d : dict) :
  (forall err, encode_input d enc = Raise err -> err = IndexError)
  /\ ((exists err, encode_input d enc = Raise err)
      <-> exists k v, (k, v) ∈ d /\ enc !! k = Some []).
Proof.
  unfold encode_input. induction d as [|[k v] d [IH1 IH2]].
  - split; [discriminate|]. split.
    + intros [err H]. discriminate.
    + intros (k & v & Hin & _). inversion Hin.
  - cbn [for_each].
    destruct (encode_item enc (k, v)) as [kv'|err0] eqn:E; cbn [bind].
    + destruct (for_each (encode_item enc) d) as [e|err1] eqn:Ed; cbn [bind].
      * split; [discriminate|]. split.
        -- intros [err H]. discriminate.
        -- intros (k' & v' & Hin & Hk').
           apply elem_of_cons in Hin as [[= -> ->] | Hin].
           ++ rewrite (encode_item_empty _ _ _ Hk') in E. discriminate.
           ++ destruct (proj2 IH2 (ex_intro _ k' (ex_intro _ v'
                          (conj Hin Hk')))) as [err H]. discriminate.
      * split.
        -- intros err [= <-]. now apply IH1.
        -- split.
           ++ intros _. destruct (proj1 IH2 (ex_intro _ err1 eq_refl))
                as (k' & v' & Hin & Hk').
              exists k', v'. split; [now apply list_elem_of_further | exact Hk'].
           ++ intros _. now exists err1.
    + apply encode_item_raises in E as [-> Ek]. split.
      * now intros err [= <-].
      * split.
        -- intros _. exists k, v. split; [apply list_elem_of_here | exact Ek].
        -- intros _. now exists IndexError.
Qed.

(** ** The selected features *)

Lemma keys_dict_get (d : dict) f : f ∈ keys d <-> is_Some (dict_get d f).
Proof.
  unfold keys, dict_get. induction d as [|[k v] d IH]; cbn [map List.find fst].
  - split; [intros H; inversion H | intros [? ?]; discriminate].
  - rewrite elem_of_cons. destruct (String.eqb k f) eqn:E.
    + apply String.eqb_eq in E as ->. split; [|now left].
      intros _. eexists; reflexivity.
    + apply String.eqb_neq in E. rewrite <- IH. split; [|now right].
      intros [-> | H]; [contradiction | exact H].
Qed.

Lemma select_raises feats rows err :
  select feats rows = Raise err -> err = KeyError.
Proof.
  unfold select. destruct (forallb _ feats); [discriminate|]. now intros [= <-].
Qed.

Lemma forallb_ext_elem {A} (p q : A -> bool) l :
  (forall x, x ∈ l -> p x = q x) -> forallb p l = forallb q l.
Proof.
  induction l as [|x l IH]; intros H; simpl; [reflexivity|].
  rewrite (H x (list_elem_of_here _ _)), IH; [reflexivity|].
  intros y Hy. apply H. now apply list_elem_of_further.
Qed.

Lemma map_ext_elem {A B} (f g : A -> B) l :
  (forall x, x ∈ l -> f x = g x) -> map f l = map g l.
Proof.
  induction l as [|x l IH]; intros H; simpl; [reflexivity|].
  rewrite (H x (list_elem_of_here _ _)), IH; [reflexivity|].
  intros y Hy. apply H. now apply list_elem_of_further.
Qed.

Lemma encode_input_field_value enc d e f :
  encode_input d enc = Ok e ->
  dict_get e f
  = match dict_get d f with
    | Some v => match encode_item enc (f, v) with
                | Ok kv' => Some (snd kv')
                | Raise _ => None
                end
    | None => None
    end.
Proof.
  intros He. destruct (dict_get d f) as [v|] eqn:Ev.
  - destruct (encode_input_get _ _ _ _ _ He Ev) as (v' & Hv' & Hitem).
    now rewrite Hitem.
  - destruct (dict_get e f) eqn:Ee; [|reflexivity].
    assert (Hin : f ∈ keys e) by (apply keys_dict_get; eexists; exact Ee).
    rewrite (encode_input_keys _ _ _ He) in Hin.
    apply keys_dict_get in Hin as [? Hin]. congruence.
Qed.

(** X19: with vocabularies that are not empty, a record that lacks one
    of the features the classifier was trained on makes
    [predict_severity] raise KeyError: no default is filled in. *)
Theorem predict_severity_missing_feature (art : Artifacts) (input : dict)
    (f : string) :
  (forall k classes, encoders art !! k = Some classes -> classes <> []) ->
  f ∈ features art -> f ∉ keys input ->
  predict_severity art input = Raise KeyError.
Proof.
  intros Hvoc Hf Hno.
  destruct (encode_input_total (encoders art) input Hvoc) as [e He].
  unfold predict_severity. rewrite He. cbn [bind].
  destruct (select (features art) [e]) as [X|err] eqn:Es.
  - exfalso. apply select_Ok in Es as [Hall _].
    apply Hno. rewrite <- (encode_input_keys _ _ _ He).
    apply frame_columns_singleton, Hall, Hf.
  - cbn [bind]. f_equal. eapply select_raises, Es.
Qed.

Lemma predict_severity_missing_feature_witness :
  ((forall k classes,
      encoders sample_artifacts !! k = Some classes -> classes <> [])
   /\ "Year" ∈ features sample_artifacts
   /\ "Year" ∉ keys scenario_without_year)
  /\ predict_severity sample_artifacts scenario_without_year = Raise KeyError.
Proof.
  assert (H1 : "Year" ∈ features sample_artifacts)
    by apply list_elem_of_further, list_elem_of_here.
  assert (H2 : "Year" ∉ keys scenario_without_year).
  { intros H. cbv in H.
    repeat (apply elem_of_cons in H as [H | H]; [discriminate H|]).
    inversion H. }
  split; [split; [exact (proj1 sample_artifacts_ok) | split; assumption]|].
  exact (predict_severity_missing_feature sample_artifacts
           scenario_without_year "Year" (proj1 sample_artifacts_ok) H1 H2).
Defined.

(** X20: with vocabularies that are not empty, [predict_severity] reads
    the trained features of the record and nothing else: two records that
    agree on every trained feature get the same answer, label or
    exception, whatever the order of their fields and whatever other
    fields they carry. *)
Theorem predict_severity_reads_features_only (art : Artifacts) (d d' : dict) :
  (forall k classes, encoders art !! k = Some classes -> classes <> []) ->
  (forall f, f ∈ features art -> dict_get d f = dict_get d' f) ->
  predict_severity art d = predict_severity art d'.
Proof.
  intros Hvoc Hsame.
  destruct (encode_input_total (encoders art) d Hvoc) as [e He].
  destruct (encode_input_total (encoders art) d' Hvoc) as [e' He'].
  assert (Hval : forall f, f ∈ features art -> dict_get e f = dict_get e' f).
  { intros f Hf.
    rewrite (encode_input_field_value _ _ _ f He),
            (encode_input_field_value _ _ _ f He'), (Hsame f Hf).
    reflexivity. }
  assert (Hsel : select (features art) [e] = select (features art) [e']).
  { unfold select.
    rewrite (forallb_ext_elem _
               (fun f => bool_decide (f ∈ frame_columns [e'])) (features art)).
    - cbn [map]. unfold feature_vector.
      rewrite (map_ext_elem _ (fun f => default VNaN (dict_get e' f))
                 (features art)); [reflexivity|].
      intros f Hf. now rewrite (Hval f Hf).
    - intros f Hf. apply bool_decide_ext.
      rewrite !frame_columns_singleton, !keys_dict_get, (Hval f Hf).
      reflexivity. }
  unfold predict_severity. rewrite He, He'. cbn [bind]. now rewrite Hsel.
Qed.

Lemma scenario_reordered_same f :
  f ∈ features sample_artifacts ->
  dict_get scenario f = dict_get scenario_reordered f.
Proof.
  intros Hf. simpl in Hf.
  repeat (apply elem_of_cons in Hf as [-> | Hf]; [reflexivity|]).
  inversion Hf.
Qed.

Lemma predict_severity_reads_features_only_witness :
  ((forall k classes,
      encoders sample_artifacts !! k = Some classes -> classes <> [])
   /\ (forall f, f ∈ features sample_artifacts ->
         dict_get scenario f = dict_get scenario_reordered f))
  /\ predict_severity sample_artifacts scenario
     = predict_severity sample_artifacts scenario_reordered.
Proof.
  split; [split; [exact (proj1 sample_artifacts_ok)
                 | exact scenario_reordered_same]|].
  exact (predict_severity_reads_features_only sample_artifacts scenario
           scenario_reordered (proj1 sample_artifacts_ok)
           scenario_reordered_same).
Defined.

(** ** The batch *)

(** X21: [predict_batch] on a table without rows does not return an
    empty table: the encoded table has no columns, and selecting the
    trained features from it raises KeyError. *)
Theorem predict_batch_no_rows (art : Artifacts) (df : DataFrame) :
  data df = [] -> features art <> [] -> predict_batch art df = Raise KeyError.
Proof.
  intros Hdata Hfeat. unfold predict_batch, iterrows. rewrite Hdata.
  cbn [map for_each bind]. unfold select.
  destruct (features art) as [|f feats]; [contradiction|].
  cbn [forallb]. unfold frame_columns. cbn [map concat remove_dups].
  rewrite bool_decide_eq_false_2 by apply not_elem_of_nil. reflexivity.
Qed.

Lemma predict_batch_no_rows_witness :
  (data empty_frame = [] /\ features sample_artifacts <> [])
  /\ predict_batch sample_artifacts empty_frame = Raise KeyError.
Proof.
  assert (H : features sample_artifacts <> []) by discriminate.
  split; [split; [reflexivity | exact H]|].
  exact (predict_batch_no_rows sample_artifacts empty_frame eq_refl H).
Defined.

Lemma position_same_index a b cols i :
  position a cols = Some i -> position b cols = Some i -> a = b.
Proof.
  revert i. induction cols as [|c cols IH]; intros i; simpl; [discriminate|].
  destruct (String.eqb c a) eqn:Ea, (String.eqb c b) eqn:Eb.
  - apply String.eqb_eq in Ea, Eb. congruence.
  - intros [= <-]. destruct (position b cols); discriminate.
  - destruct (position a cols); [|discriminate]. intros [= <-]. discriminate.
  - destruct (position a cols) as [j|] eqn:Ej; [|discriminate].
    destruct (position b cols) as [j'|] eqn:Ej'; [|discriminate].
    intros [= <-] [= ->]. now apply (IH j).
Qed.

Lemma position_app_other name other cols :
  other <> name ->
  position other (cols ++ [name])%list = position other cols.
Proof.
  intros Hne. induction cols as [|c cols IH]; simpl.
  - destruct (String.eqb name other) eqn:E; [|reflexivity].
    apply String.eqb_eq in E. congruence.
  - destruct (String.eqb c other); [reflexivity | now rewrite IH].
Qed.

Lemma mapM_zip_with_same (f : list value -> value -> list value) (j : nat)
    (rows : list (list value)) (cells : list value) :
  length cells = length rows ->
  Forall (fun r => forall v, f r v !! j = r !! j) rows ->
  mapM (fun r : list value => r !! j) (zip_with f rows cells)
  = mapM (fun r : list value => r !! j) rows.
Proof.
  intros El Hrows. revert cells El.
  induction Hrows as [|r rows Hr _ IH]; intros [|v cells] El;
    simpl in *; try discriminate; [reflexivity|].
  rewrite Hr, (IH cells) by lia. reflexivity.
Qed.

(** X22: the table that [predict_batch] returns is the input with the one
    column Predicted Severity written: it has the same number of rows, the
    same columns (with Predicted Severity added at the end when the input
    does not have it), and every other column holds the cells it held. *)
Theorem predict_batch_keeps_table (art : Artifacts) (df out : DataFrame) :
  rectangular df -> predict_batch art df = Ok out ->
  length (data out) = length (data df)
  /\ columns out
     = (if bool_decide ("Predicted Severity" ∈ columns df) then columns df
        else columns df ++ ["Predicted Severity"])%list
  /\ forall name, name <> "Predicted Severity" ->
       column out name = column df name.
Proof.
  intros [Hnd Hrect] Hout. rewrite predict_batch_decoded in Hout.
  destruct (decoded_preds art df) as [labels|] eqn:Ed; [|discriminate].
  cbn [bind] in Hout. unfold assign in Hout.
  destruct (Nat.eqb (length (map VStr labels)) (length (data df))) eqn:El;
    [|discriminate].
  apply Nat.eqb_eq in El. cbn [negb] in Hout.
  destruct (position "Predicted Severity" (columns df)) as [i|] eqn:Ep;
    injection Hout as <-; cbn [data columns].
  - split; [|split].
    + rewrite length_zip_with. lia.
    + rewrite bool_decide_eq_true_2; [reflexivity|].
      clear -Ep. revert i Ep.
      induction (columns df) as [|c cols IH]; intros i; simpl; [discriminate|].
      destruct (String.eqb c "Predicted Severity") eqn:E.
      * intros _. apply String.eqb_eq in E as ->. apply list_elem_of_here.
      * destruct (position "Predicted Severity" cols) as [j|]; [|discriminate].
        intros _. apply list_elem_of_further. now apply (IH j).
    + intros name Hname. unfold column. cbn [data columns].
      destruct (position name (columns df)) as [j|] eqn:Ej; [|reflexivity].
      cbn [mbind option_bind]. apply mapM_zip_with_same; [exact El|].
      apply Forall_forall. intros r _ v. apply list_lookup_insert_ne.
      intros <-. apply Hname. exact (position_same_index _ _ _ _ Ej Ep).
  - split; [|split].
    + rewrite length_zip_with. lia.
    + rewrite bool_decide_eq_false_2; [reflexivity|].
      clear -Ep. induction (columns df) as [|c cols IH]; simpl in *.
      * apply not_elem_of_nil.
      * destruct (String.eqb c "Predicted Severity") eqn:E; [discriminate|].
        apply String.eqb_neq in E.
        destruct (position "Predicted Severity" cols); [discriminate|].
        intros H. apply elem_of_cons in H as [H | H]; [congruence|].
        now apply IH.
    + intros name Hname. unfold column. cbn [data columns].
      rewrite (position_app_other _ _ _ Hname).
      destruct (position name (columns df)) as [j|] eqn:Ej; [|reflexivity].
      cbn [mbind option_bind]. apply mapM_zip_with_same; [exact El|].
      eapply Forall_impl; [exact Hrect|]. intros r Hr v. simpl in Hr.
      apply lookup_app_l. rewrite Hr. eapply position_lt, Ej.
Qed.

Lemma predict_batch_keeps_table_witness :
  (rectangular sample_frame
   /\ predict_batch sample_artifacts sample_frame = Ok sample_batch)
  /\ length (data sample_batch) = length (data sample_frame)
  /\ columns sample_batch
     = (if bool_decide ("Predicted Severity" ∈ columns sample_frame)
        then columns sample_frame
        else columns sample_frame ++ ["Predicted Severity"])%list
  /\ forall name, name <> "Predicted Severity" ->
       column sample_batch name = column sample_frame name.
Proof.
  assert (H : predict_batch sample_artifacts sample_frame = Ok sample_batch)
    by (vm_compute; reflexivity).
  split; [split; [exact sample_frame_rectangular | exact H]|].
  exact (predict_batch_keeps_table sample_artifacts sample_frame sample_batch
           sample_frame_rectangular H).
Defined.

End PredictorFacts.

(** * The summary tables *)

Module EdaFacts.
Import Num Cleaner Persisted Predictor Eda Views.

(** ** Columns of an aggregated table *)

Lemma mapM_map_Some {A B C} (h : A -> B) (f : B -> option C) (g : A -> C)
    (l : list A) :
  (forall x, f (h x) = Some (g x)) -> mapM f (map h l) = Some (map g l).
Proof.
  intros H. induction l as [|x l IH]; [reflexivity|].
  cbn [map mapM]. rewrite H. cbn [mbind option_bind]. rewrite IH. reflexivity.
Qed.

Lemma column_agg_key key groups named :
  column (agg key groups named) key = Some (map fst groups).
Proof.
  unfold column, agg. cbn [columns data position].
  rewrite String.eqb_refl. cbn [mbind option_bind].
  apply mapM_map_Some. reflexivity.
Qed.

Lemma column_agg_named key groups named name a i :
  String.eqb key name = false ->
  position name (map fst named) = Some i -> named !! i = Some (name, a) ->
  column (agg key groups named) name
  = Some (map (fun g => aggregate a (snd g)) groups).
Proof.
  intros Hk Hp Hi. unfold column, agg. cbn [columns data position].
  rewrite Hk, Hp. cbn [fmap option_fmap option_map mbind option_bind].
  apply mapM_map_Some. intros g.
  change (((fun na : string * aggregation => aggregate (snd na) (snd g))
             <$> named) !! i = Some (aggregate a (snd g))).
  rewrite list_lookup_fmap, Hi. reflexivity.
Qed.

Lemma count_with_year group :
  count (column_num Year group) = length (with_year group).
Proof.
  unfold count, column_num, with_year, dropna.
  induction group as [|r group IH]; [reflexivity|].
  cbn [map omap list_omap get_num]. rewrite filter_cons.
  destruct (year r) as [y|] eqn:E; cbn [id].
  - rewrite decide_True by (eexists; reflexivity). simpl. now rewrite IH.
  - rewrite decide_False by (intros [? ?]; discriminate). exact IH.
Qed.

Lemma groupby_keys c df :
  map fst (groupby c df) = map VStr (Trainer.fit_classes (omap (get_cat c) df)).
Proof. unfold groupby. rewrite map_map. reflexivity. Qed.

Lemma summary_rows c key rest df :
  String.eqb key "Total_Incidents" = false ->
  let out := agg key (groupby c df) (("Total_Incidents", Count Year) :: rest) in
  exists ks,
    column out key = Some (map VStr ks)
    /\ StronglySorted before ks
    /\ (forall k, k ∈ ks <-> occurs_in c df k)
    /\ column out "Total_Incidents"
       = Some (map (fun k => VNum (inject_Z (Z.of_nat (dated_rows c k df)))) ks)
    /\ length (data out) = length ks.
Proof.
  intros Hk out. exists (Trainer.fit_classes (omap (get_cat c) df)).
  split; [|split; [|split; [|split]]].
  - unfold out. rewrite column_agg_key. f_equal. apply groupby_keys.
  - apply TrainerFacts.fit_classes_sorted.
  - intros k. apply TrainerFacts.occurs_in_classes.
  - unfold out.
    rewrite (column_agg_named key (groupby c df)
               (("Total_Incidents", Count Year) :: rest)
               "Total_Incidents" (Count Year) 0 Hk eq_refl eq_refl).
    f_equal. unfold groupby. rewrite map_map. apply map_ext. intros k.
    cbn [snd aggregate]. rewrite count_with_year. reflexivity.
  - unfold out, agg, groupby. cbn [data]. now rewrite !length_map.
Qed.

(** X23: each of the five summaries by a categorical column has one row
    per value of that column, in strictly ascending order of the values
    (so no value twice), and no row for a missing cell. Its
    Total_Incidents is, for every value, the number of rows that hold the
    value and have a year: a row without year is not counted. *)
Theorem category_summary_rows (c : CatCol) (key : string)
    (f : list Incident -> DataFrame) (df : list Incident) :
  (c, key, f) ∈ categorical_summaries ->
  exists ks,
    column (f df) key = Some (map VStr ks)
    /\ StronglySorted before ks
    /\ (forall k, k ∈ ks <-> occurs_in c df k)
    /\ column (f df) "Total_Incidents"
       = Some (map (fun k => VNum (inject_Z (Z.of_nat (dated_rows c k df))))
                 ks)
    /\ length (data (f df)) = length ks.
Proof.
  intros Hin. unfold categorical_summaries in Hin.
  repeat (apply elem_of_cons in Hin as [Hin | Hin];
          [injection Hin as -> -> ->; apply summary_rows; reflexivity|]).
  inversion Hin.
Qed.

Lemma category_summary_rows_witness :
  (Country, "Country", generate_country_summary) ∈ categorical_summaries
  /\ exists ks,
       column (generate_country_summary training_table) "Country"
       = Some (map VStr ks)
       /\ StronglySorted before ks
       /\ (forall k, k ∈ ks <-> occurs_in Country training_table k)
       /\ column (generate_country_summary training_table) "Total_Incidents"
          = Some (map (fun k => VNum (inject_Z (Z.of_nat
                                  (dated_rows Country k training_table)))) ks)
       /\ length (data (generate_country_summary training_table)) = length ks.
Proof.
  assert (H : (Country, "Country", generate_country_summary)
              ∈ categorical_summaries) by apply list_elem_of_here.
  split; [exact H|].
  exact (category_summary_rows Country "Country" generate_country_summary
           training_table H).
Defined.

(** ** Sums over groups *)

Lemma sum_Q_map_ext {A} (f g : A -> Q) l :
  (forall x, f x == g x) ->
  Clusterer.sum_Q (map f l) == Clusterer.sum_Q (map g l).
Proof.
  intros H. induction l as [|x l IH]; simpl; [reflexivity|].
  rewrite (H x), IH. reflexivity.
Qed.

Lemma sum_Q_map_ext_elem {A} (f g : A -> Q) l :
  (forall x, x ∈ l -> f x == g x) ->
  Clusterer.sum_Q (map f l) == Clusterer.sum_Q (map g l).
Proof.
  induction l as [|x l IH]; intros H; simpl; [reflexivity|].
  rewrite (H x (list_elem_of_here _ _)), IH; [reflexivity|].
  intros y Hy. apply H. now apply list_elem_of_further.
Qed.

Lemma sum_Q_map_plus {A} (f g : A -> Q) l :
  Clusterer.sum_Q (map (fun x => f x + g x) l)
  == Clusterer.sum_Q (map f l) + Clusterer.sum_Q (map g l).
Proof.
  induction l as [|x l IH]; simpl; [reflexivity|]. rewrite IH. ring.
Qed.

Lemma sum_as_amounts c l :
  sum (column_num c l) == Clusterer.sum_Q (map (amount c) l).
Proof.
  unfold sum, column_num, dropna, amount.
  induction l as [|r l IH]; [reflexivity|].
  cbn [map omap list_omap]. destruct (get_num c r) as [x|]; cbn [id default].
  - simpl. rewrite IH. reflexivity.
  - simpl. rewrite IH. ring.
Qed.

Section Groups.
Context {K : Type} (P : K -> Incident -> Prop).
Context (P_dec : forall k r, Decision (P k r)).

Lemma sum_indicator (a : Q) (r : Incident) ks :
  Clusterer.sum_Q (map (fun k => if P_dec k r then a else 0) ks)
  == a * inject_Z (Z.of_nat (length (filter (fun k => P k r) ks))).
Proof.
  induction ks as [|k ks IH]; [simpl; ring|].
  cbn [map Clusterer.sum_Q fold_right]. rewrite filter_cons.
  fold (Clusterer.sum_Q (map (fun k => if P_dec k r then a else 0) ks)).
  rewrite IH. unfold decide. destruct (P_dec k r).
  - cbn [length]. rewrite Nat2Z.inj_succ, <- Z.add_1_r, inject_Z_plus.
    change (inject_Z 1) with 1. ring.
  - ring.
Qed.

Lemma groups_double_count (w : Incident -> Q) ks df :
  Clusterer.sum_Q
    (map (fun k => Clusterer.sum_Q (map w (filter (P k) df))) ks)
  == Clusterer.sum_Q
       (map (fun r => w r * inject_Z (Z.of_nat
                              (length (filter (fun k => P k r) ks)))) df).
Proof.
  induction df as [|r df IH].
  - cbn [map Clusterer.sum_Q fold_right].
    induction ks as [|k ks IHk]; [reflexivity|].
    cbn [map Clusterer.sum_Q fold_right].
    fold (Clusterer.sum_Q
            (map (fun k => Clusterer.sum_Q (map w (filter (P k) []))) ks)).
    rewrite IHk, filter_nil. simpl. ring.
  - cbn [map Clusterer.sum_Q fold_right].
    fold (Clusterer.sum_Q
            (map (fun r => w r * inject_Z (Z.of_nat
                                   (length (filter (fun k => P k r) ks)))) df)).
    rewrite <- IH, <- (sum_indicator (w r) r ks), <- sum_Q_map_plus.
    apply sum_Q_map_ext. intros k. rewrite filter_cons.
    unfold decide. destruct (P_dec k r); simpl; ring.
Qed.

End Groups.

Lemma filter_absent (k0 : string) (o : option string) ks :
  (forall k, k ∈ ks -> o <> Some k) ->
  filter (fun k => o = Some k) ks = [].
Proof.
  induction ks as [|k ks IH]; intros H; [reflexivity|].
  rewrite filter_cons, decide_False by (apply H, list_elem_of_here).
  apply IH. intros k' Hk'. apply H. now apply list_elem_of_further.
Qed.

Lemma key_multiplicity (o : option string) ks :
  NoDup ks -> (forall k, o = Some k -> k ∈ ks) ->
  length (filter (fun k => o = Some k) ks)
  = match o with Some _ => 1 | None => 0 end%nat.
Proof.
  intros Hnd Hin. destruct o as [k0|].
  - specialize (Hin k0 eq_refl).
    induction Hnd as [|k ks Hk Hnd IH]; [inversion Hin|].
    rewrite filter_cons. destruct (decide (Some k0 = Some k)) as [E|E].
    + injection E as <-. cbn [length]. f_equal.
      rewrite (filter_absent k0); [reflexivity|].
      intros k Hk' [= ->]. contradiction.
    + apply IH. apply elem_of_cons in Hin as [-> | Hin];
        [contradiction | exact Hin].
  - rewrite (filter_absent ""); [reflexivity | discriminate].
Qed.

Lemma sum_of_present (w : Incident -> Q) (c : CatCol) df :
  Clusterer.sum_Q
    (map (fun r => w r * inject_Z (Z.of_nat (match get_cat c r with Some _ => 1 | None => 0 end)%nat)) df)
  == Clusterer.sum_Q (map w (with_key c df)).
Proof.
  unfold with_key. induction df as [|r df IH]; [reflexivity|].
  cbn [map Clusterer.sum_Q fold_right]. rewrite filter_cons.
  fold (Clusterer.sum_Q
          (map (fun r => w r * inject_Z (Z.of_nat
                                 (match get_cat c r with Some _ => 1 | None => 0 end)%nat)) df)).
  rewrite IH. destruct (get_cat c r) as [k|] eqn:E.
  - rewrite decide_True by (eexists; reflexivity). simpl. ring.
  - rewrite decide_False by (intros [? ?]; discriminate). simpl. ring.
Qed.

Lemma total_numbers {A} (q : A -> Q) l :
  total (map (fun x => VNum (q x)) l) = Clusterer.sum_Q (map q l).
Proof.
  unfold total. induction l as [|x l IH]; [reflexivity|].
  cbn [map omap list_omap]. simpl. f_equal. exact IH.
Qed.

Lemma group_sums_add_up (w : Incident -> Q) (c : CatCol) df :
  Clusterer.sum_Q
    (map (fun k => Clusterer.sum_Q (map w (group_rows c k df)))
       (Trainer.fit_classes (omap (get_cat c) df)))
  == Clusterer.sum_Q (map w (with_key c df)).
Proof.
  unfold group_rows.
  rewrite (groups_double_count (fun k r => get_cat c r = Some k) _ w).
  rewrite <- sum_of_present. apply sum_Q_map_ext_elem. intros r Hr.
  rewrite key_multiplicity; [reflexivity | |].
  - apply TrainerFacts.sorted_NoDup, TrainerFacts.fit_classes_sorted.
  - intros k Hk. apply TrainerFacts.occurs_in_classes. now exists r.
Qed.

Lemma with_key_all c df :
  Forall (fun r => is_Some (get_cat c r)) df -> with_key c df = df.
Proof.
  unfold with_key. induction 1 as [|r df Hr _ IH]; [reflexivity|].
  rewrite filter_cons, decide_True by exact Hr. now rewrite IH.
Qed.

Lemma summary_total c key named i df :
  String.eqb key "Total_Financial_Loss" = false ->
  position "Total_Financial_Loss" (map fst named) = Some i ->
  named !! i = Some ("Total_Financial_Loss", Sum Financial_Loss) ->
  exists cells,
    column (agg key (groupby c df) named) "Total_Financial_Loss" = Some cells
    /\ total cells == sum (column_num Financial_Loss (with_key c df)).
Proof.
  intros Hk Hp Hi. eexists. split.
  - exact (column_agg_named key _ named _ _ i Hk Hp Hi).
  - unfold groupby. rewrite map_map. cbn [snd aggregate].
    rewrite total_numbers, sum_as_amounts.
    rewrite <- (group_sums_add_up (amount Financial_Loss) c df).
    apply sum_Q_map_ext. intros k. apply sum_as_amounts.
Qed.

(** X24: the groups of a summary lose no money. In the summaries by
    country, by industry and by attack source, the cells of
    Total_Financial_Loss add up to the financial loss of all rows that
    have a cell in the grouping column; for a table without missing cells
    in that column, to the financial loss of the whole table. *)
Theorem summary_totals_add_up (c : CatCol) (f : list Incident -> DataFrame)
    (df : list Incident) :
  (c, f) ∈ loss_summaries ->
  exists cells,
    column (f df) "Total_Financial_Loss" = Some cells
    /\ total cells == sum (column_num Financial_Loss (with_key c df))
    /\ (Forall (fun r => is_Some (get_cat c r)) df ->
        total cells == sum (column_num Financial_Loss df)).
Proof.
  intros Hin.
  assert (H : exists cells,
             column (f df) "Total_Financial_Loss" = Some cells
             /\ total cells == sum (column_num Financial_Loss (with_key c df))).
  { unfold loss_summaries in Hin.
    repeat (apply elem_of_cons in Hin as [Hin | Hin];
            [injection Hin as -> ->;
             unfold generate_country_summary, generate_industry_summary,
               generate_attack_source_summary;
             eapply summary_total; reflexivity|]).
    inversion Hin. }
  destruct H as (cells & Hc & Ht). exists cells.
  split; [exact Hc|]. split; [exact Ht|].
  intros Hall. rewrite Ht, (with_key_all c df Hall). reflexivity.
Qed.

Lemma summary_totals_add_up_witness :
  (Country, generate_country_summary) ∈ loss_summaries
  /\ exists cells,
       column (generate_country_summary training_table)
         "Total_Financial_Loss" = Some cells
       /\ total cells
          == sum (column_num Financial_Loss (with_key Country training_table))
       /\ (Forall (fun r => is_Some (get_cat Country r)) training_table ->
           total cells == sum (column_num Financial_Loss training_table)).
Proof.
  assert (H : (Country, generate_country_summary) ∈ loss_summaries)
    by apply list_elem_of_here.
  split; [exact H|].
  exact (summary_totals_add_up Country generate_country_summary
           training_table H).
Defined.

(** ** The yearly trend *)

Lemma insert_year_elem x l y :
  y ∈ insert_year x l -> y = x \/ y ∈ l.
Proof.
  induction l as [|z l IH]; simpl.
  - intros H. apply elem_of_cons in H as [-> | H]; [now left | inversion H].
  - destruct (Qcompare x z).
    + now right.
    + intros H. apply elem_of_cons in H as [-> | H]; [now left | now right].
    + intros H. apply elem_of_cons in H as [-> | H].
      * right. apply list_elem_of_here.
      * destruct (IH H) as [-> | H']; [now left|].
        right. now apply list_elem_of_further.
Qed.

Lemma insert_year_covers x l y :
  (y == x \/ exists y', y' ∈ l /\ y == y') ->
  exists y', y' ∈ insert_year x l /\ y == y'.
Proof.
  induction l as [|z l IH]; simpl.
  - intros [H | (y' & Hy' & _)]; [|inversion Hy'].
    exists x. split; [apply list_elem_of_here | exact H].
  - destruct (Qcompare x z) eqn:E.
    + apply Qeq_alt in E. intros [H | H]; [|exact H].
      exists z. split; [apply list_elem_of_here | now rewrite H].
    + intros [H | (y' & Hy' & H)].
      * exists x. split; [apply list_elem_of_here | exact H].
      * exists y'. split; [now apply list_elem_of_further | exact H].
    + intros [H | (y' & Hy' & H)].
      * destruct (IH (or_introl H)) as (y' & Hy' & H').
        exists y'. split; [now apply list_elem_of_further | exact H'].
      * apply elem_of_cons in Hy' as [-> | Hy'].
        -- exists z. split; [apply list_elem_of_here | exact H].
        -- destruct (IH (or_intror (ex_intro _ y' (conj Hy' H))))
             as (y'' & Hy'' & H'').
           exists y''. split; [now apply list_elem_of_further | exact H''].
Qed.

Lemma insert_year_sorted x l :
  StronglySorted Qlt l -> StronglySorted Qlt (insert_year x l).
Proof.
  induction 1 as [|z l Hs IH Hz]; simpl.
  - repeat constructor.
  - destruct (Qcompare x z) eqn:E.
    + constructor; assumption.
    + apply Qlt_alt in E. constructor; [constructor; assumption|].
      constructor; [exact E|].
      eapply Forall_impl; [exact Hz|]. intros w Hw. simpl in Hw. lra.
    + apply Qgt_alt in E. constructor; [exact IH|].
      apply Forall_forall. intros w Hw.
      apply insert_year_elem in Hw as [-> | Hw]; [exact E|].
      exact (proj1 (Forall_forall _ _) Hz w Hw).
Qed.

Lemma unique_years_sorted df : StronglySorted Qlt (unique_years df).
Proof.
  unfold unique_years.
  induction (dropna (column_num Year df)) as [|x l IH]; simpl; [constructor|].
  now apply insert_year_sorted.
Qed.

Lemma unique_years_covers df r y :
  r ∈ df -> year r = Some y -> exists y', y' ∈ unique_years df /\ y == y'.
Proof.
  intros Hr Ey. unfold unique_years.
  assert (Hin : y ∈ dropna (column_num Year df)).
  { unfold dropna. apply list_elem_of_omap. exists (Some y).
    split; [|reflexivity]. unfold column_num. apply list_elem_of_fmap.
    exists r. split; [now symmetry | exact Hr]. }
  induction (dropna (column_num Year df)) as [|x l IH]; [inversion Hin|].
  cbn [fold_right]. apply insert_year_covers.
  apply elem_of_cons in Hin as [-> | Hin]; [left; reflexivity|].
  right. now apply IH.
Qed.

Lemma year_filter_absent (o : option Q) ys :
  (forall k, k ∈ ys -> cell_eqb o (Some k) = false) ->
  filter (fun k => cell_eqb o (Some k) = true) ys = [].
Proof.
  induction ys as [|k ys IH]; intros H; [reflexivity|].
  rewrite filter_cons, decide_False
    by (rewrite (H k (list_elem_of_here _ _)); discriminate).
  apply IH. intros k' Hk'. apply H. now apply list_elem_of_further.
Qed.

Lemma year_multiplicity (o : option Q) ys :
  StronglySorted Qlt ys ->
  (forall y, o = Some y -> exists y', y' ∈ ys /\ y == y') ->
  length (filter (fun k => cell_eqb o (Some k) = true) ys)
  = match o with Some _ => 1 | None => 0 end%nat.
Proof.
  intros Hs Hin. destruct o as [y|].
  - destruct (Hin y eq_refl) as (y' & Hy' & E). clear Hin.
    induction Hs as [|k ks Hs IH Hk]; [inversion Hy'|].
    rewrite filter_cons. cbn [cell_eqb].
    destruct (Qeq_bool y k) eqn:Ek.
    + rewrite decide_True by reflexivity. cbn [length]. f_equal.
      apply Qeq_bool_iff in Ek.
      rewrite (year_filter_absent (Some y)); [reflexivity|].
      intros k' Hk'. cbn [cell_eqb]. apply not_true_is_false. intros H.
      apply Qeq_bool_iff in H.
      pose proof (proj1 (Forall_forall _ _) Hk k' Hk') as Hlt. simpl in Hlt.
      lra.
    + rewrite decide_False by discriminate. apply IH.
      apply elem_of_cons in Hy' as [-> | Hy']; [|exact Hy'].
      apply Qeq_bool_iff in E. congruence.
  - rewrite (year_filter_absent None); [reflexivity|]. reflexivity.
Qed.

Lemma count_cat_as_sum c l :
  inject_Z (Z.of_nat (count_cat (map (get_cat c) l)))
  == Clusterer.sum_Q
       (map (fun r => match get_cat c r with Some _ => 1 | None => 0 end) l).
Proof.
  unfold count_cat. induction l as [|r l IH]; [reflexivity|].
  cbn [map omap list_omap]. destruct (get_cat c r); cbn [id].
  - cbn [length Clusterer.sum_Q fold_right].
    fold (Clusterer.sum_Q
            (map (fun r => match get_cat c r with
                           | Some _ => 1 | None => 0 end) l)).
    rewrite <- IH, Nat2Z.inj_succ, <- Z.add_1_r, inject_Z_plus.
    change (inject_Z 1) with 1. ring.
  - cbn [Clusterer.sum_Q fold_right].
    fold (Clusterer.sum_Q
            (map (fun r => match get_cat c r with
                           | Some _ => 1 | None => 0 end) l)).
    rewrite <- IH. ring.
Qed.

Lemma dated_rows_with_key c df :
  Clusterer.sum_Q
    (map (fun r => match get_cat c r with Some _ => 1 | None => 0 end
                   * inject_Z (Z.of_nat
                       match year r with Some _ => 1 | None => 0 end%nat)) df)
  == inject_Z (Z.of_nat (length (with_key c (with_year df)))).
Proof.
  unfold with_key, with_year. induction df as [|r df IH]; [reflexivity|].
  cbn [map Clusterer.sum_Q fold_right]. rewrite IH, filter_cons.
  destruct (year r) as [y|] eqn:Ey.
  - rewrite decide_True by (eexists; reflexivity). rewrite filter_cons.
    destruct (get_cat c r) as [k|] eqn:Ek.
    + rewrite decide_True by (eexists; reflexivity). cbn [length].
      change (inject_Z (Z.of_nat 1)) with 1.
      rewrite Nat2Z.inj_succ, <- Z.add_1_r, inject_Z_plus.
      change (inject_Z 1) with 1. ring.
    + rewrite decide_False by (intros [? ?]; discriminate).
      change (inject_Z (Z.of_nat 1)) with 1. ring.
  - rewrite decide_False by (intros [? ?]; discriminate).
    change (inject_Z (Z.of_nat 0)) with 0. ring.
Qed.

(** X25: the yearly trend has one row per year of the table, in strictly
    ascending order, and every year of the table has its row. A row of
    the table without year belongs to no year: the cells of
    Total_Incidents add up to the number of rows that have a year and a
    country, not to the number of rows. *)
Theorem yearly_trends_rows (df : list Incident) :
  exists ys cells,
    column (generate_yearly_trends df) "Year" = Some (map VNum ys)
    /\ StronglySorted Qlt ys
    /\ (forall r y, r ∈ df -> year r = Some y ->
          exists y', y' ∈ ys /\ y == y')
    /\ column (generate_yearly_trends df) "Total_Incidents" = Some cells
    /\ total cells
       == inject_Z (Z.of_nat (length (with_key Country (with_year df)))).
Proof.
  exists (unique_years df). eexists.
  split; [|split; [|split; [|split]]].
  - unfold generate_yearly_trends. rewrite column_agg_key.
    unfold groupby_year. now rewrite map_map.
  - apply unique_years_sorted.
  - apply unique_years_covers.
  - unfold generate_yearly_trends.
    eapply column_agg_named; reflexivity.
  - unfold groupby_year. rewrite map_map. cbn [snd aggregate].
    rewrite total_numbers, <- dated_rows_with_key.
    rewrite (sum_Q_map_ext _
               (fun k => Clusterer.sum_Q
                  (map (fun r => match get_cat Country r with
                                 | Some _ => 1 | None => 0 end)
                     (year_rows k df))))
      by (intros k; apply count_cat_as_sum).
    unfold year_rows.
    rewrite (groups_double_count
               (fun k r => cell_eqb (year r) (Some k) = true) _
               (fun r => match get_cat Country r with
                         | Some _ => 1 | None => 0 end)).
    apply sum_Q_map_ext_elem. intros r Hr.
    rewrite year_multiplicity; [reflexivity | apply unique_years_sorted |].
    intros y Ey. exact (unique_years_covers df r y Hr Ey).
Qed.

End EdaFacts.

(** * The dashboard *)

Module DashboardFacts.
Import Num Cleaner Py Persisted Predictor PredictorSpec PredictorProofs.
Import Dashboard Views.

(** ** The Predict button *)







(** ** The sidebar filters *)





End DashboardFacts.
